(** * hologram/server/usercache.go: the user caches and their authentication protocol

    A shallow embedding of [server/usercache.go]: the [User] record, the two
    caches ([ldapUserCache], [keysFileUserCache]) with their [Update],
    [Users], [_verify]/[verify] and [Authenticate] methods and their
    constructors, followed by the properties established about them.

    Conventions of the embedding.
    - A Go method with a pointer receiver is a computation of the monad [M C]
      below, where [C] is the receiver's struct: it reads and writes the
      struct, emits events (log lines, metrics, and one [Call] marker on entry
      to the methods whose invocations are counted) and either returns or
      panics.
    - [map[string]T] is [gmap string T].  The order in which [range] visits a
      map is not fixed by Go; it is supplied by the [MapRange] interface, about
      which only "every entry exactly once" is known.  Go draws the order
      afresh at every [range] statement: an instance stands for the order of
      one statement, and a property that relates two [range] statements over
      one map is stated for two instances.
    - The collaborators that are not code of this file (the [ssh] and [base64]
      packages, the LDAP server, the keys file) are interfaces (type classes),
      as they are in the source.
    - [time.Now]/[time.Since] are not modelled: a [Timing] event carries the
      bucket name only. *)

From stdpp Require Import gmap strings list fin_maps.
From Stdlib Require Import Strings.Byte Strings.String.

Open Scope string_scope.
Open Scope list_scope.

(** ** Go values shared by both caches *)

(** Go's [error]: [None] is [nil]. *)
Definition error : Type := string.

(** [[]byte]. *)
Definition bytes : Type := list Byte.byte.

#[global] Instance byte_eq_dec : EqDecision Byte.byte := Byte.byte_eq_dec.

(** A Go result pair [(v, err)] of which exactly one side is meaningful. *)
Inductive go_result (A : Type) : Type :=
| Ok (a : A)
| Err (e : error).
Arguments Ok {A} a.
Arguments Err {A} e.

(** [interface{}] values as they occur in a record of the keys file: the
    dynamic types the type assertions of [Update] distinguish.  [IOther]
    carries the name of any other dynamic type. *)
#[warnings="-register-all"]
Inductive iface : Type :=
| INil
| IString (s : string)
| ISlice (l : list iface)
| IOther (tag : string).

(** ** Events *)

Inductive level : Type := DebugLevel | WarningLevel.

Inductive event : Type :=
| Call (fn : string)
| Log (lvl : level) (fmt : string) (args : list string)
| Timing (bucket : string)
| Counter (bucket : string) (n : Z).

#[global] Instance level_eq_dec : EqDecision level.
Proof. solve_decision. Defined.
#[global] Instance event_eq_dec : EqDecision event.
Proof. solve_decision. Defined.

(** Number of invocations of [fn] recorded in a trace. *)
Fixpoint n_calls (fn : string) (tr : list event) : nat :=
  match tr with
  | [] => 0
  | Call g :: tr => (if decide (g = fn) then 1 else 0) + n_calls fn tr
  | _ :: tr => n_calls fn tr
  end.

(** [%s] of a [[]string] argument. *)
Definition fmt_strings (l : list string) : string :=
  "[" +:+ String.concat " " l +:+ "]".

(** ** The monad of a method: receiver state, events, panics *)

Inductive outcome (A : Type) : Type :=
| Done (a : A)
| Panicked (why : string).
Arguments Done {A} a.
Arguments Panicked {A} why.

Definition M (C A : Type) : Type := C → outcome A * C * list event.

#[global] Instance M_ret {C} : MRet (M C) := λ A a c, (Done a, c, []).

#[global] Instance M_bind {C} : MBind (M C) := λ A B k m c,
  match m c with
  | (Done a, c1, e1) =>
      match k a c1 with
      | (r, c2, e2) => (r, c2, e1 ++ e2)
      end
  | (Panicked why, c1, e1) => (Panicked why, c1, e1)
  end.

Definition get {C} : M C C := λ c, (Done c, c, []).
Definition modify {C} (f : C → C) : M C unit := λ c, (Done (), f c, []).
Definition emit {C} (e : event) : M C unit := λ c, (Done (), c, [e]).
Definition panic {C A} (why : string) : M C A := λ c, (Panicked why, c, []).

(** [for _, x := range l { body }] over the visiting order [l]. *)
Fixpoint for_each {C B} (l : list B) (body : B → M C unit) : M C unit :=
  match l with
  | [] => mret ()
  | x :: l => body x ;; for_each l body
  end.

(** A loop that updates local variables [acc]. *)
Fixpoint for_fold {C B L} (l : list B) (acc : L) (body : L → B → M C L) : M C L :=
  match l with
  | [] => mret acc
  | x :: l => acc' ← body acc x; for_fold l acc' body
  end.

(** ** Collaborators *)

(** What the file uses of [golang.org/x/crypto/ssh] and [encoding/base64].
    [DecodeString] is the byte slice [base64.StdEncoding.DecodeString]
    returns; both call sites discard its error.  The parsers return [None]
    where the Go functions return a non-nil error.  [Verify] returns the
    error of [PublicKey.Verify]. *)
Class SSH : Type := {
  PublicKey : Type;
  Signature : Type;
  DecodeString : string → bytes;
  ParsePublicKey : bytes → option PublicKey;
  ParseAuthorizedKey : bytes → option PublicKey;
  Verify : PublicKey → bytes → Signature → option error;
}.

(** The order in which [range] visits the entries of a map. *)
Class MapRange : Type := {
  range : ∀ {V : Type}, gmap string V → list (string * V);
  range_perm : ∀ (V : Type) (m : gmap string V), range m ≡ₚ map_to_list m;
}.

(** [User] represents information about a user stored in the cache. *)
Record User `{SSH} : Type := mkUser {
  Username : string;
  SSHKeys : list PublicKey;
  ARNs : list string;
  DefaultRole : string;
}.
Arguments mkUser {_} Username SSHKeys ARNs DefaultRole.

Section Shared.
Context `{SSH}.

(** The key parsing both [Update]s perform on one key string: the base64
    form first, the authorized-keys line second. *)
Definition parse_key (raw : string) : option PublicKey :=
  match ParsePublicKey (DecodeString raw) with
  | Some k => Some k
  | None => ParseAuthorizedKey (list_byte_of_string raw)
  end.

(** [key.Verify(challenge, sshSig) == nil]. *)
Definition verifies (challenge : bytes) (sshSig : Signature) (key : PublicKey) : bool :=
  match Verify key challenge sshSig with
  | None => true
  | Some _ => false
  end.

(** The nested loops of [_verify] and [verify] over the users in visiting
    order: the first user with a verifying key is returned. *)
Fixpoint scan (challenge : bytes) (sshSig : Signature)
    (l : list (string * User)) : option User :=
  match l with
  | [] => None
  | (_, user) :: l =>
      if existsb (verifies challenge sshSig) (SSHKeys user)
      then Some user
      else scan challenge sshSig l
  end.
End Shared.

(** ** The LDAP cache *)

Module LDAP.

(** What the file uses of [github.com/nmcclain/ldap]: entries with their
    attribute accessors, search requests and results. *)
Record EntryAttribute : Type := mkAttr {
  Name : string;
  Values : list string;
}.

Record Entry : Type := mkEntry {
  DN : string;
  Attributes : list EntryAttribute;
}.

(** [Entry.GetAttributeValues]: the values of the first attribute of that
    name, the empty slice when there is none. *)
Fixpoint attribute_values (attrs : list EntryAttribute) (attribute : string) : list string :=
  match attrs with
  | [] => []
  | attr :: attrs =>
      if decide (Name attr = attribute) then Values attr
      else attribute_values attrs attribute
  end.

Definition GetAttributeValues (e : Entry) (attribute : string) : list string :=
  attribute_values (Attributes e) attribute.

(** [Entry.GetAttributeValue]: the first value, the empty string when there
    is none. *)
Definition GetAttributeValue (e : Entry) (attribute : string) : string :=
  match GetAttributeValues e attribute with
  | [] => ""
  | v :: _ => v
  end.

Record SearchRequest : Type := NewSearchRequest {
  BaseDN : string;
  Scope : Z;
  DerefAliases : Z;
  SizeLimit : Z;
  TimeLimit : Z;
  TypesOnly : bool;
  Filter : string;
  ReqAttributes : list string;
  Controls : list string;
}.

Definition ScopeWholeSubtree : Z := 2.
Definition NeverDerefAliases : Z := 0.

Record SearchResult : Type := mkSearchResult {
  Entries : list Entry;
}.

Record ModifyRequest : Type := mkModifyRequest {
  ModDN : string;
}.

(** [LDAPImplementation] implementers provide access to LDAP servers.  A
    server is a state [S]; each operation returns its Go result and the
    server's next state. *)
Class LDAPImplementation (S : Type) : Type := {
  Search : S → SearchRequest → go_result SearchResult * S;
  Modify : S → ModifyRequest → option error * S;
}.

Section Cache.
Context `{SSH} `{MapRange} {S : Type} `{LDAPImplementation S}.

(** [ldapUserCache] connects to LDAP and pulls user settings from it.  The
    [stats] sink of the struct is the event trace of the monad. *)
Record ldapUserCache : Type := mkLUC {
  users : gmap string User;
  groups : gmap string (list string);
  server : S;
  userAttr : string;
  baseDN : string;
  enableServerRoles : bool;
  roleAttribute : string;
  defaultRole : string;
  defaultRoleAttr : string;
}.

Definition set_users (f : gmap string User → gmap string User)
    (luc : ldapUserCache) : ldapUserCache :=
  mkLUC (f (users luc)) (groups luc) (server luc) (userAttr luc) (baseDN luc)
    (enableServerRoles luc) (roleAttribute luc) (defaultRole luc) (defaultRoleAttr luc).

Definition set_groups (f : gmap string (list string) → gmap string (list string))
    (luc : ldapUserCache) : ldapUserCache :=
  mkLUC (users luc) (f (groups luc)) (server luc) (userAttr luc) (baseDN luc)
    (enableServerRoles luc) (roleAttribute luc) (defaultRole luc) (defaultRoleAttr luc).

Definition set_server (s : S) (luc : ldapUserCache) : ldapUserCache :=
  mkLUC (users luc) (groups luc) s (userAttr luc) (baseDN luc)
    (enableServerRoles luc) (roleAttribute luc) (defaultRole luc) (defaultRoleAttr luc).

(** [luc.server.Search(req)]. *)
Definition call_Search (req : SearchRequest) : M ldapUserCache (go_result SearchResult) :=
  λ luc, match Search (server luc) req with
         | (r, s') => (Done r, set_server s' luc, [])
         end.

Definition groupSearchRequest (luc : ldapUserCache) : SearchRequest :=
  NewSearchRequest (baseDN luc) ScopeWholeSubtree NeverDerefAliases 0 0 false
    "(objectClass=groupOfNames)" [roleAttribute luc] [].

Definition searchRequest (luc : ldapUserCache) : SearchRequest :=
  NewSearchRequest (baseDN luc) ScopeWholeSubtree NeverDerefAliases 0 0 false
    "(sshPublicKey=*)" ["sshPublicKey"; userAttr luc; "memberOf"; defaultRoleAttr luc] [].

(** The loop of [Update] over the group entries: [luc.groups[dn] = arns]. *)
Definition record_group (luc : ldapUserCache) (entry : Entry) : M ldapUserCache unit :=
  let dn := DN entry in
  let arns := GetAttributeValues entry (roleAttribute luc) in
  emit (Log DebugLevel "Adding %s to %s" [fmt_strings arns; dn]);;
  modify (set_groups (<[dn := arns]>)).

(** The loop of [Update] over one entry's [sshPublicKey] values. *)
Definition add_key (username : string) (userKeys : list PublicKey) (eachKey : string)
    : M ldapUserCache (list PublicKey) :=
  match parse_key eachKey with
  | None =>
      emit (Log WarningLevel
        "SSH key parsing for user %s failed (key was '%s')! This key will not be added into LDAP."
        [username; eachKey]);;
      mret userKeys
  | Some userSSHKey => mret (userKeys ++ [userSSHKey])
  end.

(** The loop of [Update] over one entry's [memberOf] values:
    [arns = append(arns, luc.groups[groupDN]...)]. *)
Definition add_group (arns : list string) (groupDN : string)
    : M ldapUserCache (list string) :=
  emit (Log DebugLevel groupDN []);;
  luc ← get;
  mret (arns ++ default [] (groups luc !! groupDN)).

(** The body of the loop of [Update] over the user entries. *)
Definition record_user (luc : ldapUserCache) (entry : Entry) : M ldapUserCache unit :=
  let username := GetAttributeValue entry (userAttr luc) in
  userKeys ← for_fold (GetAttributeValues entry "sshPublicKey") [] (add_key username);
  '(userDefaultRole, arns) ←
    (if enableServerRoles luc then
       let userDefaultRole := GetAttributeValue entry (defaultRoleAttr luc) in
       let userDefaultRole :=
         if decide (userDefaultRole = "") then defaultRole luc else userDefaultRole in
       arns ← for_fold (GetAttributeValues entry "memberOf") [] add_group;
       mret (userDefaultRole, arns)
     else mret (defaultRole luc, []));
  modify (set_users (<[username := mkUser username userKeys arns userDefaultRole]>));;
  emit (Log DebugLevel "Information on %s (re-)generated." [username]).

(** [Update] searches LDAP for the current user set that supports the
    necessary properties for Hologram. *)
Definition Update : M ldapUserCache (option error) :=
  emit (Call "Update");;
  luc ← get;
  groupErr ←
    (if enableServerRoles luc then
       groupSearchResult ← call_Search (groupSearchRequest luc);
       match groupSearchResult with
       | Err err => mret (Some err)
       | Ok res => for_each (Entries res) (record_group luc);; mret None
       end
     else mret None);
  match groupErr with
  | Some err => mret (Some err)
  | None =>
      searchResult ← call_Search (searchRequest luc);
      match searchResult with
      | Err err => mret (Some err)
      | Ok res =>
          for_each (Entries res) (record_user luc);;
          emit (Log DebugLevel "LDAP information re-cached." []);;
          emit (Timing "ldapCacheUpdate");;
          mret None
      end
  end.

Definition Users (luc : ldapUserCache) : gmap string User := users luc.

Definition _verify (username : string) (challenge : bytes) (sshSig : Signature)
    : M ldapUserCache (option User * option error) :=
  emit (Call "_verify");;
  luc ← get;
  mret (scan challenge sshSig (range (users luc)), None).

Definition Authenticate (username : string) (challenge : bytes) (sshSig : Signature)
    : M ldapUserCache (option User * option error) :=
  '(retUser, _) ← _verify username challenge sshSig;
  match retUser with
  | None =>
      emit (Log DebugLevel
        "Could not find %s in the LDAP cache; updating from the server." [username]);;
      emit (Counter "ldapCacheMiss" 1);;
      err ← Update;
      match err with
      | Some err => mret (None, Some err)
      | None => _verify username challenge sshSig
      end
  | Some retUser => mret (Some retUser, None)
  end.

(** [NewLDAPUserCache] returns the cache together with the error of its
    first [Update]. *)
Definition NewLDAPUserCache (server : S) (userAttr baseDN : string)
    (enableServerRoles : bool) (roleAttribute defaultRole defaultRoleAttr : string)
    : outcome (option error) * ldapUserCache * list event :=
  Update (mkLUC ∅ ∅ server userAttr baseDN enableServerRoles roleAttribute
            defaultRole defaultRoleAttr).

End Cache.
Arguments ldapUserCache {_} S.
End LDAP.

(** ** The keys-file cache *)

Module KF.

(** Modelled from the spec: the declaration of the type [KeysMap] returned by
    [KeysFile.Keys] is not in [usercache.go].  The spec describes it as "a
    mapping from key-material string to a record of named attributes", and
    [Update] ranges over it with string keys and indexes each value by
    attribute name, the attribute values being [interface{}]. *)
Abbreviation KeysMap := (gmap string (gmap string iface)).

(** The [KeysFile] interface; a keys file is a state [K]. *)
Class KeysFile (K : Type) : Type := {
  Search : K → string → go_result (gmap string iface) * K;
  Load : K → option error * K;
  Keys : K → go_result KeysMap * K;
}.

(** [userData[attr]]: indexing a Go map yields the zero value, the nil
    interface, for a missing key. *)
Definition index (userData : gmap string iface) (attr : string) : iface :=
  default INil (userData !! attr).

(** [v.(string)]: panics unless the dynamic type is [string]. *)
Definition assert_string {C} (v : iface) : M C string :=
  match v with
  | IString s => mret s
  | INil => panic "interface conversion: interface {} is nil, not string"
  | ISlice _ => panic "interface conversion: interface {} is []interface {}, not string"
  | IOther tag => panic ("interface conversion: interface {} is " +:+ tag +:+ ", not string")
  end.

(** [v.([]interface{})]: panics unless the dynamic type is a slice. *)
Definition assert_slice {C} (v : iface) : M C (list iface) :=
  match v with
  | ISlice l => mret l
  | INil => panic "interface conversion: interface {} is nil, not []interface {}"
  | IString _ => panic "interface conversion: interface {} is string, not []interface {}"
  | IOther tag =>
      panic ("interface conversion: interface {} is " +:+ tag +:+ ", not []interface {}")
  end.

(** [s, ok := v.(string)]: never panics. *)
Definition string_ok (v : iface) : string * bool :=
  match v with
  | IString s => (s, true)
  | _ => ("", false)
  end.

Section Cache.
Context `{SSH} `{MapRange} {K : Type} `{KeysFile K}.

(** [keysFileUserCache] reads the file that contains public ssh keys and
    user info.  The [stats] sink of the struct is the event trace of the
    monad. *)
Record keysFileUserCache : Type := mkKFUC {
  users : gmap string User;
  keysFile : K;
  userAttr : string;
  enableServerRoles : bool;
  roleAttr : string;
  defaultRole : string;
  defaultRoleAttr : string;
}.

Definition set_users (m : gmap string User) (kfuc : keysFileUserCache) : keysFileUserCache :=
  mkKFUC m (keysFile kfuc) (userAttr kfuc) (enableServerRoles kfuc) (roleAttr kfuc)
    (defaultRole kfuc) (defaultRoleAttr kfuc).

Definition set_keysFile (k : K) (kfuc : keysFileUserCache) : keysFileUserCache :=
  mkKFUC (users kfuc) k (userAttr kfuc) (enableServerRoles kfuc) (roleAttr kfuc)
    (defaultRole kfuc) (defaultRoleAttr kfuc).

(** [kfuc.keysFile.Load()]. *)
Definition call_Load : M keysFileUserCache (option error) :=
  λ kfuc, match Load (keysFile kfuc) with
          | (err, k') => (Done err, set_keysFile k' kfuc, [])
          end.

(** [kfuc.keysFile.Keys()]. *)
Definition call_Keys : M keysFileUserCache (go_result KeysMap) :=
  λ kfuc, match Keys (keysFile kfuc) with
          | (r, k') => (Done r, set_keysFile k' kfuc, [])
          end.

Definition add_SSHKey (sshKey : PublicKey) (user : User) : User :=
  mkUser (Username user) (SSHKeys user ++ [sshKey]) (ARNs user) (DefaultRole user).

Definition add_ARN (role : string) (user : User) : User :=
  mkUser (Username user) (SSHKeys user) (ARNs user ++ [role]) (DefaultRole user).

(** [seenRoles[[2]string{username, role}]]: [false] for a missing key. *)
Definition seen (seenRoles : gmap (string * string) bool) (username role : string) : bool :=
  default false (seenRoles !! (username, role)).

(** The loop of [Update] over the roles of one record; its local variables
    are the user being accumulated and [seenRoles]. *)
Definition add_role (username : string)
    (acc : User * gmap (string * string) bool) (r : iface)
    : M keysFileUserCache (User * gmap (string * string) bool) :=
  let '(user, seenRoles) := acc in
  role ← assert_string r;
  if seen seenRoles username role then mret (user, seenRoles)
  else mret (add_ARN role user, <[(username, role) := true]> seenRoles).

(** The default role one record resolves to. *)
Definition record_defaultRole (kfuc : keysFileUserCache) (userData : gmap string iface) : string :=
  let '(defaultRole', ok) := string_ok (index userData (defaultRoleAttr kfuc)) in
  if negb ok || bool_decide (defaultRole' = "") then defaultRole kfuc else defaultRole'.

(** The body of the loop of [Update] over the key records; its local
    variables are the maps [users] and [seenRoles].  Where the source
    mutates a user through the pointer held by [users], the updated user is
    stored back by the final [users[username] = user]; the two only differ on
    a path that panics, where the local map is lost anyway. *)
Definition record_key (kfuc : keysFileUserCache)
    (acc : gmap string User * gmap (string * string) bool)
    (kv : string * gmap string iface)
    : M keysFileUserCache (gmap string User * gmap (string * string) bool) :=
  let '(users, seenRoles) := acc in
  let '(key, userData) := kv in
  username ← assert_string (index userData (userAttr kfuc));
  let defaultRole := record_defaultRole kfuc userData in
  let user :=
    match users !! username with
    | Some user => user
    | None => mkUser username [] [] defaultRole
    end in
  match parse_key key with
  | None =>
      emit (Log WarningLevel
        "SSH key parsing for user %s failed (key was '%s')! This key will not be added into the keys file."
        [username; key]);;
      mret (users, seenRoles)
  | Some sshKey =>
      let user := add_SSHKey sshKey user in
      '(user, seenRoles) ←
        (if enableServerRoles kfuc then
           roles ← assert_slice (index userData (roleAttr kfuc));
           for_fold roles (user, seenRoles) (add_role username)
         else mret (user, seenRoles));
      mret (<[username := user]> users, seenRoles)
  end.

Definition Update : M keysFileUserCache (option error) :=
  emit (Call "Update");;
  kfuc ← get;
  err ← call_Load;
  match err with
  | Some err => mret (Some err)
  | None =>
      keys ← call_Keys;
      match keys with
      | Err err => mret (Some err)
      | Ok keys =>
          '(users, _) ← for_fold (range keys) (∅, ∅) (record_key kfuc);
          modify (set_users users);;
          emit (Log DebugLevel "Keys file information re-cached." []);;
          emit (Timing "keysFileCacheUpdate");;
          mret None
      end
  end.

Definition Users (kfuc : keysFileUserCache) : gmap string User := users kfuc.

Definition verify (challenge : bytes) (sshSig : Signature)
    : M keysFileUserCache (option User * option error) :=
  emit (Call "verify");;
  kfuc ← get;
  mret (scan challenge sshSig (range (users kfuc)), None).

Definition Authenticate (username : string) (challenge : bytes) (sshSig : Signature)
    : M keysFileUserCache (option User * option error) :=
  '(user, _) ← verify challenge sshSig;
  match user with
  | None =>
      emit (Log DebugLevel
        "Could not find %s in the keys file cache; updating from the file." [username]);;
      emit (Counter "keysFileCacheMiss" 1);;
      err ← Update;
      match err with
      | Some err => mret (None, Some err)
      | None => verify challenge sshSig
      end
  | Some user => mret (Some user, None)
  end.

Definition NewKeysFileUserCache (keysFile : K) (enableServerRoles : bool)
    (userAttr roleAttr defaultRole defaultRoleAttr : string)
    : outcome (option error) * keysFileUserCache * list event :=
  Update (mkKFUC ∅ keysFile userAttr enableServerRoles roleAttr defaultRole defaultRoleAttr).

End Cache.
Arguments keysFileUserCache {_} K.
End KF.

(** ** Closed forms of the loops

    What each loop of the two [Update]s computes, as functions of the data it
    ranges over.  The lemmas of the second part prove that the loops compute
    exactly these; the properties are then stated on [Update] itself. *)

Section Snapshots.
Context `{SSH}.

(** No key of the snapshot verifies the signature over the challenge. *)
Definition no_key_verifies (users : gmap string User) (challenge : bytes)
    (sshSig : Signature) : Prop :=
  ∀ name user key,
    users !! name = Some user → key ∈ SSHKeys user →
    Verify key challenge sshSig ≠ None.

End Snapshots.

Section LDAPClosedForms.
Context `{SSH} {S : Type}.
Import LDAP.

(** The warnings of the key loop: one per value that does not parse. *)
Definition key_warnings (username : string) (vals : list string) : list event :=
  flat_map (λ eachKey,
    match parse_key eachKey with
    | None => [Log WarningLevel
        "SSH key parsing for user %s failed (key was '%s')! This key will not be added into LDAP."
        [username; eachKey]]
    | Some _ => []
    end) vals.

(** The ARNs the [memberOf] loop collects: the lists of the member groups,
    one after the other. *)
Definition member_arns (groups : gmap string (list string)) (memberOf : list string)
    : list string :=
  flat_map (λ groupDN, default [] (groups !! groupDN)) memberOf.

Definition entry_username (luc : ldapUserCache S) (entry : Entry) : string :=
  GetAttributeValue entry (userAttr luc).

Definition entry_defaultRole (luc : ldapUserCache S) (entry : Entry) : string :=
  if enableServerRoles luc then
    if decide (GetAttributeValue entry (defaultRoleAttr luc) = "") then defaultRole luc
    else GetAttributeValue entry (defaultRoleAttr luc)
  else defaultRole luc.

Definition entry_arns (luc : ldapUserCache S) (groups : gmap string (list string))
    (entry : Entry) : list string :=
  if enableServerRoles luc then member_arns groups (GetAttributeValues entry "memberOf")
  else [].

(** The [User] one entry of the search result is turned into. *)
Definition entry_user (luc : ldapUserCache S) (groups : gmap string (list string))
    (entry : Entry) : User :=
  mkUser (entry_username luc entry)
    (omap parse_key (GetAttributeValues entry "sshPublicKey"))
    (entry_arns luc groups entry)
    (entry_defaultRole luc entry).

Definition entry_events (luc : ldapUserCache S) (entry : Entry) : list event :=
  key_warnings (entry_username luc entry) (GetAttributeValues entry "sshPublicKey")
  ++ (if enableServerRoles luc
      then (λ groupDN, Log DebugLevel groupDN []) <$> GetAttributeValues entry "memberOf"
      else [])
  ++ [Log DebugLevel "Information on %s (re-)generated." [entry_username luc entry]].

(** The group map after the group loop: the entries are written over the
    map the cache already holds. *)
Definition patch_groups (luc : ldapUserCache S) (entries : list Entry)
    (groups : gmap string (list string)) : gmap string (list string) :=
  foldl (λ g entry, <[DN entry := GetAttributeValues entry (roleAttribute luc)]> g)
    groups entries.

Definition group_events (luc : ldapUserCache S) (entries : list Entry) : list event :=
  (λ entry, Log DebugLevel "Adding %s to %s"
     [fmt_strings (GetAttributeValues entry (roleAttribute luc)); DN entry]) <$> entries.

(** The user map after the user loop: the entries are written over the map
    the cache already holds. *)
Definition patch_users (luc : ldapUserCache S) (groups : gmap string (list string))
    (entries : list Entry) (users : gmap string User) : gmap string User :=
  foldl (λ u entry, <[entry_username luc entry := entry_user luc groups entry]> u)
    users entries.

(** The cache [Update] leaves when both searches succeed. *)
Definition updated (luc : ldapUserCache S) (s : S) (groupEntries entries : list Entry)
    : ldapUserCache S :=
  let groups' := patch_groups luc groupEntries (groups luc) in
  mkLUC (patch_users luc groups' entries (users luc)) groups' s (userAttr luc)
    (baseDN luc) (enableServerRoles luc) (roleAttribute luc) (defaultRole luc)
    (defaultRoleAttr luc).

End LDAPClosedForms.

Section LDAPSearches.
Context `{SSH} {S : Type} `{LDAP.LDAPImplementation S}.
Import LDAP.

(** The server state in which [Update] issues the user search, when it gets
    that far: after a successful group search with role support, at once
    without. *)
Definition before_user_search (luc : ldapUserCache S) : option S :=
  if enableServerRoles luc then
    match Search (server luc) (groupSearchRequest luc) with
    | (Ok _, s1) => Some s1
    | (Err _, _) => None
    end
  else Some (server luc).

End LDAPSearches.


Section KFClosedForms.
Context `{SSH} {K : Type}.
Import KF.

(** The username a record carries, when its attribute is a string. *)
Definition rec_username (kfuc : keysFileUserCache K) (userData : gmap string iface)
    : option string :=
  match index userData (userAttr kfuc) with
  | IString s => Some s
  | _ => None
  end.

Definition as_string (v : iface) : option string :=
  match v with
  | IString s => Some s
  | _ => None
  end.

(** The roles a record carries, when role support is enabled. *)
Definition rec_roles (kfuc : keysFileUserCache K) (userData : gmap string iface)
    : list string :=
  if enableServerRoles kfuc then
    match index userData (roleAttr kfuc) with
    | ISlice l => omap as_string l
    | _ => []
    end
  else [].

(** Appending the roles not yet present, in order. *)
Definition add_new (arns : list string) (role : string) : list string :=
  if decide (role ∈ arns) then arns else arns ++ [role].

Definition merge_roles (arns roles : list string) : list string :=
  foldl add_new arns roles.

(** The records that contribute to user [u]: those that carry the username
    [u] and whose key string parses. *)
Definition usable (kfuc : keysFileUserCache K) (u : string)
    (kv : string * gmap string iface) : Prop :=
  rec_username kfuc kv.2 = Some u ∧ is_Some (parse_key kv.1).

#[global] Instance usable_dec kfuc u kv : Decision (usable kfuc u kv).
Proof. unfold usable. apply _. Defined.

(** The user [Update] builds for [u] from the records in visiting order. *)
Definition user_from (kfuc : keysFileUserCache K) (u : string)
    (recs : list (string * gmap string iface)) : option User :=
  match filter (usable kfuc u) recs with
  | [] => None
  | ((_, userData) :: _) as good =>
      Some (mkUser u
              (omap (λ kv, parse_key kv.1) good)
              (merge_roles [] (flat_map (λ kv, rec_roles kfuc kv.2) good))
              (record_defaultRole kfuc userData))
  end.

(** What the record loop maintains after the records [pre]: the users built
    so far, and [seenRoles] marking exactly the roles they hold. *)
Definition records_inv (kfuc : keysFileUserCache K)
    (pre : list (string * gmap string iface))
    (acc : gmap string User * gmap (string * string) bool) : Prop :=
  ∀ u, acc.1 !! u = user_from kfuc u pre
       ∧ ∀ r, seen acc.2 u r = true ↔ r ∈ default [] (ARNs <$> user_from kfuc u pre).

End KFClosedForms.

(** A computation that leaves the receiver as it is and records no call. *)
Definition inert {C A} (m : M C A) : Prop :=
  ∀ c, (m c).1.2 = c ∧ ∀ fn, n_calls fn (m c).2 = 0.

(** The events of a miss, up to the call of [Update]. *)
Definition ldap_miss_events (username : string) : list event :=
  [Call "_verify";
   Log DebugLevel "Could not find %s in the LDAP cache; updating from the server." [username];
   Counter "ldapCacheMiss" 1].

Definition kf_miss_events (username : string) : list event :=
  [Call "verify";
   Log DebugLevel "Could not find %s in the keys file cache; updating from the file." [username];
   Counter "keysFileCacheMiss" 1].

(** ** Properties of a snapshot and of a trace *)

Section SnapshotProperties.
Context `{SSH}.

(** Every user of the snapshot is stored under its own username. *)
Definition keyed_by_username (users : gmap string User) : Prop :=
  ∀ name user, users !! name = Some user → Username user = name.

(** No user of the snapshot has the empty default role. *)
Definition default_roles_set (users : gmap string User) : Prop :=
  ∀ name user, users !! name = Some user → DefaultRole user ≠ "".

End SnapshotProperties.

(** Number of [Timing] events of a bucket, and of [Counter] events of a
    bucket, in a trace. *)
Fixpoint n_timings (bucket : string) (tr : list event) : nat :=
  match tr with
  | [] => 0
  | Timing b :: tr => (if decide (b = bucket) then 1 else 0) + n_timings bucket tr
  | _ :: tr => n_timings bucket tr
  end.

Fixpoint n_counters (bucket : string) (tr : list event) : nat :=
  match tr with
  | [] => 0
  | Counter b _ :: tr => (if decide (b = bucket) then 1 else 0) + n_counters bucket tr
  | _ :: tr => n_counters bucket tr
  end.

(** A log line, as opposed to a metric or a call marker; a computation
    that emits log lines only. *)
Definition is_log (e : event) : Prop :=
  match e with
  | Log _ _ _ => True
  | _ => False
  end.

Definition logs_only {C A} (m : M C A) : Prop :=
  ∀ c, Forall is_log (m c).2.

Section KFTyping.
Context `{SSH} {K : Type}.
Import KF.

(** A record on which the type assertions of [Update] hold: the username
    is a string and, where the roles are read (role support enabled, key
    string parsed), they are a slice of strings. *)
Definition well_typed (kfuc : keysFileUserCache K) (key : string)
    (userData : gmap string iface) : Prop :=
  (∃ u, index userData (userAttr kfuc) = IString u)
  ∧ (enableServerRoles kfuc = true → is_Some (parse_key key) →
     ∃ roles, index userData (roleAttr kfuc) = ISlice roles
              ∧ ∀ r, r ∈ roles → ∃ role, r = IString role).

End KFTyping.

(** ** Concrete collaborators

    Small implementations of the interfaces, used to run the caches on
    concrete inputs. *)

Module Demo.

(** A toy [ssh]: a public key is its name; raw key material is recognised by
    the prefix [AAAA], an authorized-keys line by the prefix [ssh-rsa ]; a
    signature names its signer and the message signed. *)
Definition toy_raw (b : bytes) : option string :=
  let s := string_of_list_byte b in
  if String.prefix "AAAA" s then Some s else None.

Definition toy_line (b : bytes) : option string :=
  let s := string_of_list_byte b in
  if String.prefix "ssh-rsa " s then Some (String.substring 8 (String.length s - 8) s)
  else None.

Definition toy_verify (key : string) (challenge : bytes) (sig : string * bytes) : option error :=
  if decide (sig.1 = key ∧ sig.2 = challenge) then None
  else Some "ssh: signature did not verify".

#[global] Instance toySSH : SSH := {|
  PublicKey := string;
  Signature := string * bytes;
  DecodeString := list_byte_of_string;
  ParsePublicKey := toy_raw;
  ParseAuthorizedKey := toy_line;
  Verify := toy_verify;
|}.

(** Two visiting orders: the one of [map_to_list] and its reverse. *)
#[global] Program Instance forwardRange : MapRange := {|
  range := λ V m, map_to_list m;
|}.
Next Obligation. reflexivity. Qed.

Program Definition backwardRange : MapRange := {|
  range := λ V m, reverse (map_to_list m);
|}.
Next Obligation. intros V m. apply reverse_Permutation. Qed.

(** An LDAP server that answers from a script, one reply per search. *)
#[global] Instance scriptedLDAP : LDAP.LDAPImplementation (list (go_result LDAP.SearchResult)) := {|
  LDAP.Search := λ s _,
    match s with
    | [] => (Err "ldap: connection closed", [])
    | r :: s => (r, s)
    end;
  LDAP.Modify := λ s _, (None, s);
|}.

(** A keys file with fixed answers to [Load] and [Keys]. *)
#[global] Instance fixedKeysFile : KF.KeysFile (option error * go_result KF.KeysMap) := {|
  KF.Search := λ k _, (Err "keys file: not found", k);
  KF.Load := λ k, (k.1, k);
  KF.Keys := λ k, (k.2, k);
|}.

(** *** An LDAP directory

    Two groups sharing one role; alice, a member of both and of a group the
    directory does not know, one of whose three key strings does not parse;
    and carol, a member of exactly the two groups. *)
Definition groupEntries : list LDAP.Entry :=
  [LDAP.mkEntry "cn=dev,ou=groups" [LDAP.mkAttr "roleARN" ["A"; "B"]];
   LDAP.mkEntry "cn=ops,ou=groups" [LDAP.mkAttr "roleARN" ["B"; "C"]]].

Definition aliceEntry : LDAP.Entry :=
  LDAP.mkEntry "cn=alice,ou=people"
    [LDAP.mkAttr "cn" ["alice"];
     LDAP.mkAttr "sshPublicKey" ["AAAAalice"; "garbage"; "ssh-rsa alicelaptop"];
     LDAP.mkAttr "memberOf" ["cn=dev,ou=groups"; "cn=ghosts,ou=groups"; "cn=ops,ou=groups"]].

Definition carolEntry : LDAP.Entry :=
  LDAP.mkEntry "cn=carol,ou=people"
    [LDAP.mkAttr "cn" ["carol"];
     LDAP.mkAttr "sshPublicKey" ["AAAAcarol"];
     LDAP.mkAttr "memberOf" ["cn=dev,ou=groups"; "cn=ops,ou=groups"]].

Definition bob : User := mkUser "bob" ["AAAAbob"] [] "arn:default".

(** A cache over a server that answers with [replies]. *)
Definition ldapCache (users : gmap string User) (roles : bool)
    (replies : list (go_result LDAP.SearchResult))
    : LDAP.ldapUserCache (list (go_result LDAP.SearchResult)) :=
  LDAP.mkLUC users ∅ replies "cn" "dc=example,dc=com" roles "roleARN" "arn:default"
    "defaultRole".

(** An empty cache with role support over the directory above. *)
Definition freshLDAP : LDAP.ldapUserCache (list (go_result LDAP.SearchResult)) :=
  ldapCache ∅ true
    [Ok (LDAP.mkSearchResult groupEntries);
     Ok (LDAP.mkSearchResult [aliceEntry; carolEntry])].

(** A cache that holds [bob], over a directory that now lists only alice. *)
Definition staleLDAP : LDAP.ldapUserCache (list (go_result LDAP.SearchResult)) :=
  ldapCache {["bob" := bob]} false [Ok (LDAP.mkSearchResult [aliceEntry])].

(** A cache that holds [bob], over a server that cannot be reached. *)
Definition downLDAP : LDAP.ldapUserCache (list (go_result LDAP.SearchResult)) :=
  ldapCache {["bob" := bob]} false [Err "ldap: connection refused"].

(** *** A keys file

    Three records of alice: two keys that parse, with overlapping role lists
    and different default roles, and one key string that does not parse. *)
Definition record (username : string) (roles : list string) (defaultRole : string)
    : gmap string iface :=
  {[ "username" := IString username;
     "roles" := ISlice (IString <$> roles);
     "defaultRole" := IString defaultRole ]}.

Definition aliceKeys : KF.KeysMap :=
  {[ "AAAAalice" := record "alice" ["A"; "B"] "A";
     "ssh-rsa alicelaptop" := record "alice" ["B"; "C"] "C";
     "garbage" := record "alice" ["D"] "D" ]}.

(** The same file with one more record, which carries no username. *)
Definition namelessKeys : KF.KeysMap :=
  <["AAAAnobody" := {[ "roles" := ISlice [IString "A"] ]}]> aliceKeys.

(** A cache over a keys file with the records [keys]. *)
Definition keysCache (users : gmap string User) (file : option error * go_result KF.KeysMap)
    : KF.keysFileUserCache (option error * go_result KF.KeysMap) :=
  KF.mkKFUC users file "username" true "roles" "arn:default" "defaultRole".

Definition freshKF : KF.keysFileUserCache (option error * go_result KF.KeysMap) :=
  keysCache ∅ (None, Ok aliceKeys).

Definition downKF : KF.keysFileUserCache (option error * go_result KF.KeysMap) :=
  keysCache {["bob" := bob]} (Some "open keys.json: no such file", Ok ∅).

(** A challenge and alice's signature over it. *)
Definition challenge : bytes := list_byte_of_string "challenge-1".
Definition aliceSig : @Signature toySSH := ("AAAAalice", challenge).
Definition mallorySig : @Signature toySSH := ("AAAAmallory", challenge).

(** A cache with role support over a directory that answers two rounds of
    searches alike. *)
Definition steadyLDAP : LDAP.ldapUserCache (list (go_result LDAP.SearchResult)) :=
  ldapCache ∅ true
    [Ok (LDAP.mkSearchResult groupEntries);
     Ok (LDAP.mkSearchResult [aliceEntry; carolEntry]);
     Ok (LDAP.mkSearchResult groupEntries);
     Ok (LDAP.mkSearchResult [aliceEntry; carolEntry])].

(** An entry with a key and no [cn], and a cache without role support over
    a directory that returns it after alice. *)
Definition namelessEntry : LDAP.Entry :=
  LDAP.mkEntry "uid=ghost,ou=people"
    [LDAP.mkAttr "sshPublicKey" ["AAAAghost"];
     LDAP.mkAttr "memberOf" ["cn=dev,ou=groups"];
     LDAP.mkAttr "defaultRole" ["arn:ghost"]].

Definition namelessLDAP : LDAP.ldapUserCache (list (go_result LDAP.SearchResult)) :=
  ldapCache ∅ false [Ok (LDAP.mkSearchResult [aliceEntry; namelessEntry])].

(** Two records of alice with overlapping role lists; the key string of the
    second does not parse. *)
Definition halfParsedKeys : KF.KeysMap :=
  {[ "AAAAalice" := record "alice" ["A"; "B"] "A";
     "garbage" := record "alice" ["B"; "C"] "C" ]}.

(** A keys file whose record lists a role that is not a string. *)
Definition badRoleKeys : KF.KeysMap :=
  {[ "AAAAalice" := {[ "username" := IString "alice";
                       "roles" := ISlice [IString "A"; IOther "float64"] ]} ]}.

End Demo.

(** * Properties *)

(** Unfolding the monad in a goal or a hypothesis. *)
Ltac mrun := simpl; cbv delta [mbind M_bind mret M_ret]; simpl.
Ltac mrun_in Hrun :=
  simpl in Hrun; cbv delta [mbind M_bind mret M_ret] in Hrun; simpl in Hrun.

(** ** Traces *)

Lemma n_calls_app fn (tr1 tr2 : list event) :
  n_calls fn (tr1 ++ tr2) = n_calls fn tr1 + n_calls fn tr2.
Proof.
  induction tr1 as [|e tr1 IH]; simpl; [done|].
  destruct e; simpl; rewrite IH; lia.
Qed.

Lemma n_calls_logs fn (A : Type) (f : A → event) (l : list A) :
  (∀ x, n_calls fn [f x] = 0) → n_calls fn (f <$> l) = 0.
Proof.
  intros Hf. induction l as [|x l IH]; [done|].
  change (f <$> x :: l) with ([f x] ++ (f <$> l)).
  by rewrite n_calls_app, Hf, IH.
Qed.

Lemma n_calls_flat_map fn (A : Type) (f : A → list event) (l : list A) :
  (∀ x, n_calls fn (f x) = 0) → n_calls fn (flat_map f l) = 0.
Proof.
  intros Hf. induction l as [|x l IH]; [done|].
  simpl. by rewrite n_calls_app, Hf, IH.
Qed.

(** ** The scan *)

Section ScanFacts.
Context `{SSH} `{MapRange}.

Lemma scan_None challenge sshSig (l : list (string * User)) :
  scan challenge sshSig l = None ↔
  ∀ name user key, (name, user) ∈ l → key ∈ SSHKeys user →
    Verify key challenge sshSig ≠ None.
Proof.
  induction l as [|[n u] l IH]; simpl.
  - split; [|done]. intros _ ??? Hin. by apply elem_of_nil in Hin.
  - destruct (existsb _ _) eqn:Hex.
    + split; [done|]. intros Hall. exfalso.
      apply existsb_exists in Hex as (key & Hin & Hv).
      apply (Hall n u key); [left | by apply list_elem_of_In |].
      unfold verifies in Hv. by destruct (Verify key challenge sshSig).
    + rewrite IH. split.
      * intros Hall name user key Hin Hkey.
        apply elem_of_cons in Hin as [[= -> ->]|Hin]; [|by eapply Hall].
        intros Hv. apply Bool.not_true_iff_false in Hex. apply Hex.
        apply existsb_exists. exists key. split; [by apply list_elem_of_In|].
        unfold verifies. by rewrite Hv.
      * intros Hall name user key Hin. apply (Hall name). by right.
Qed.

Lemma scan_Some challenge sshSig (l : list (string * User)) user :
  scan challenge sshSig l = Some user →
  ∃ name key, (name, user) ∈ l ∧ key ∈ SSHKeys user ∧ Verify key challenge sshSig = None.
Proof.
  induction l as [|[n u] l IH]; simpl; [done|].
  destruct (existsb _ _) eqn:Hex.
  - intros [= <-]. apply existsb_exists in Hex as (key & Hin & Hv).
    exists n, key. split; [left|]. split; [by apply list_elem_of_In|].
    unfold verifies in Hv. by destruct (Verify key challenge sshSig).
  - intros (name & key & ? & ?)%IH. exists name, key. split; [by right|done].
Qed.

Lemma elem_of_range {V : Type} (m : gmap string V) name v :
  (name, v) ∈ range m ↔ m !! name = Some v.
Proof. by rewrite (range_perm V m), elem_of_map_to_list. Qed.

(** A scan of a snapshot misses exactly when no key of it verifies,
    whatever the visiting order. *)
Lemma scan_range_None challenge sshSig (users : gmap string User) :
  scan challenge sshSig (range users) = None ↔ no_key_verifies users challenge sshSig.
Proof.
  rewrite scan_None. unfold no_key_verifies.
  split; intros Hall name user key Hin Hkey.
  - apply (Hall name user key); [by apply elem_of_range|done].
  - apply (Hall name user key); [by apply elem_of_range|done].
Qed.

End ScanFacts.

(** ** The LDAP cache: what [Update] computes *)

Section LDAPFacts.
Context `{SSH} `{MapRange} {S : Type} `{LDAP.LDAPImplementation S}.
Import LDAP.

Lemma for_fold_add_key username vals acc (c : ldapUserCache S) :
  for_fold vals acc (add_key username) c
  = (Done (acc ++ omap parse_key vals), c, key_warnings username vals).
Proof.
  revert acc. induction vals as [|v vals IH]; intros acc; simpl.
  - by rewrite app_nil_r.
  - unfold mbind, M_bind, add_key. destruct (parse_key v) as [k|]; simpl.
    + rewrite IH. by rewrite <- app_assoc.
    + rewrite IH. done.
Qed.

Lemma for_fold_add_group memberOf acc (c : ldapUserCache S) :
  for_fold memberOf acc add_group c
  = (Done (acc ++ member_arns (groups c) memberOf), c,
     (λ groupDN, Log DebugLevel groupDN []) <$> memberOf).
Proof.
  revert acc. induction memberOf as [|dn l IH]; intros acc; simpl.
  - by rewrite app_nil_r.
  - unfold mbind, M_bind, add_group. simpl. rewrite IH.
    by rewrite <- app_assoc.
Qed.

Lemma record_user_run (luc c : ldapUserCache S) entry :
  record_user luc entry c
  = (Done (), set_users (<[entry_username luc entry := entry_user luc (groups c) entry]>) c,
     entry_events luc entry).
Proof.
  unfold record_user, mbind, M_bind.
  rewrite for_fold_add_key. simpl.
  unfold entry_user, entry_events, entry_arns, entry_defaultRole, entry_username.
  destruct (enableServerRoles luc); simpl.
  - unfold mbind, M_bind. rewrite for_fold_add_group. simpl.
    by rewrite app_nil_r.
  - done.
Qed.


Lemma for_each_record_user (luc c : ldapUserCache S) entries :
  for_each entries (record_user luc) c
  = (Done (), set_users (patch_users luc (groups c) entries) c,
     flat_map (entry_events luc) entries).
Proof.
  revert c. induction entries as [|e entries IH]; intros c; simpl.
  - by destruct c.
  - unfold mbind, M_bind. rewrite record_user_run, IH. by destruct c.
Qed.

Lemma for_each_record_group (luc c : ldapUserCache S) entries :
  for_each entries (record_group luc) c
  = (Done (), set_groups (patch_groups luc entries) c, group_events luc entries).
Proof.
  revert c. induction entries as [|e entries IH]; intros c; simpl.
  - by destruct c.
  - unfold mbind, M_bind, record_group. simpl. rewrite IH. by destruct c.
Qed.

(** [Update] when the group search fails. *)
Lemma Update_group_search_fails (luc : ldapUserCache S) err s1 :
  enableServerRoles luc = true →
  Search (server luc) (groupSearchRequest luc) = (Err err, s1) →
  Update luc = (Done (Some err), set_server s1 luc, [Call "Update"]).
Proof.
  intros Hen Hs. unfold Update, mbind, M_bind, call_Search. simpl.
  rewrite Hen. simpl. by rewrite Hs.
Qed.

(** [Update] with role support when the user search fails. *)
Lemma Update_user_search_fails (luc : ldapUserCache S) res err s1 s2 :
  enableServerRoles luc = true →
  Search (server luc) (groupSearchRequest luc) = (Ok res, s1) →
  Search s1 (searchRequest luc) = (Err err, s2) →
  Update luc
  = (Done (Some err),
     set_server s2 (set_groups (patch_groups luc (Entries res)) luc),
     Call "Update" :: group_events luc (Entries res)).
Proof.
  intros Hen Hg Hu. unfold Update, mbind, M_bind, call_Search. simpl.
  rewrite Hen. simpl. rewrite Hg. simpl.
  rewrite for_each_record_group. simpl. rewrite Hu. simpl.
  by rewrite ?app_nil_r.
Qed.

(** [Update] with role support when both searches succeed. *)
Lemma Update_with_roles (luc : ldapUserCache S) gres res s1 s2 :
  enableServerRoles luc = true →
  Search (server luc) (groupSearchRequest luc) = (Ok gres, s1) →
  Search s1 (searchRequest luc) = (Ok res, s2) →
  Update luc
  = (Done None, updated luc s2 (Entries gres) (Entries res),
     Call "Update" :: group_events luc (Entries gres)
       ++ flat_map (entry_events luc) (Entries res)
       ++ [Log DebugLevel "LDAP information re-cached." []; Timing "ldapCacheUpdate"]).
Proof.
  intros Hen Hg Hu. unfold Update, mbind, M_bind, call_Search. simpl.
  rewrite Hen. simpl. rewrite Hg. simpl.
  rewrite for_each_record_group. simpl. rewrite Hu. simpl.
  rewrite for_each_record_user. simpl.
  by rewrite ?app_nil_r.
Qed.

(** [Update] without role support. *)
Lemma Update_without_roles_fails (luc : ldapUserCache S) err s1 :
  enableServerRoles luc = false →
  Search (server luc) (searchRequest luc) = (Err err, s1) →
  Update luc = (Done (Some err), set_server s1 luc, [Call "Update"]).
Proof.
  intros Hen Hu. unfold Update, mbind, M_bind, call_Search. simpl.
  rewrite Hen. simpl. by rewrite Hu.
Qed.

Lemma Update_without_roles (luc : ldapUserCache S) res s1 :
  enableServerRoles luc = false →
  Search (server luc) (searchRequest luc) = (Ok res, s1) →
  Update luc
  = (Done None, updated luc s1 [] (Entries res),
     Call "Update" :: flat_map (entry_events luc) (Entries res)
       ++ [Log DebugLevel "LDAP information re-cached." []; Timing "ldapCacheUpdate"]).
Proof.
  intros Hen Hu. unfold Update, mbind, M_bind, call_Search. simpl.
  rewrite Hen. simpl. rewrite Hu. simpl.
  rewrite for_each_record_user. simpl.
  by rewrite ?app_nil_r.
Qed.

End LDAPFacts.

(** ** Loops *)

Lemma for_fold_app {C B L} (l1 l2 : list B) (acc : L) (body : L → B → M C L) c :
  for_fold (l1 ++ l2) acc body c
  = match for_fold l1 acc body c with
    | (Done acc1, c1, e1) =>
        match for_fold l2 acc1 body c1 with
        | (r, c2, e2) => (r, c2, e1 ++ e2)
        end
    | (Panicked why, c1, e1) => (Panicked why, c1, e1)
    end.
Proof.
  revert acc c. induction l1 as [|x l1 IH]; intros acc c; simpl.
  - by destruct (for_fold l2 acc body c) as [[r c2] e2].
  - unfold mbind, M_bind. destruct (body acc x c) as [[[acc1|why] c1] e1]; [|done].
    rewrite IH. destruct (for_fold l1 acc1 body c1) as [[[acc2|why] c2] e2]; [|done].
    destruct (for_fold l2 acc2 body c2) as [[r c3] e3]. by rewrite app_assoc.
Qed.

Lemma inert_ret {C A} (a : A) : inert (mret a : M C A).
Proof. by intros c. Qed.

Lemma inert_panic {C A} why : inert (panic why : M C A).
Proof. by intros c. Qed.

Lemma inert_log {C} lvl fmt args : inert (emit (Log lvl fmt args) : M C unit).
Proof. by intros c. Qed.

Lemma inert_bind {C A B} (m : M C A) (k : A → M C B) :
  inert m → (∀ a, inert (k a)) → inert (m ≫= k).
Proof.
  intros Hm Hk c. unfold mbind, M_bind. specialize (Hm c).
  destruct (m c) as [[[a|why] c1] e1]; simpl in *; [|done].
  destruct Hm as [-> Hm]. specialize (Hk a c).
  destruct (k a c) as [[r c2] e2]; simpl in *. destruct Hk as [-> Hk].
  split; [done|]. intros fn. by rewrite n_calls_app, Hm, Hk.
Qed.

Lemma inert_for_fold {C B L} (l : list B) (acc : L) (body : L → B → M C L) :
  (∀ acc x, inert (body acc x)) → inert (for_fold l acc body).
Proof.
  intros Hb. revert acc. induction l as [|x l IH]; intros acc; simpl.
  - apply inert_ret.
  - apply inert_bind; [apply Hb|]. intros acc'. apply IH.
Qed.

(** ** The keys-file cache: what [Update] computes *)

Section KFFacts.
Context `{SSH} `{MapRange} {K : Type} `{KF.KeysFile K}.
Import KF.

Lemma inert_assert_string (v : iface) : inert (assert_string v : M (keysFileUserCache K) string).
Proof. destruct v; by intros c. Qed.

Lemma inert_assert_slice (v : iface) :
  inert (assert_slice v : M (keysFileUserCache K) (list iface)).
Proof. destruct v; by intros c. Qed.

Lemma inert_add_role username acc r : inert (add_role (K:=K) username acc r).
Proof.
  destruct acc as [user seenRoles]. unfold add_role.
  apply inert_bind; [apply inert_assert_string|]. intros role.
  destruct (seen _ _ _); apply inert_ret.
Qed.

Lemma inert_record_key (kfuc : keysFileUserCache K) acc kv : inert (record_key kfuc acc kv).
Proof.
  destruct acc as [users seenRoles], kv as [key userData]. unfold record_key.
  apply inert_bind; [apply inert_assert_string|]. intros username.
  destruct (parse_key key) as [sshKey|].
  - apply inert_bind.
    + destruct (enableServerRoles kfuc); [|apply inert_ret].
      apply inert_bind; [apply inert_assert_slice|]. intros roles.
      apply inert_for_fold. intros. apply inert_add_role.
    + intros [user' seen']. apply inert_ret.
  - apply inert_bind; [apply inert_log|]. intros _. apply inert_ret.
Qed.

Lemma seen_insert seenRoles u r u2 r2 :
  seen (<[(u, r) := true]> seenRoles) u2 r2
  = if decide ((u, r) = (u2, r2)) then true else seen seenRoles u2 r2.
Proof. unfold seen. rewrite lookup_insert. by case_decide. Qed.

(** The role loop of one record. *)
Lemma add_roles_run username roles user seenRoles (c : keysFileUserCache K) user' seen' c' evs :
  for_fold roles (user, seenRoles) (add_role username) c = (Done (user', seen'), c', evs) →
  (∀ r, seen seenRoles username r = true ↔ r ∈ ARNs user) →
  user' = mkUser (Username user) (SSHKeys user)
            (merge_roles (ARNs user) (omap as_string roles)) (DefaultRole user)
  ∧ (∀ r, seen seen' username r = true ↔ r ∈ ARNs user')
  ∧ (∀ u2 r, u2 ≠ username → seen seen' u2 r = seen seenRoles u2 r).
Proof.
  revert user seenRoles c evs.
  induction roles as [|v roles IH]; intros user seenRoles c evs Hrun Hinv.
  - mrun_in Hrun. simplify_eq.
    split; [by destruct user'|]. split; [done|]. done.
  - mrun_in Hrun.
    destruct v as [|role|l|tag]; mrun_in Hrun; try discriminate.
    destruct (seen seenRoles username role) eqn:Hseen; mrun_in Hrun.
    + destruct (for_fold roles (user, seenRoles) (add_role username) c)
        as [[[[u1 s1]|why] c1] e1] eqn:Hrest; [|discriminate].
      simplify_eq.
      destruct (IH _ _ _ _ Hrest Hinv) as (Hu & Hs & Hf).
      split; [|done]. rewrite Hu. simpl. unfold merge_roles at 2. simpl.
      unfold add_new at 2. apply Hinv in Hseen. by rewrite decide_True.
    + destruct (for_fold roles (add_ARN role user, <[(username, role):=true]> seenRoles)
                  (add_role username) c) as [[[[u1 s1]|why] c1] e1] eqn:Hrest; [|discriminate].
      simplify_eq.
      assert (role ∉ ARNs user) as Hnotin.
      { intros Hin. apply Hinv in Hin. congruence. }
      destruct (IH _ _ _ _ Hrest) as (Hu & Hs & Hf).
      { intros r. rewrite seen_insert. simpl. case_decide as Heq.
        - simplify_eq. split; [|done]. intros _. apply elem_of_app. right. by left.
        - rewrite Hinv. rewrite elem_of_app, list_elem_of_singleton.
          split; [by left|]. intros [?| ->]; [done|]. by destruct Heq. }
      split; [|split; [done|]].
      * rewrite Hu. simpl. unfold merge_roles at 2. simpl.
        unfold add_new at 2. by rewrite decide_False.
      * intros u2 r Hne. rewrite Hf by done. rewrite seen_insert.
        case_decide as Heq; [|done]. by simplify_eq.
Qed.


Lemma merge_roles_app arns l1 l2 :
  merge_roles arns (l1 ++ l2) = merge_roles (merge_roles arns l1) l2.
Proof. apply foldl_app. Qed.

Lemma user_from_snoc_other (kfuc : keysFileUserCache K) u pre kv :
  ¬ usable kfuc u kv → user_from kfuc u (pre ++ [kv]) = user_from kfuc u pre.
Proof.
  intros Hno. unfold user_from. rewrite filter_app.
  rewrite (filter_cons_False _ _ _ Hno). by rewrite filter_nil, app_nil_r.
Qed.

Lemma user_from_snoc (kfuc : keysFileUserCache K) u pre key userData sshKey :
  rec_username kfuc userData = Some u → parse_key key = Some sshKey →
  user_from kfuc u (pre ++ [(key, userData)])
  = Some (let user0 := default (mkUser u [] [] (record_defaultRole kfuc userData))
                         (user_from kfuc u pre) in
          mkUser u (SSHKeys user0 ++ [sshKey])
            (merge_roles (ARNs user0) (rec_roles kfuc userData)) (DefaultRole user0)).
Proof.
  intros Hu Hk. unfold user_from. rewrite filter_app.
  assert (usable kfuc u (key, userData)) as Hyes.
  { split; simpl; [done|]. by rewrite Hk. }
  rewrite (filter_cons_True _ _ _ Hyes), filter_nil.
  destruct (filter (usable kfuc u) pre) as [|[k0 d0] good].
  - simpl. rewrite Hk. simpl. by rewrite app_nil_r.
  - cbn -[omap merge_roles flat_map]. f_equal.
    rewrite !app_comm_cons, omap_app, flat_map_app, merge_roles_app.
    assert (omap (λ kv : string * gmap string iface, parse_key kv.1) [(key, userData)]
            = [sshKey]) as -> by (simpl; by rewrite Hk).
    assert (flat_map (λ kv : string * gmap string iface, rec_roles kfuc kv.2)
              [(key, userData)] = rec_roles kfuc userData) as ->
      by (simpl; by rewrite app_nil_r).
    done.
Qed.


Lemma merge_roles_nil arns : merge_roles arns [] = arns.
Proof. done. Qed.

(** One record that is processed without a panic: what it does to the local
    variables of the loop, for a user [user0] found or created. *)
Lemma record_key_run (kfuc : keysFileUserCache K) users seenRoles key userData c acc' c' evs :
  record_key kfuc (users, seenRoles) (key, userData) c = (Done acc', c', evs) →
  ∃ u0, rec_username kfuc userData = Some u0 ∧
    match parse_key key with
    | None => acc' = (users, seenRoles)
    | Some sshKey =>
        let user0 := default (mkUser u0 [] [] (record_defaultRole kfuc userData))
                       (users !! u0) in
        (∀ r, seen seenRoles u0 r = true ↔ r ∈ ARNs user0) →
        ∃ s1,
          acc' = (<[u0 := mkUser (Username user0) (SSHKeys user0 ++ [sshKey])
                            (merge_roles (ARNs user0) (rec_roles kfuc userData))
                            (DefaultRole user0)]> users, s1)
          ∧ (∀ r, seen s1 u0 r = true
                  ↔ r ∈ merge_roles (ARNs user0) (rec_roles kfuc userData))
          ∧ (∀ u2 r, u2 ≠ u0 → seen s1 u2 r = seen seenRoles u2 r)
    end.
Proof.
  intros Hrun. unfold record_key in Hrun. mrun_in Hrun.
  destruct (index userData (userAttr kfuc)) as [|u0| |] eqn:Hidx;
    mrun_in Hrun; try discriminate.
  exists u0. split; [unfold rec_username; by rewrite Hidx|].
  destruct (parse_key key) as [sshKey|] eqn:Hparse; mrun_in Hrun; [|by simplify_eq].
  intros user0 Hseen.
  assert (match users !! u0 with
          | Some user => user
          | None => mkUser u0 [] [] (record_defaultRole kfuc userData)
          end = user0) as Huser by (subst user0; by destruct (users !! u0)).
  rewrite Huser in Hrun. clear Huser.
  unfold rec_roles. destruct (enableServerRoles kfuc); mrun_in Hrun.
  - destruct (index userData (roleAttr kfuc)) as [| |roles|] eqn:Hroles;
      mrun_in Hrun; try discriminate.
    destruct (for_fold roles (add_SSHKey sshKey user0, seenRoles) (add_role u0) c)
      as [[[[u1 s1]|why] c1] e1] eqn:Hloop; [|discriminate].
    simplify_eq.
    apply add_roles_run in Hloop as (-> & Hs & Hf); [|done].
    exists s1. split; [done|]. split; [|done]. apply Hs.
  - simplify_eq. exists seenRoles. rewrite merge_roles_nil.
    split; [done|]. split; [done|]. done.
Qed.


Lemma user_from_Username (kfuc : keysFileUserCache K) u recs user :
  user_from kfuc u recs = Some user → Username user = u.
Proof.
  unfold user_from. destruct (filter _ recs) as [|[k0 d0] good]; [done|].
  by intros [= <-].
Qed.

(** The invariant is kept by every record that is processed without a
    panic. *)
Lemma record_key_step (kfuc : keysFileUserCache K) pre acc kv c acc' c' evs :
  records_inv kfuc pre acc →
  record_key kfuc acc kv c = (Done acc', c', evs) →
  records_inv kfuc (pre ++ [kv]) acc'.
Proof.
  destruct acc as [users seenRoles], kv as [key userData]. intros Hinv Hrun.
  apply record_key_run in Hrun as (u0 & Hname & Hcase).
  destruct (parse_key key) as [sshKey|] eqn:Hparse.
  - destruct (Hinv u0) as [Hlook Hseen]. simpl in Hlook, Hseen.
    destruct Hcase as (s1 & -> & Hs1 & Hf1).
    { rewrite Hlook. intros r. rewrite Hseen. by destruct (user_from kfuc u0 pre). }
    intros u. simpl. destruct (decide (u = u0)) as [->|Hne].
    + rewrite lookup_insert_eq, (user_from_snoc _ _ _ _ _ _ Hname Hparse).
      simpl. rewrite <- Hlook. split; [|apply Hs1].
      do 2 f_equal. destruct (users !! u0) as [usr|] eqn:Husr; [|done].
      simpl. symmetry in Hlook. by apply user_from_Username in Hlook.
    + rewrite lookup_insert_ne by done. rewrite user_from_snoc_other.
      * split; [apply Hinv|]. intros r. rewrite Hf1 by done. apply Hinv.
      * intros [Hn _]. simpl in Hn. congruence.
  - subst acc'. intros u. rewrite user_from_snoc_other; [apply Hinv|].
    intros [_ Hs]. simpl in Hs. rewrite Hparse in Hs. by destruct Hs.
Qed.

(** The record loop, when it ends without a panic, has built exactly the
    users described by [user_from]. *)
Lemma record_keys_inv (kfuc : keysFileUserCache K) recs c acc' c' evs :
  for_fold recs (∅, ∅) (record_key kfuc) c = (Done acc', c', evs) →
  records_inv kfuc recs acc'.
Proof.
  revert acc' c' evs. induction recs as [|kv pre IH] using rev_ind;
    intros acc' c' evs Hrun.
  - mrun_in Hrun. simplify_eq. intros u. simpl. split; [apply lookup_empty|].
    intros r. unfold seen. rewrite lookup_empty. simpl.
    split; [done|]. by intros ?%elem_of_nil.
  - rewrite for_fold_app in Hrun.
    destruct (for_fold pre (∅, ∅) (record_key kfuc) c) as [[[acc1|why] c1] e1] eqn:Hpre;
      [|discriminate].
    mrun_in Hrun.
    destruct (record_key kfuc acc1 kv c1) as [[[acc2|why] c2] e2] eqn:Hstep;
      [|discriminate].
    simplify_eq. eapply record_key_step; [|done]. by eapply IH.
Qed.

Lemma Update_load_fails (kfuc : keysFileUserCache K) err k1 :
  Load (keysFile kfuc) = (Some err, k1) →
  Update kfuc = (Done (Some err), set_keysFile k1 kfuc, [Call "Update"]).
Proof.
  intros Hl. unfold Update, call_Load. mrun. by rewrite Hl.
Qed.

Lemma Update_keys_fails (kfuc : keysFileUserCache K) err k1 k2 :
  Load (keysFile kfuc) = (None, k1) → Keys k1 = (Err err, k2) →
  Update kfuc = (Done (Some err), set_keysFile k2 kfuc, [Call "Update"]).
Proof.
  intros Hl Hk. unfold Update, call_Load, call_Keys. mrun. rewrite Hl. simpl.
  by rewrite Hk.
Qed.

(** [Update] once the file is loaded and its records are at hand. *)
Lemma Update_loaded (kfuc : keysFileUserCache K) keys k1 k2 :
  Load (keysFile kfuc) = (None, k1) → Keys k1 = (Ok keys, k2) →
  Update kfuc
  = match for_fold (range keys) (∅, ∅) (record_key kfuc) (set_keysFile k2 kfuc) with
    | (Done acc, _, evs) =>
        (Done None, set_users acc.1 (set_keysFile k2 kfuc),
         Call "Update" :: evs
           ++ [Log DebugLevel "Keys file information re-cached." [];
               Timing "keysFileCacheUpdate"])
    | (Panicked why, _, evs) => (Panicked why, set_keysFile k2 kfuc, Call "Update" :: evs)
    end.
Proof.
  intros Hl Hk. unfold Update, call_Load, call_Keys. mrun. rewrite Hl. simpl.
  rewrite Hk. simpl.
  change (set_keysFile k2 (set_keysFile k1 kfuc)) with (set_keysFile k2 kfuc).
  pose proof (inert_for_fold (range keys) (∅, ∅) (record_key kfuc)
                (inert_record_key kfuc) (set_keysFile k2 kfuc)) as [Hc _].
  destruct (for_fold (range keys) (∅, ∅) (record_key kfuc) (set_keysFile k2 kfuc))
    as [[[[users' seen']|why] c1] e1]; simpl in Hc; subst c1; simpl.
  - by rewrite ?app_nil_r.
  - by rewrite ?app_nil_r.
Qed.

End KFFacts.

(** ** The authentication protocol of the LDAP cache *)

Section LDAPProtocol.
Context `{SSH} `{MapRange} {S : Type} `{LDAP.LDAPImplementation S}.
Import LDAP.

Lemma key_warnings_calls fn username vals : n_calls fn (key_warnings username vals) = 0.
Proof.
  unfold key_warnings. apply n_calls_flat_map. intros k. by destruct (parse_key k).
Qed.

Lemma entry_events_calls fn (luc : ldapUserCache S) entry :
  n_calls fn (entry_events luc entry) = 0.
Proof.
  unfold entry_events. rewrite !n_calls_app, key_warnings_calls. simpl.
  destruct (enableServerRoles luc); [|done].
  by rewrite n_calls_logs.
Qed.

(** Whatever the server answers, [Update] records exactly its own call. *)
Lemma ldap_Update_calls fn (luc : ldapUserCache S) :
  n_calls fn (Update luc).2 = n_calls fn [Call "Update"].
Proof.
  destruct (enableServerRoles luc) eqn:Hen.
  - destruct (Search (server luc) (groupSearchRequest luc)) as [[gres|err] s1] eqn:Hg.
    + destruct (Search s1 (searchRequest luc)) as [[res|err] s2] eqn:Hu.
      * rewrite (Update_with_roles _ _ _ _ _ Hen Hg Hu).
        cbn [snd]. change (Call "Update" :: ?l) with ([Call "Update"] ++ l).
        rewrite !n_calls_app. unfold group_events.
        rewrite n_calls_logs by done.
        rewrite n_calls_flat_map by (intros; apply entry_events_calls).
        simpl. lia.
      * rewrite (Update_user_search_fails _ _ _ _ _ Hen Hg Hu).
        cbn [snd]. change (Call "Update" :: ?l) with ([Call "Update"] ++ l).
        rewrite !n_calls_app. unfold group_events.
        rewrite n_calls_logs by done. simpl. lia.
    + by rewrite (Update_group_search_fails _ _ _ Hen Hg).
  - destruct (Search (server luc) (searchRequest luc)) as [[res|err] s1] eqn:Hu.
    + rewrite (Update_without_roles _ _ _ Hen Hu).
      cbn [snd]. change (Call "Update" :: ?l) with ([Call "Update"] ++ l).
      rewrite !n_calls_app.
      rewrite n_calls_flat_map by (intros; apply entry_events_calls).
      simpl. lia.
    + by rewrite (Update_without_roles_fails _ _ _ Hen Hu).
Qed.

(** [Update] of the LDAP cache never panics. *)
Lemma ldap_Update_returns (luc : ldapUserCache S) :
  ∃ err luc' evs, Update luc = (Done err, luc', evs).
Proof.
  destruct (enableServerRoles luc) eqn:Hen.
  - destruct (Search (server luc) (groupSearchRequest luc)) as [[gres|err] s1] eqn:Hg.
    + destruct (Search s1 (searchRequest luc)) as [[res|err] s2] eqn:Hu.
      * rewrite (Update_with_roles _ _ _ _ _ Hen Hg Hu). eauto.
      * rewrite (Update_user_search_fails _ _ _ _ _ Hen Hg Hu). eauto.
    + rewrite (Update_group_search_fails _ _ _ Hen Hg). eauto.
  - destruct (Search (server luc) (searchRequest luc)) as [[res|err] s1] eqn:Hu.
    + rewrite (Update_without_roles _ _ _ Hen Hu). eauto.
    + rewrite (Update_without_roles_fails _ _ _ Hen Hu). eauto.
Qed.

Lemma ldap_Authenticate_hit username challenge sshSig (luc : ldapUserCache S) user :
  scan challenge sshSig (range (users luc)) = Some user →
  Authenticate username challenge sshSig luc = (Done (Some user, None), luc, [Call "_verify"]).
Proof. intros Hscan. unfold Authenticate, _verify. mrun. by rewrite Hscan. Qed.

Lemma ldap_Authenticate_miss username challenge sshSig (luc : ldapUserCache S) :
  scan challenge sshSig (range (users luc)) = None →
  Authenticate username challenge sshSig luc
  = match Update luc with
    | (Done (Some err), luc', evs) =>
        (Done (None, Some err), luc', ldap_miss_events username ++ evs)
    | (Done None, luc', evs) =>
        (Done (scan challenge sshSig (range (users luc')), None), luc',
         ldap_miss_events username ++ evs ++ [Call "_verify"])
    | (Panicked why, luc', evs) => (Panicked why, luc', ldap_miss_events username ++ evs)
    end.
Proof.
  intros Hscan. unfold Authenticate, _verify. mrun. rewrite Hscan. simpl.
  destruct (Update luc) as [[[[err|]|why] luc'] evs]; simpl; by rewrite ?app_nil_r.
Qed.

End LDAPProtocol.

(** ** The authentication protocol of the keys-file cache *)

Section KFProtocol.
Context `{SSH} `{MapRange} {K : Type} `{KF.KeysFile K}.
Import KF.

(** Whatever the file holds, [Update] records exactly its own call. *)
Lemma kf_Update_calls fn (kfuc : keysFileUserCache K) :
  n_calls fn (Update kfuc).2 = n_calls fn [Call "Update"].
Proof.
  destruct (Load (keysFile kfuc)) as [[err|] k1] eqn:Hl.
  - by rewrite (Update_load_fails _ _ _ Hl).
  - destruct (Keys k1) as [[keys|err] k2] eqn:Hk.
    + rewrite (Update_loaded _ _ _ _ Hl Hk).
      pose proof (inert_for_fold (range keys) (∅, ∅) (record_key kfuc)
                    (inert_record_key kfuc) (set_keysFile k2 kfuc)) as [_ Hq].
      specialize (Hq fn).
      destruct (for_fold (range keys) (∅, ∅) (record_key kfuc) (set_keysFile k2 kfuc))
        as [[[acc|why] c1] e1]; simpl in Hq; cbn [snd].
      * change (Call "Update" :: ?l) with ([Call "Update"] ++ l).
        rewrite !n_calls_app, Hq. simpl. lia.
      * change (Call "Update" :: ?l) with ([Call "Update"] ++ l).
        rewrite !n_calls_app, Hq. simpl. lia.
    + by rewrite (Update_keys_fails _ _ _ _ Hl Hk).
Qed.

(** [Update] assigns [kfuc.users] only when it returns [nil]. *)
Lemma kf_Update_users (kfuc kfuc' : keysFileUserCache K) r evs :
  Update kfuc = (r, kfuc', evs) → r ≠ Done None → users kfuc' = users kfuc.
Proof.
  destruct (Load (keysFile kfuc)) as [[err|] k1] eqn:Hl.
  - rewrite (Update_load_fails _ _ _ Hl). by intros [= <- <- <-].
  - destruct (Keys k1) as [[keys|err] k2] eqn:Hk.
    + rewrite (Update_loaded _ _ _ _ Hl Hk).
      destruct (for_fold (range keys) (∅, ∅) (record_key kfuc) (set_keysFile k2 kfuc))
        as [[[acc|why] c1] e1]; intros [= <- <- <-]; done.
    + rewrite (Update_keys_fails _ _ _ _ Hl Hk). by intros [= <- <- <-].
Qed.

Lemma kf_Authenticate_hit username challenge sshSig (kfuc : keysFileUserCache K) user :
  scan challenge sshSig (range (users kfuc)) = Some user →
  Authenticate username challenge sshSig kfuc = (Done (Some user, None), kfuc, [Call "verify"]).
Proof. intros Hscan. unfold Authenticate, verify. mrun. by rewrite Hscan. Qed.

Lemma kf_Authenticate_miss username challenge sshSig (kfuc : keysFileUserCache K) :
  scan challenge sshSig (range (users kfuc)) = None →
  Authenticate username challenge sshSig kfuc
  = match Update kfuc with
    | (Done (Some err), kfuc', evs) =>
        (Done (None, Some err), kfuc', kf_miss_events username ++ evs)
    | (Done None, kfuc', evs) =>
        (Done (scan challenge sshSig (range (users kfuc')), None), kfuc',
         kf_miss_events username ++ evs ++ [Call "verify"])
    | (Panicked why, kfuc', evs) => (Panicked why, kfuc', kf_miss_events username ++ evs)
    end.
Proof.
  intros Hscan. unfold Authenticate, verify. mrun. rewrite Hscan. simpl.
  destruct (Update kfuc) as [[[[err|]|why] kfuc'] evs]; simpl; by rewrite ?app_nil_r.
Qed.

End KFProtocol.

(** ** Snapshots after a successful [Update] *)

Section LDAPSnapshots.
Context `{SSH} `{MapRange} {S : Type} `{LDAP.LDAPImplementation S}.
Import LDAP.

Lemma patch_users_other (luc : ldapUserCache S) g entries m u :
  (∀ e, e ∈ entries → entry_username luc e ≠ u) →
  patch_users luc g entries m !! u = m !! u.
Proof.
  revert m. induction entries as [|e entries IH]; intros m Hne; [done|].
  simpl. rewrite IH.
  - apply lookup_insert_ne. apply Hne. by left.
  - intros e' Hin. apply Hne. by right.
Qed.

(** The last entry of a username in the search result decides the user. *)
Lemma patch_users_last (luc : ldapUserCache S) g pre entry post m :
  (∀ e, e ∈ post → entry_username luc e ≠ entry_username luc entry) →
  patch_users luc g (pre ++ entry :: post) m !! entry_username luc entry
  = Some (entry_user luc g entry).
Proof.
  intros Hne.
  replace (patch_users luc g (pre ++ entry :: post) m)
    with (patch_users luc g post
            (<[entry_username luc entry := entry_user luc g entry]>
               (patch_users luc g pre m)))
    by (unfold patch_users; by rewrite foldl_app).
  rewrite (patch_users_other luc g post _ _ Hne). apply lookup_insert_eq.
Qed.

(** The user loop never removes a user. *)
Lemma patch_users_keeps (luc : ldapUserCache S) g entries m u :
  is_Some (m !! u) → is_Some (patch_users luc g entries m !! u).
Proof.
  revert m. induction entries as [|e entries IH]; intros m Hin; [done|].
  simpl. apply IH. rewrite lookup_insert. by case_decide.
Qed.

Lemma elem_of_member_arns (g : gmap string (list string)) memberOf arn :
  arn ∈ member_arns g memberOf ↔
  ∃ groupDN arns, groupDN ∈ memberOf ∧ g !! groupDN = Some arns ∧ arn ∈ arns.
Proof.
  unfold member_arns. rewrite list_elem_of_In, in_flat_map. split.
  - intros (dn & Hdn & Harn). apply list_elem_of_In in Hdn, Harn.
    destruct (g !! dn) as [arns|] eqn:Hg; simpl in Harn.
    + by exists dn, arns.
    + by apply elem_of_nil in Harn.
  - intros (dn & arns & Hdn & Hg & Harn). exists dn.
    split; [by apply list_elem_of_In|]. rewrite Hg. by apply list_elem_of_In.
Qed.

(** A successful [Update] keeps every username the cache held. *)
Lemma ldap_Update_keeps_users (luc luc' : ldapUserCache S) evs u :
  Update luc = (Done None, luc', evs) →
  is_Some (Users luc !! u) → is_Some (Users luc' !! u).
Proof.
  unfold Users. destruct (enableServerRoles luc) eqn:Hen.
  - destruct (Search (server luc) (groupSearchRequest luc)) as [[gres|err1] s1] eqn:Hg.
    + destruct (Search s1 (searchRequest luc)) as [[res|err2] s2] eqn:Hu.
      * rewrite (Update_with_roles _ _ _ _ _ Hen Hg Hu). intros [= <- _]. simpl.
        apply patch_users_keeps.
      * by rewrite (Update_user_search_fails _ _ _ _ _ Hen Hg Hu).
    + by rewrite (Update_group_search_fails _ _ _ Hen Hg).
  - destruct (Search (server luc) (searchRequest luc)) as [[res|err2] s1] eqn:Hu.
    + rewrite (Update_without_roles _ _ _ Hen Hu). intros [= <- _]. simpl.
      apply patch_users_keeps.
    + by rewrite (Update_without_roles_fails _ _ _ Hen Hu).
Qed.

End LDAPSnapshots.

Section KFSnapshots.
Context `{SSH} `{MapRange} {K : Type} `{KF.KeysFile K}.
Import KF.

(** A successful [Update] publishes exactly the users built from the
    records, whatever the cache held before. *)
Lemma kf_Update_snapshot (kfuc kfuc' : keysFileUserCache K) keys k1 k2 evs :
  Load (keysFile kfuc) = (None, k1) → Keys k1 = (Ok keys, k2) →
  Update kfuc = (Done None, kfuc', evs) →
  ∀ u, Users kfuc' !! u = user_from kfuc u (range keys).
Proof.
  intros Hl Hk. rewrite (Update_loaded _ _ _ _ Hl Hk).
  destruct (for_fold (range keys) (∅, ∅) (record_key kfuc) (set_keysFile k2 kfuc))
    as [[[acc|why] c1] e1] eqn:Hloop; [|done].
  intros [= <- _] u. apply record_keys_inv in Hloop. apply Hloop.
Qed.

(** A record without a string username makes the loop body panic. *)
Lemma record_key_nameless (kfuc : keysFileUserCache K) acc key userData c :
  rec_username kfuc userData = None →
  ∃ why, record_key kfuc acc (key, userData) c = (Panicked why, c, []).
Proof.
  intros Hname. destruct acc as [users seenRoles]. unfold record_key. mrun.
  unfold rec_username in Hname.
  destruct (index userData (userAttr kfuc)); try done; simpl; eauto.
Qed.

(** Every record of a loop that ends without a panic carries a username. *)
Lemma record_keys_named (kfuc : keysFileUserCache K) recs acc c acc' c' evs :
  for_fold recs acc (record_key kfuc) c = (Done acc', c', evs) →
  ∀ key userData, (key, userData) ∈ recs → is_Some (rec_username kfuc userData).
Proof.
  revert acc c evs. induction recs as [|[k d] recs IH]; intros acc c evs Hrun key userData Hin.
  - by apply elem_of_nil in Hin.
  - mrun_in Hrun.
    destruct (record_key kfuc acc (k, d) c) as [[[acc1|why] c1] e1] eqn:Hstep; [|done].
    destruct (for_fold recs acc1 (record_key kfuc) c1) as [[[acc2|why] c2] e2] eqn:Hrest;
      [|done].
    injection Hrun as -> -> _.
    apply elem_of_cons in Hin as [[= -> ->]|Hin]; [|by eapply IH].
    destruct acc as [users seenRoles].
    apply record_key_run in Hstep as (u0 & -> & _). eauto.
Qed.

(** Whatever the visiting order, a record without a string username makes
    [Update] panic, and the snapshot stays as it was. *)
Lemma kf_Update_nameless (kfuc : keysFileUserCache K) keys k1 k2 key userData :
  Load (keysFile kfuc) = (None, k1) → Keys k1 = (Ok keys, k2) →
  keys !! key = Some userData → rec_username kfuc userData = None →
  ∃ why evs, Update kfuc = (Panicked why, set_keysFile k2 kfuc, evs).
Proof.
  intros Hl Hk Hkey Hname. rewrite (Update_loaded _ _ _ _ Hl Hk).
  destruct (for_fold (range keys) (∅, ∅) (record_key kfuc) (set_keysFile k2 kfuc))
    as [[[acc|why] c1] e1] eqn:Hloop; [|eauto].
  destruct (record_keys_named _ _ _ _ _ _ _ Hloop key userData) as [u Hu];
    [by apply elem_of_range|congruence].
Qed.

End KFSnapshots.

(** ** Keys and roles *)

Section LDAPKeys.
Context `{SSH} `{MapRange} {S : Type} `{LDAP.LDAPImplementation S}.
Import LDAP.

(** [Update] once the user search has succeeded, with or without role
    support. *)
Lemma Update_searched (luc : ldapUserCache S) s res s2 :
  before_user_search luc = Some s →
  Search s (searchRequest luc) = (Ok res, s2) →
  ∃ groupEntries,
    Update luc
    = (Done None, updated luc s2 groupEntries (Entries res),
       Call "Update" :: group_events luc groupEntries
         ++ flat_map (entry_events luc) (Entries res)
         ++ [Log DebugLevel "LDAP information re-cached." []; Timing "ldapCacheUpdate"]).
Proof.
  unfold before_user_search. intros Hs Hu.
  destruct (enableServerRoles luc) eqn:Hen.
  - destruct (Search (server luc) (groupSearchRequest luc)) as [[gres|err] s1] eqn:Hg;
      [|done].
    injection Hs as ->. exists (Entries gres). by eapply Update_with_roles.
  - injection Hs as <-. exists []. by apply Update_without_roles.
Qed.

Lemma key_warning_logged username vals eachKey :
  eachKey ∈ vals → parse_key eachKey = None →
  Log WarningLevel
    "SSH key parsing for user %s failed (key was '%s')! This key will not be added into LDAP."
    [username; eachKey] ∈ key_warnings username vals.
Proof.
  intros Hin Hparse. unfold key_warnings. apply list_elem_of_In, in_flat_map.
  exists eachKey. split; [by apply list_elem_of_In|]. rewrite Hparse. by left.
Qed.

End LDAPKeys.

Section KFRoles.
Context `{SSH} `{MapRange} {K : Type} `{KF.KeysFile K}.
Import KF.

Lemma elem_of_add_new arns role r : r ∈ add_new arns role ↔ r ∈ arns ∨ r = role.
Proof.
  unfold add_new. case_decide as Hin.
  - split; [by left|]. by intros [?| ->].
  - by rewrite elem_of_app, list_elem_of_singleton.
Qed.

Lemma NoDup_add_new arns role : NoDup arns → NoDup (add_new arns role).
Proof.
  intros Hnd. unfold add_new. case_decide as Hin; [done|].
  apply NoDup_app. split; [done|]. split; [|apply NoDup_singleton].
  intros x Hx ->%list_elem_of_singleton. done.
Qed.

Lemma elem_of_merge_roles arns roles r :
  r ∈ merge_roles arns roles ↔ r ∈ arns ∨ r ∈ roles.
Proof.
  revert arns. induction roles as [|role roles IH]; intros arns; simpl.
  - split; [by left|]. intros [?|Hin]; [done|]. by apply elem_of_nil in Hin.
  - unfold merge_roles in *. simpl. rewrite IH, elem_of_add_new, elem_of_cons. tauto.
Qed.

Lemma NoDup_merge_roles arns roles : NoDup arns → NoDup (merge_roles arns roles).
Proof.
  revert arns. induction roles as [|role roles IH]; intros arns Hnd; [done|].
  unfold merge_roles in *. simpl. apply IH. by apply NoDup_add_new.
Qed.

Lemma rec_username_Some (kfuc : keysFileUserCache K) userData u :
  rec_username kfuc userData = Some u ↔ index userData (userAttr kfuc) = IString u.
Proof.
  unfold rec_username. destruct (index userData (userAttr kfuc)); split; congruence.
Qed.

Lemma elem_of_as_strings (l : list iface) role :
  role ∈ omap as_string l ↔ IString role ∈ l.
Proof.
  rewrite list_elem_of_omap. split.
  - intros (v & Hin & Hv). by destruct v; simplify_eq/=.
  - intros Hin. by exists (IString role).
Qed.

Lemma elem_of_rec_roles (kfuc : keysFileUserCache K) userData role :
  enableServerRoles kfuc = true →
  role ∈ rec_roles kfuc userData ↔
  ∃ roles, index userData (roleAttr kfuc) = ISlice roles ∧ IString role ∈ roles.
Proof.
  intros Hen. unfold rec_roles. rewrite Hen.
  destruct (index userData (roleAttr kfuc)) as [| |l|] eqn:Hidx.
  - split; [by intros ?%elem_of_nil|]. by intros (? & ? & _).
  - split; [by intros ?%elem_of_nil|]. by intros (? & ? & _).
  - rewrite elem_of_as_strings. split; [eauto|]. by intros (? & [= <-] & ?).
  - split; [by intros ?%elem_of_nil|]. by intros (? & ? & _).
Qed.

Lemma elem_of_usable (kfuc : keysFileUserCache K) u (keys : KeysMap) key userData :
  (key, userData) ∈ filter (usable kfuc u) (range keys) ↔
  keys !! key = Some userData
  ∧ index userData (userAttr kfuc) = IString u ∧ is_Some (parse_key key).
Proof.
  rewrite list_elem_of_filter, elem_of_range. unfold usable. simpl.
  rewrite rec_username_Some. tauto.
Qed.

(** The first element a filter keeps. *)
Lemma filter_first {A} (P : A → Prop) `{∀ x, Decision (P x)} (l : list A) x rest :
  filter P l = x :: rest →
  ∃ before after, l = before ++ x :: after ∧ P x ∧ ∀ y, y ∈ before → ¬ P y.
Proof.
  induction l as [|y l IH]; [done|].
  destruct (decide (P y)) as [Hy|Hy].
  - rewrite (filter_cons_True _ _ _ Hy). intros [= -> _].
    exists [], l. split; [done|]. split; [done|]. by intros ? ?%elem_of_nil.
  - rewrite (filter_cons_False _ _ _ Hy). intros (before & after & -> & Hx & Hb)%IH.
    exists (y :: before), after. split; [done|]. split; [done|].
    intros z [->|Hz]%elem_of_cons; [done|]. by apply Hb.
Qed.

(** The loop body on a record whose key string does not parse: a warning,
    and the local variables as they were. *)
Lemma record_key_unparseable (kfuc : keysFileUserCache K) acc key userData c u :
  index userData (userAttr kfuc) = IString u → parse_key key = None →
  record_key kfuc acc (key, userData) c
  = (Done acc, c,
     [Log WarningLevel
        "SSH key parsing for user %s failed (key was '%s')! This key will not be added into the keys file."
        [u; key]]).
Proof.
  intros Hu Hparse. destruct acc as [users seenRoles]. unfold record_key. mrun.
  rewrite Hu. mrun. by rewrite Hparse.
Qed.

End KFRoles.

(** ** Concrete runs *)

(** A run is determined by its outcome once the receiver and the events are
    read off it. *)
Lemma run_eta {A C} (r : outcome A * C * list event) (a : outcome A) :
  r.1.1 = a → r = (a, r.1.2, r.2).
Proof. destruct r as [[o c] evs]. simpl. by intros ->. Qed.

(** * The claims *)

(** Runs of the two [Update]s on the concrete directory and keys file. *)
Example demo_fresh_ldap :
  LDAP.Users (LDAP.Update Demo.freshLDAP).1.2 !! "alice"
  = Some (mkUser "alice" ["AAAAalice"; "alicelaptop"] ["A"; "B"; "B"; "C"] "arn:default").
Proof. vm_compute. reflexivity. Qed.

Example demo_fresh_kf :
  KF.Users (KF.Update Demo.freshKF).1.2 !! "alice"
  = Some (mkUser "alice" ["alicelaptop"; "AAAAalice"] ["B"; "C"; "A"] "C").
Proof. vm_compute. reflexivity. Qed.

(** ** C1: a miss refreshes once and rescans once; a hit does not refresh *)

(** C1.  For both caches: when the first scan finds a user, [Authenticate]
    returns that user and its trace holds no call of [Update]; when the first
    scan finds none, [Authenticate] runs [Update] on the cache as it stands,
    its trace holds exactly one call of [Update], the cache it leaves is the
    one that [Update] left, and if that [Update] returned [nil] the result is
    the scan of the new snapshot, the trace holding exactly two scans. *)
Theorem authenticate_refreshes_once_on_miss
    `{SSH} `{MapRange} {S : Type} `{LDAP.LDAPImplementation S}
    {K : Type} `{KF.KeysFile K} :
  (∀ (luc : LDAP.ldapUserCache S) username challenge sshSig,
     (∀ user, scan challenge sshSig (range (LDAP.users luc)) = Some user →
        ∃ evs, LDAP.Authenticate username challenge sshSig luc
               = (Done (Some user, None), luc, evs)
          ∧ n_calls "Update" evs = 0 ∧ n_calls "_verify" evs = 1)
     ∧ (scan challenge sshSig (range (LDAP.users luc)) = None →
        ∀ r luc' evs, LDAP.Update luc = (r, luc', evs) →
          ∃ res post,
            LDAP.Authenticate username challenge sshSig luc
            = (res, luc', ldap_miss_events username ++ evs ++ post)
            ∧ n_calls "Update" (ldap_miss_events username ++ evs ++ post) = 1
            ∧ (r = Done None →
               res = Done (scan challenge sshSig (range (LDAP.users luc')), None)
               ∧ n_calls "_verify" (ldap_miss_events username ++ evs ++ post) = 2)))
  ∧ (∀ (kfuc : KF.keysFileUserCache K) username challenge sshSig,
     (∀ user, scan challenge sshSig (range (KF.users kfuc)) = Some user →
        ∃ evs, KF.Authenticate username challenge sshSig kfuc
               = (Done (Some user, None), kfuc, evs)
          ∧ n_calls "Update" evs = 0 ∧ n_calls "verify" evs = 1)
     ∧ (scan challenge sshSig (range (KF.users kfuc)) = None →
        ∀ r kfuc' evs, KF.Update kfuc = (r, kfuc', evs) →
          ∃ res post,
            KF.Authenticate username challenge sshSig kfuc
            = (res, kfuc', kf_miss_events username ++ evs ++ post)
            ∧ n_calls "Update" (kf_miss_events username ++ evs ++ post) = 1
            ∧ (r = Done None →
               res = Done (scan challenge sshSig (range (KF.users kfuc')), None)
               ∧ n_calls "verify" (kf_miss_events username ++ evs ++ post) = 2))).
Proof.
  split.
  - intros luc username challenge sshSig. split.
    + intros user Hhit. exists [Call "_verify"].
      by rewrite (ldap_Authenticate_hit _ _ _ _ _ Hhit).
    + intros Hmiss r luc' evs Hup.
      rewrite (ldap_Authenticate_miss _ _ _ _ Hmiss), Hup.
      pose proof (ldap_Update_calls "Update" luc) as Hn1.
      pose proof (ldap_Update_calls "_verify" luc) as Hn2.
      rewrite Hup in Hn1, Hn2. simpl in Hn1, Hn2.
      destruct r as [[err|]|why].
      * exists (Done (None, Some err)), []. rewrite app_nil_r.
        split; [done|]. rewrite n_calls_app, Hn1. by split.
      * exists (Done (scan challenge sshSig (range (LDAP.users luc')), None)), [Call "_verify"].
        split; [done|]. rewrite !n_calls_app, Hn1, Hn2. by split.
      * exists (Panicked why), []. rewrite app_nil_r.
        split; [done|]. rewrite n_calls_app, Hn1. by split.
  - intros kfuc username challenge sshSig. split.
    + intros user Hhit. exists [Call "verify"].
      by rewrite (kf_Authenticate_hit _ _ _ _ _ Hhit).
    + intros Hmiss r kfuc' evs Hup.
      rewrite (kf_Authenticate_miss _ _ _ _ Hmiss), Hup.
      pose proof (kf_Update_calls "Update" kfuc) as Hn1.
      pose proof (kf_Update_calls "verify" kfuc) as Hn2.
      rewrite Hup in Hn1, Hn2. simpl in Hn1, Hn2.
      destruct r as [[err|]|why].
      * exists (Done (None, Some err)), []. rewrite app_nil_r.
        split; [done|]. rewrite n_calls_app, Hn1. by split.
      * exists (Done (scan challenge sshSig (range (KF.users kfuc')), None)), [Call "verify"].
        split; [done|]. rewrite !n_calls_app, Hn1, Hn2. by split.
      * exists (Panicked why), []. rewrite app_nil_r.
        split; [done|]. rewrite n_calls_app, Hn1. by split.
Qed.

(** C1 at the concrete directory: an empty cache misses alice's signature,
    refreshes once from the directory and finds her in the second scan. *)
Lemma authenticate_refreshes_once_on_miss_witness :
  ∃ luc' evs,
    LDAP.Authenticate "alice" Demo.challenge Demo.aliceSig Demo.freshLDAP
    = (Done (Some (mkUser "alice" ["AAAAalice"; "alicelaptop"] ["A"; "B"; "B"; "C"]
                     "arn:default"), None), luc', evs)
    ∧ n_calls "Update" evs = 1 ∧ n_calls "_verify" evs = 2.
Proof.
  pose proof (proj2 (proj1 (@authenticate_refreshes_once_on_miss
    Demo.toySSH Demo.forwardRange _ Demo.scriptedLDAP _ Demo.fixedKeysFile)
    Demo.freshLDAP "alice" Demo.challenge Demo.aliceSig)) as Hmiss.
  assert (scan Demo.challenge Demo.aliceSig (range (LDAP.users Demo.freshLDAP)) = None)
    as Hscan by (vm_compute; reflexivity).
  assert (LDAP.Update Demo.freshLDAP
          = (Done None, (LDAP.Update Demo.freshLDAP).1.2, (LDAP.Update Demo.freshLDAP).2))
    as Hupdate by (apply run_eta; vm_compute; reflexivity).
  assert (scan Demo.challenge Demo.aliceSig
            (range (LDAP.users (LDAP.Update Demo.freshLDAP).1.2))
          = Some (mkUser "alice" ["AAAAalice"; "alicelaptop"] ["A"; "B"; "B"; "C"]
                    "arn:default")) as Hrescan by (vm_compute; reflexivity).
  destruct (Hmiss Hscan _ _ _ Hupdate) as (res & post & Hrun & Hup & Hres).
  destruct (Hres eq_refl) as [-> Hscans].
  exists (LDAP.Update Demo.freshLDAP).1.2,
    (ldap_miss_events "alice" ++ (LDAP.Update Demo.freshLDAP).2 ++ post).
  split; [|split; [exact Hup|exact Hscans]].
  rewrite Hrun, Hrescan. reflexivity.
Defined.

(** ** C2: not authenticated is not an error *)

(** C2.  For both caches: when no key of the snapshot verifies the
    signature, the refresh succeeds and no key of the new snapshot verifies
    it either, [Authenticate] returns [(nil, nil)]; and when [Authenticate]
    returns a non-nil error, the user returned is [nil], no key of the
    snapshot verified the signature, and the error is the one the [Update]
    of the miss returned. *)
Theorem authenticate_not_found_is_not_an_error
    `{SSH} `{MapRange} {S : Type} `{LDAP.LDAPImplementation S}
    {K : Type} `{KF.KeysFile K} :
  (∀ (luc : LDAP.ldapUserCache S) username challenge sshSig,
     (∀ luc' evs,
        no_key_verifies (LDAP.Users luc) challenge sshSig →
        LDAP.Update luc = (Done None, luc', evs) →
        no_key_verifies (LDAP.Users luc') challenge sshSig →
        ∃ evs', LDAP.Authenticate username challenge sshSig luc
                = (Done (None, None), luc', evs'))
     ∧ (∀ retUser err luc' evs',
        LDAP.Authenticate username challenge sshSig luc
        = (Done (retUser, Some err), luc', evs') →
        retUser = None
        ∧ no_key_verifies (LDAP.Users luc) challenge sshSig
        ∧ ∃ evs, LDAP.Update luc = (Done (Some err), luc', evs)))
  ∧ (∀ (kfuc : KF.keysFileUserCache K) username challenge sshSig,
     (∀ kfuc' evs,
        no_key_verifies (KF.Users kfuc) challenge sshSig →
        KF.Update kfuc = (Done None, kfuc', evs) →
        no_key_verifies (KF.Users kfuc') challenge sshSig →
        ∃ evs', KF.Authenticate username challenge sshSig kfuc
                = (Done (None, None), kfuc', evs'))
     ∧ (∀ user err kfuc' evs',
        KF.Authenticate username challenge sshSig kfuc
        = (Done (user, Some err), kfuc', evs') →
        user = None
        ∧ no_key_verifies (KF.Users kfuc) challenge sshSig
        ∧ ∃ evs, KF.Update kfuc = (Done (Some err), kfuc', evs))).
Proof.
  split.
  - intros luc username challenge sshSig. split.
    + intros luc' evs Hno Hup Hno'.
      apply scan_range_None in Hno, Hno'. unfold LDAP.Users in *.
      rewrite (ldap_Authenticate_miss _ _ _ _ Hno), Hup, Hno'. eauto.
    + intros retUser err luc' evs' Hrun.
      destruct (scan challenge sshSig (range (LDAP.users luc))) as [user|] eqn:Hscan.
      { by rewrite (ldap_Authenticate_hit _ _ _ _ _ Hscan) in Hrun. }
      rewrite (ldap_Authenticate_miss _ _ _ _ Hscan) in Hrun.
      destruct (LDAP.Update luc) as [[[[err0|]|why] luc0] evs0]; [| |done].
      * simplify_eq. split; [done|]. split; [by apply scan_range_None|]. eauto.
      * discriminate.
  - intros kfuc username challenge sshSig. split.
    + intros kfuc' evs Hno Hup Hno'.
      apply scan_range_None in Hno, Hno'. unfold KF.Users in *.
      rewrite (kf_Authenticate_miss _ _ _ _ Hno), Hup, Hno'. eauto.
    + intros user err kfuc' evs' Hrun.
      destruct (scan challenge sshSig (range (KF.users kfuc))) as [user0|] eqn:Hscan.
      { by rewrite (kf_Authenticate_hit _ _ _ _ _ Hscan) in Hrun. }
      rewrite (kf_Authenticate_miss _ _ _ _ Hscan) in Hrun.
      destruct (KF.Update kfuc) as [[[[err0|]|why] kfuc0] evs0]; [| |done].
      * simplify_eq. split; [done|]. split; [by apply scan_range_None|]. eauto.
      * discriminate.
Qed.

(** C2 at the concrete directory: a signature by an unknown key is answered
    [(nil, nil)] after the refresh; and over a server that is down, the error
    [Authenticate] returns is the one [Update] returned. *)
Lemma authenticate_not_found_is_not_an_error_witness :
  (∃ evs', LDAP.Authenticate "mallory" Demo.challenge Demo.mallorySig Demo.freshLDAP
           = (Done (None, None), (LDAP.Update Demo.freshLDAP).1.2, evs'))
  ∧ (∃ evs, LDAP.Update Demo.downLDAP
            = (Done (Some "ldap: connection refused"),
               (LDAP.Update Demo.downLDAP).1.2, evs)).
Proof.
  pose proof (proj1 (@authenticate_not_found_is_not_an_error
    Demo.toySSH Demo.forwardRange _ Demo.scriptedLDAP _ Demo.fixedKeysFile)) as Hldap.
  split.
  - apply (proj1 (Hldap Demo.freshLDAP "mallory" Demo.challenge Demo.mallorySig)
             _ (LDAP.Update Demo.freshLDAP).2).
    + apply scan_range_None. vm_compute. reflexivity.
    + apply run_eta. vm_compute. reflexivity.
    + apply scan_range_None. vm_compute. reflexivity.
  - assert (LDAP.Authenticate "mallory" Demo.challenge Demo.mallorySig Demo.downLDAP
            = (Done (None, Some "ldap: connection refused"),
               (LDAP.Authenticate "mallory" Demo.challenge Demo.mallorySig Demo.downLDAP).1.2,
               (LDAP.Authenticate "mallory" Demo.challenge Demo.mallorySig Demo.downLDAP).2))
      as Hrun by (apply run_eta; vm_compute; reflexivity).
    destruct (proj2 (Hldap Demo.downLDAP "mallory" Demo.challenge Demo.mallorySig)
                _ _ _ _ Hrun) as (_ & _ & evs & Hup).
    exists evs. rewrite Hup. reflexivity.
Defined.

(** ** C9: the username argument does not influence the result *)

(** C9.  For both caches and any snapshot, two calls of [Authenticate] that
    differ only in the username return the same result and leave the same
    cache: the username reaches nothing but the log line of a miss. *)
Theorem authenticate_ignores_username
    `{SSH} `{MapRange} {S : Type} `{LDAP.LDAPImplementation S}
    {K : Type} `{KF.KeysFile K} :
  (∀ (luc : LDAP.ldapUserCache S) u1 u2 challenge sshSig,
     (LDAP.Authenticate u1 challenge sshSig luc).1
     = (LDAP.Authenticate u2 challenge sshSig luc).1)
  ∧ (∀ (kfuc : KF.keysFileUserCache K) u1 u2 challenge sshSig,
     (KF.Authenticate u1 challenge sshSig kfuc).1
     = (KF.Authenticate u2 challenge sshSig kfuc).1).
Proof.
  split.
  - intros luc u1 u2 challenge sshSig.
    destruct (scan challenge sshSig (range (LDAP.users luc))) as [user|] eqn:Hscan.
    + by rewrite !(ldap_Authenticate_hit _ _ _ _ _ Hscan).
    + rewrite !(ldap_Authenticate_miss _ _ _ _ Hscan).
      by destruct (LDAP.Update luc) as [[[[err|]|why] luc'] evs].
  - intros kfuc u1 u2 challenge sshSig.
    destruct (scan challenge sshSig (range (KF.users kfuc))) as [user|] eqn:Hscan.
    + by rewrite !(kf_Authenticate_hit _ _ _ _ _ Hscan).
    + rewrite !(kf_Authenticate_miss _ _ _ _ Hscan).
      by destruct (KF.Update kfuc) as [[[[err|]|why] kfuc'] evs].
Qed.

(** On the concrete directory, mallory presenting alice's signature under
    the name [bob] is given alice. *)
Example authenticate_under_another_name :
  (LDAP.Authenticate "bob" Demo.challenge Demo.aliceSig Demo.freshLDAP).1.1
  = Done (Some (mkUser "alice" ["AAAAalice"; "alicelaptop"] ["A"; "B"; "B"; "C"]
                  "arn:default"), None).
Proof. vm_compute. reflexivity. Qed.

(** ** C4: a failed [Update] leaves the snapshot as it was *)

(** C4.  For both caches, when [Update] returns a non-nil error, [Users]
    gives after the call the map it gave before. *)
Theorem failed_update_keeps_snapshot
    `{SSH} `{MapRange} {S : Type} `{LDAP.LDAPImplementation S}
    {K : Type} `{KF.KeysFile K} :
  (∀ (luc luc' : LDAP.ldapUserCache S) err evs,
     LDAP.Update luc = (Done (Some err), luc', evs) →
     LDAP.Users luc' = LDAP.Users luc)
  ∧ (∀ (kfuc kfuc' : KF.keysFileUserCache K) err evs,
     KF.Update kfuc = (Done (Some err), kfuc', evs) →
     KF.Users kfuc' = KF.Users kfuc).
Proof.
  split.
  - intros luc luc' err evs.
    destruct (LDAP.enableServerRoles luc) eqn:Hen.
    + destruct (LDAP.Search (LDAP.server luc) (LDAP.groupSearchRequest luc))
        as [[gres|err1] s1] eqn:Hg.
      * destruct (LDAP.Search s1 (LDAP.searchRequest luc)) as [[res|err2] s2] eqn:Hu.
        -- by rewrite (Update_with_roles _ _ _ _ _ Hen Hg Hu).
        -- rewrite (Update_user_search_fails _ _ _ _ _ Hen Hg Hu). by intros [= _ <- _].
      * rewrite (Update_group_search_fails _ _ _ Hen Hg). by intros [= _ <- _].
    + destruct (LDAP.Search (LDAP.server luc) (LDAP.searchRequest luc))
        as [[res|err2] s1] eqn:Hu.
      * by rewrite (Update_without_roles _ _ _ Hen Hu).
      * rewrite (Update_without_roles_fails _ _ _ Hen Hu). by intros [= _ <- _].
  - intros kfuc kfuc' err evs Hup. eapply kf_Update_users; [exact Hup|done].
Qed.

(** C4 over a server that is down and over a keys file that cannot be
    read: the cache still holds bob. *)
Lemma failed_update_keeps_snapshot_witness :
  LDAP.Users (LDAP.Update Demo.downLDAP).1.2 = {["bob" := Demo.bob]}
  ∧ KF.Users (KF.Update Demo.downKF).1.2 = {["bob" := Demo.bob]}.
Proof.
  pose proof (@failed_update_keeps_snapshot
    Demo.toySSH Demo.forwardRange _ Demo.scriptedLDAP _ Demo.fixedKeysFile) as [Hl Hk].
  split.
  - rewrite (Hl Demo.downLDAP (LDAP.Update Demo.downLDAP).1.2
               "ldap: connection refused" (LDAP.Update Demo.downLDAP).2).
    + reflexivity.
    + apply run_eta. vm_compute. reflexivity.
  - rewrite (Hk Demo.downKF (KF.Update Demo.downKF).1.2
               "open keys.json: no such file" (KF.Update Demo.downKF).2).
    + reflexivity.
    + apply run_eta. vm_compute. reflexivity.
Defined.

(** ** C3: what a successful [Update] does to the snapshot *)

(** C3.  The LDAP cache writes the search results over the map it already
    holds: after a successful [Update] over a directory that lists only
    alice, the cache that held bob holds both bob and alice.  The keys-file
    cache, given the same start, publishes a map without bob. *)
Theorem ldap_update_keeps_stale_user :
  (∃ luc' evs,
     LDAP.Update Demo.staleLDAP = (Done None, luc', evs)
     ∧ LDAP.Users luc' !! "bob" = Some Demo.bob
     ∧ LDAP.Users luc' !! "alice"
       = Some (mkUser "alice" ["AAAAalice"; "alicelaptop"] [] "arn:default"))
  ∧ (∃ kfuc' evs,
     KF.Update (Demo.keysCache {["bob" := Demo.bob]} (None, Ok Demo.aliceKeys))
     = (Done None, kfuc', evs)
     ∧ KF.Users kfuc' !! "bob" = None
     ∧ is_Some (KF.Users kfuc' !! "alice")).
Proof.
  split.
  - exists (LDAP.Update Demo.staleLDAP).1.2, (LDAP.Update Demo.staleLDAP).2.
    split; [apply run_eta|split]; vm_compute; reflexivity.
  - exists (KF.Update (Demo.keysCache {["bob" := Demo.bob]} (None, Ok Demo.aliceKeys))).1.2,
      (KF.Update (Demo.keysCache {["bob" := Demo.bob]} (None, Ok Demo.aliceKeys))).2.
    split; [apply run_eta; vm_compute; reflexivity|].
    split; [vm_compute; reflexivity|].
    apply (bool_decide_unpack _). vm_compute. exact I.
Qed.

(** ** C5: a record without a username *)

(** C5.  [Update] of the keys-file cache panics on a keys file one of whose
    records carries no username: it neither returns nor skips the record,
    and the snapshot stays empty. *)
Theorem kf_update_panics_on_nameless_record :
  ∃ kfuc' evs,
    KF.Update (Demo.keysCache ∅ (None, Ok Demo.namelessKeys))
    = (Panicked "interface conversion: interface {} is nil, not string", kfuc', evs)
    ∧ KF.Users kfuc' = ∅.
Proof.
  exists (KF.Update (Demo.keysCache ∅ (None, Ok Demo.namelessKeys))).1.2,
    (KF.Update (Demo.keysCache ∅ (None, Ok Demo.namelessKeys))).2.
  split; [apply run_eta|]; vm_compute; reflexivity.
Qed.

(** ** C6: the ARNs of an LDAP user *)

(** What the [memberOf] loop leaves.  With role support enabled and both
    searches successful, the ARNs of the user of an entry (the last one of
    its username) are the lists that the group-role map holds for the
    entry's [memberOf] values, appended one after the other: nothing is
    compared with what the list already holds. *)
Lemma ldap_Update_member_arns
    `{SSH} `{MapRange} {S : Type} `{LDAP.LDAPImplementation S}
    (luc : LDAP.ldapUserCache S) gres res s1 s2 pre entry post :
  LDAP.enableServerRoles luc = true →
  LDAP.Search (LDAP.server luc) (LDAP.groupSearchRequest luc) = (Ok gres, s1) →
  LDAP.Search s1 (LDAP.searchRequest luc) = (Ok res, s2) →
  LDAP.Entries res = pre ++ entry :: post →
  (∀ e, e ∈ post →
     LDAP.GetAttributeValue e (LDAP.userAttr luc)
     ≠ LDAP.GetAttributeValue entry (LDAP.userAttr luc)) →
  ∃ luc' evs user,
    LDAP.Update luc = (Done None, luc', evs)
    ∧ LDAP.Users luc' !! LDAP.GetAttributeValue entry (LDAP.userAttr luc) = Some user
    ∧ ARNs user
      = flat_map (λ groupDN, default [] (LDAP.groups luc' !! groupDN))
          (LDAP.GetAttributeValues entry "memberOf").
Proof.
  intros Hen Hg Hu Hentries Hlast.
  rewrite (Update_with_roles _ _ _ _ _ Hen Hg Hu).
  eexists _, _, _. split; [reflexivity|].
  unfold LDAP.Users. simpl. rewrite Hentries.
  split; [by apply patch_users_last|].
  unfold entry_user, entry_arns. simpl. by rewrite Hen.
Qed.

(** Hence, on every directory: an ARN that the lists of two member groups
    share stands twice among the user's ARNs. *)
Lemma ldap_Update_repeats_shared_arn
    `{SSH} `{MapRange} {S : Type} `{LDAP.LDAPImplementation S}
    (luc : LDAP.ldapUserCache S) gres res s1 s2 pre entry post :
  LDAP.enableServerRoles luc = true →
  LDAP.Search (LDAP.server luc) (LDAP.groupSearchRequest luc) = (Ok gres, s1) →
  LDAP.Search s1 (LDAP.searchRequest luc) = (Ok res, s2) →
  LDAP.Entries res = pre ++ entry :: post →
  (∀ e, e ∈ post →
     LDAP.GetAttributeValue e (LDAP.userAttr luc)
     ≠ LDAP.GetAttributeValue entry (LDAP.userAttr luc)) →
  ∃ luc' evs user,
    LDAP.Update luc = (Done None, luc', evs)
    ∧ LDAP.Users luc' !! LDAP.GetAttributeValue entry (LDAP.userAttr luc) = Some user
    ∧ ∀ g1 g2 arns1 arns2 arn,
        LDAP.GetAttributeValues entry "memberOf" = [g1; g2] →
        LDAP.groups luc' !! g1 = Some arns1 → LDAP.groups luc' !! g2 = Some arns2 →
        arn ∈ arns1 → arn ∈ arns2 →
        ¬ NoDup (ARNs user).
Proof.
  intros Hen Hg Hu Hentries Hlast.
  destruct (ldap_Update_member_arns luc gres res s1 s2 pre entry post
              Hen Hg Hu Hentries Hlast) as (luc' & evs & user & Hup & Huser & Harns).
  exists luc', evs, user. split; [done|]. split; [done|].
  intros g1 g2 arns1 arns2 arn Hmember Hg1 Hg2 Hin1 Hin2.
  rewrite Harns, Hmember. simpl. rewrite Hg1, Hg2, app_nil_r. simpl.
  intros Hnd. apply NoDup_app in Hnd as (_ & Hdisjoint & _).
  by apply (Hdisjoint arn).
Qed.

(** C6.  The LDAP cache lists an ARN that two member groups share once for
    each of them: carol is a member of exactly two groups, whose entries in
    the group-role map are [A, B] and [B, C]; after [Update] her ARNs are
    [A, B, B, C], in which [B] stands twice.  The keys-file cache, given
    two records of alice with the role lists [A, B] and [B, C], publishes
    each of the three roles once. *)
Theorem ldap_shared_arn_listed_twice :
  (∃ luc' evs user,
     LDAP.Update Demo.freshLDAP = (Done None, luc', evs)
     ∧ LDAP.groups luc' !! "cn=dev,ou=groups" = Some ["A"; "B"]
     ∧ LDAP.groups luc' !! "cn=ops,ou=groups" = Some ["B"; "C"]
     ∧ LDAP.Users luc' !! "carol" = Some user
     ∧ ARNs user = ["A"; "B"; "B"; "C"]
     ∧ ¬ NoDup (ARNs user))
  ∧ (∃ kfuc' evs user,
     KF.Update Demo.freshKF = (Done None, kfuc', evs)
     ∧ KF.Users kfuc' !! "alice" = Some user
     ∧ ARNs user = ["B"; "C"; "A"]
     ∧ NoDup (ARNs user)).
Proof.
  split.
  - exists (LDAP.Update Demo.freshLDAP).1.2, (LDAP.Update Demo.freshLDAP).2,
      (@mkUser Demo.toySSH "carol" ["AAAAcarol"] ["A"; "B"; "B"; "C"] "arn:default").
    split; [apply run_eta; vm_compute; reflexivity|].
    split; [vm_compute; reflexivity|].
    split; [vm_compute; reflexivity|].
    split; [vm_compute; reflexivity|].
    split; [reflexivity|].
    simpl. intros Hnd. apply NoDup_cons in Hnd as [_ Hnd].
    apply NoDup_cons in Hnd as [Hin _]. apply Hin. by left.
  - exists (KF.Update Demo.freshKF).1.2, (KF.Update Demo.freshKF).2,
      (@mkUser Demo.toySSH "alice" ["alicelaptop"; "AAAAalice"] ["B"; "C"; "A"] "C").
    split; [apply run_eta; vm_compute; reflexivity|].
    split; [vm_compute; reflexivity|].
    split; [reflexivity|].
    simpl. apply (bool_decide_unpack _). vm_compute. exact I.
Qed.

(** ** C7: the roles of a keys-file user *)

(** C7 as stated fails: two records carry the username alice with the
    overlapping role lists [A, B] and [B, C], and the key string of the
    second does not parse; after [Update] alice's ARNs are [A, B], in which
    the role [C] does not stand at all. *)
Lemma kf_unparsed_record_roles_left_out :
  Demo.halfParsedKeys !! "AAAAalice" = Some (Demo.record "alice" ["A"; "B"] "A")
  ∧ Demo.halfParsedKeys !! "garbage" = Some (Demo.record "alice" ["B"; "C"] "C")
  ∧ ∃ kfuc' evs user,
      KF.Update (Demo.keysCache ∅ (None, Ok Demo.halfParsedKeys))
      = (Done None, kfuc', evs)
      ∧ KF.Users kfuc' !! "alice" = Some user
      ∧ ARNs user = ["A"; "B"]
      ∧ "C" ∉ ARNs user.
Proof.
  split; [vm_compute; reflexivity|].
  split; [vm_compute; reflexivity|].
  exists (KF.Update (Demo.keysCache ∅ (None, Ok Demo.halfParsedKeys))).1.2,
    (KF.Update (Demo.keysCache ∅ (None, Ok Demo.halfParsedKeys))).2,
    (@mkUser Demo.toySSH "alice" ["AAAAalice"] ["A"; "B"] "A").
  split; [apply run_eta; vm_compute; reflexivity|].
  split; [vm_compute; reflexivity|].
  split; [reflexivity|].
  simpl. intros Hin. apply elem_of_cons in Hin as [?|Hin]; [discriminate|].
  apply elem_of_cons in Hin as [?|Hin]; [discriminate|].
  by apply elem_of_nil in Hin.
Qed.

(** C7, amended.  With role support enabled, after a successful [Update] of
    the keys-file cache the ARNs of every user hold no role twice, and hold
    a role exactly when some record of that username whose key string parses
    lists it: a role listed by several such records of the user stands
    once, and the roles of a record whose key string does not parse are not
    read. *)
Theorem kf_roles_listed_once
    `{SSH} `{MapRange} {K : Type} `{KF.KeysFile K}
    (kfuc kfuc' : KF.keysFileUserCache K) (keys : KF.KeysMap) k1 k2 evs u user :
  KF.enableServerRoles kfuc = true →
  KF.Load (KF.keysFile kfuc) = (None, k1) → KF.Keys k1 = (Ok keys, k2) →
  KF.Update kfuc = (Done None, kfuc', evs) →
  KF.Users kfuc' !! u = Some user →
  NoDup (ARNs user)
  ∧ ∀ role, role ∈ ARNs user ↔
      ∃ key userData roles,
        keys !! key = Some userData
        ∧ KF.index userData (KF.userAttr kfuc) = IString u
        ∧ is_Some (parse_key key)
        ∧ KF.index userData (KF.roleAttr kfuc) = ISlice roles
        ∧ IString role ∈ roles.
Proof.
  intros Hen Hl Hk Hup Huser.
  rewrite (kf_Update_snapshot _ _ _ _ _ _ Hl Hk Hup) in Huser.
  unfold user_from in Huser.
  destruct (filter (usable kfuc u) (range keys)) as [|[k0 d0] good] eqn:Hgood; [done|].
  assert (ARNs user
          = merge_roles [] (flat_map (λ kv : string * gmap string iface,
                                        rec_roles kfuc kv.2)
                              (filter (usable kfuc u) (range keys)))) as ->.
  { rewrite Hgood. by injection Huser as <-. }
  clear Hgood Huser. split.
  - apply NoDup_merge_roles, NoDup_nil_2.
  - intros role. rewrite elem_of_merge_roles.
    rewrite (list_elem_of_In (flat_map _ _) role), in_flat_map. split.
    + intros [Hnil|([key userData] & Hin & Hrole)]; [by apply elem_of_nil in Hnil|].
      apply list_elem_of_In, elem_of_usable in Hin as (Hkey & Hname & Hparse).
      apply list_elem_of_In, (elem_of_rec_roles _ _ _ Hen) in Hrole as (roles & Hroles & Hin).
      by exists key, userData, roles.
    + intros (key & userData & roles & Hkey & Hname & Hparse & Hroles & Hin). right.
      exists (key, userData). split.
      * by apply list_elem_of_In, elem_of_usable.
      * apply list_elem_of_In, (elem_of_rec_roles _ _ _ Hen). eauto.
Qed.

(** C7 at the concrete keys file: alice's two usable records list [A, B]
    and [B, C]; her ARNs hold each of the three roles once. *)
Lemma kf_roles_listed_once_witness :
  ∃ user,
    KF.Users (KF.Update Demo.freshKF).1.2 !! "alice" = Some user
    ∧ ARNs user = ["B"; "C"; "A"]
    ∧ NoDup (ARNs user).
Proof.
  exists (@mkUser Demo.toySSH "alice" ["alicelaptop"; "AAAAalice"] ["B"; "C"; "A"] "C").
  assert (KF.Update Demo.freshKF
          = (Done None, (KF.Update Demo.freshKF).1.2, (KF.Update Demo.freshKF).2))
    as Hup by (apply run_eta; vm_compute; reflexivity).
  assert (KF.Users (KF.Update Demo.freshKF).1.2 !! "alice"
          = Some (@mkUser Demo.toySSH "alice" ["alicelaptop"; "AAAAalice"]
                    ["B"; "C"; "A"] "C")) as Huser by (vm_compute; reflexivity).
  split; [exact Huser|]. split; [reflexivity|].
  exact (proj1 (@kf_roles_listed_once Demo.toySSH Demo.forwardRange _ Demo.fixedKeysFile
    Demo.freshKF (KF.Update Demo.freshKF).1.2 Demo.aliceKeys
    (None, Ok Demo.aliceKeys) (None, Ok Demo.aliceKeys) (KF.Update Demo.freshKF).2
    "alice" _ eq_refl eq_refl eq_refl Hup Huser)).
Defined.

(** ** C10: the default role of a keys-file user *)

(** C10.  After a successful [Update] of the keys-file cache, the default
    role of a user is the one resolved from the first record, in the order
    in which the records were visited, that carries the username and whose
    key string parses: that record created the user, and the records after
    it leave the default role alone.  On the concrete keys file, whose two
    usable records of alice resolve to different default roles, the two
    visiting orders publish different default roles. *)
Theorem kf_default_role_of_first_record
    `{SSH} `{MapRange} {K : Type} `{KF.KeysFile K} :
  (∀ (kfuc kfuc' : KF.keysFileUserCache K) (keys : KF.KeysMap) k1 k2 evs u user,
     KF.Load (KF.keysFile kfuc) = (None, k1) → KF.Keys k1 = (Ok keys, k2) →
     KF.Update kfuc = (Done None, kfuc', evs) →
     KF.Users kfuc' !! u = Some user →
     ∃ before key userData after,
       range keys = before ++ (key, userData) :: after
       ∧ KF.index userData (KF.userAttr kfuc) = IString u
       ∧ is_Some (parse_key key)
       ∧ (∀ key' userData', (key', userData') ∈ before →
            ¬ (KF.index userData' (KF.userAttr kfuc) = IString u
               ∧ is_Some (parse_key key')))
       ∧ DefaultRole user = KF.record_defaultRole kfuc userData)
  ∧ (∃ user1 user2,
       KF.Users (@KF.Update Demo.toySSH Demo.forwardRange _ Demo.fixedKeysFile
                   Demo.freshKF).1.2 !! "alice" = Some user1
       ∧ KF.Users (@KF.Update Demo.toySSH Demo.backwardRange _ Demo.fixedKeysFile
                     Demo.freshKF).1.2 !! "alice" = Some user2
       ∧ DefaultRole user1 = "C" ∧ DefaultRole user2 = "A").
Proof.
  split.
  - intros kfuc kfuc' keys k1 k2 evs u user Hl Hk Hup Huser.
    rewrite (kf_Update_snapshot _ _ _ _ _ _ Hl Hk Hup) in Huser.
    unfold user_from in Huser.
    destruct (filter (usable kfuc u) (range keys)) as [|[k0 d0] good] eqn:Hgood; [done|].
    injection Huser as <-. simpl.
    apply filter_first in Hgood as (before & after & Hrange & [Hname Hparse] & Hfirst).
    exists before, k0, d0, after. split; [done|].
    split; [by apply rec_username_Some|]. split; [done|]. split; [|done].
    intros key' userData' Hin [Hname' Hparse']. apply (Hfirst _ Hin).
    split; [by apply rec_username_Some|done].
  - exists (@mkUser Demo.toySSH "alice" ["alicelaptop"; "AAAAalice"] ["B"; "C"; "A"] "C"),
      (@mkUser Demo.toySSH "alice" ["AAAAalice"; "alicelaptop"] ["A"; "B"; "C"] "A").
    split; [vm_compute; reflexivity|]. split; [vm_compute; reflexivity|].
    split; reflexivity.
Qed.

(** C10 at the concrete keys file, in the forward order: alice's default
    role is the one of the record visited first. *)
Lemma kf_default_role_of_first_record_witness :
  ∃ before key userData after,
    range Demo.aliceKeys = before ++ (key, userData) :: after
    ∧ DefaultRole (@mkUser Demo.toySSH "alice" ["alicelaptop"; "AAAAalice"]
                     ["B"; "C"; "A"] "C")
      = KF.record_defaultRole Demo.freshKF userData.
Proof.
  assert (KF.Update Demo.freshKF
          = (Done None, (KF.Update Demo.freshKF).1.2, (KF.Update Demo.freshKF).2))
    as Hup by (apply run_eta; vm_compute; reflexivity).
  assert (KF.Users (KF.Update Demo.freshKF).1.2 !! "alice"
          = Some (@mkUser Demo.toySSH "alice" ["alicelaptop"; "AAAAalice"]
                    ["B"; "C"; "A"] "C")) as Huser by (vm_compute; reflexivity).
  destruct (proj1 (@kf_default_role_of_first_record
    Demo.toySSH Demo.forwardRange _ Demo.fixedKeysFile)
    Demo.freshKF (KF.Update Demo.freshKF).1.2 Demo.aliceKeys
    (None, Ok Demo.aliceKeys) (None, Ok Demo.aliceKeys) (KF.Update Demo.freshKF).2
    "alice" _ eq_refl eq_refl Hup Huser)
    as (before & key & userData & after & Hrange & _ & _ & _ & Hrole).
  exists before, key, userData, after. split; [exact Hrange|exact Hrole].
Defined.

(** ** C8: key strings that do not parse *)

(** C8.  Both [Update]s parse a key string as base64 key material first and
    as an authorized-keys line second.  In the LDAP cache, once the user
    search has succeeded, [Update] returns [nil], the user of an entry (the
    last one of its username) holds the keys of the values that parse, in
    order, and every value that does not parse is logged as a warning.  In
    the keys-file cache, a record whose key string does not parse logs a
    warning and leaves the loop's variables as they were, without ending
    the loop; and after a successful [Update] a user holds the keys of the
    records of that username whose key string parses, in visiting order. *)
Theorem unparseable_keys_are_skipped
    `{SSH} `{MapRange} {S : Type} `{LDAP.LDAPImplementation S}
    {K : Type} `{KF.KeysFile K} :
  (∀ raw, parse_key raw
          = match ParsePublicKey (DecodeString raw) with
            | Some key => Some key
            | None => ParseAuthorizedKey (list_byte_of_string raw)
            end)
  ∧ (∀ (luc : LDAP.ldapUserCache S) s res s2 pre entry post,
       before_user_search luc = Some s →
       LDAP.Search s (LDAP.searchRequest luc) = (Ok res, s2) →
       LDAP.Entries res = pre ++ entry :: post →
       (∀ e, e ∈ post →
          LDAP.GetAttributeValue e (LDAP.userAttr luc)
          ≠ LDAP.GetAttributeValue entry (LDAP.userAttr luc)) →
       ∃ luc' evs user,
         LDAP.Update luc = (Done None, luc', evs)
         ∧ LDAP.Users luc' !! LDAP.GetAttributeValue entry (LDAP.userAttr luc) = Some user
         ∧ SSHKeys user = omap parse_key (LDAP.GetAttributeValues entry "sshPublicKey")
         ∧ (∀ eachKey,
              eachKey ∈ LDAP.GetAttributeValues entry "sshPublicKey" →
              parse_key eachKey = None →
              Log WarningLevel
                "SSH key parsing for user %s failed (key was '%s')! This key will not be added into LDAP."
                [LDAP.GetAttributeValue entry (LDAP.userAttr luc); eachKey] ∈ evs))
  ∧ (∀ (kfuc : KF.keysFileUserCache K) acc key userData c u,
       KF.index userData (KF.userAttr kfuc) = IString u →
       parse_key key = None →
       KF.record_key kfuc acc (key, userData) c
       = (Done acc, c,
          [Log WarningLevel
             "SSH key parsing for user %s failed (key was '%s')! This key will not be added into the keys file."
             [u; key]]))
  ∧ (∀ (kfuc kfuc' : KF.keysFileUserCache K) (keys : KF.KeysMap) k1 k2 evs u user,
       KF.Load (KF.keysFile kfuc) = (None, k1) → KF.Keys k1 = (Ok keys, k2) →
       KF.Update kfuc = (Done None, kfuc', evs) →
       KF.Users kfuc' !! u = Some user →
       SSHKeys user
       = omap (λ kv : string * gmap string iface, parse_key kv.1)
           (filter (usable kfuc u) (range keys))).
Proof.
  split; [done|]. split; [|split].
  - intros luc s res s2 pre entry post Hs Hu Hentries Hlast.
    destruct (Update_searched _ _ _ _ Hs Hu) as [groupEntries ->].
    eexists _, _, _. split; [reflexivity|].
    unfold LDAP.Users. simpl. rewrite Hentries.
    split; [by apply patch_users_last|]. split; [done|].
    intros eachKey Hin Hparse. right.
    apply elem_of_app. right. apply elem_of_app. left.
    apply list_elem_of_In, in_flat_map. exists entry.
    split; [apply list_elem_of_In, elem_of_app; right; by left|].
    apply list_elem_of_In. unfold entry_events. apply elem_of_app. left.
    by apply key_warning_logged.
  - intros kfuc acc key userData c u Hu Hparse. by apply record_key_unparseable.
  - intros kfuc kfuc' keys k1 k2 evs u user Hl Hk Hup Huser.
    rewrite (kf_Update_snapshot _ _ _ _ _ _ Hl Hk Hup) in Huser.
    unfold user_from in Huser.
    destruct (filter (usable kfuc u) (range keys)) as [|[k0 d0] good]; [done|].
    by injection Huser as <-.
Qed.

(** C8 at the concrete directory and keys file: of alice's three key
    strings, one does not parse; she holds the two keys that do, the third is
    logged, and neither [Update] is aborted. *)
Lemma unparseable_keys_are_skipped_witness :
  (∃ luc' evs user,
     LDAP.Update Demo.freshLDAP = (Done None, luc', evs)
     ∧ LDAP.Users luc' !! "alice" = Some user
     ∧ SSHKeys user = ["AAAAalice"; "alicelaptop"]
     ∧ Log WarningLevel
         "SSH key parsing for user %s failed (key was '%s')! This key will not be added into LDAP."
         ["alice"; "garbage"] ∈ evs)
  ∧ (∃ user,
     KF.Users (KF.Update Demo.freshKF).1.2 !! "alice" = Some user
     ∧ SSHKeys user = ["alicelaptop"; "AAAAalice"]).
Proof.
  pose proof (@unparseable_keys_are_skipped
    Demo.toySSH Demo.forwardRange _ Demo.scriptedLDAP _ Demo.fixedKeysFile)
    as (_ & Hldap & _ & Hkf).
  split.
  - destruct (Hldap Demo.freshLDAP
      [Ok (LDAP.mkSearchResult [Demo.aliceEntry; Demo.carolEntry])]
      (LDAP.mkSearchResult [Demo.aliceEntry; Demo.carolEntry]) []
      [] Demo.aliceEntry [Demo.carolEntry] eq_refl eq_refl eq_refl)
      as (luc' & evs & user & Hup & Huser & Hkeys & Hlog).
    { intros e ->%list_elem_of_singleton. vm_compute. discriminate. }
    exists luc', evs, user. split; [exact Hup|]. split; [exact Huser|].
    split; [rewrite Hkeys; vm_compute; reflexivity|].
    apply (Hlog "garbage"); [|vm_compute; reflexivity].
    apply elem_of_cons. right. apply elem_of_cons. by left.
  - assert (KF.Update Demo.freshKF
            = (Done None, (KF.Update Demo.freshKF).1.2, (KF.Update Demo.freshKF).2))
      as Hup by (apply run_eta; vm_compute; reflexivity).
    assert (KF.Users (KF.Update Demo.freshKF).1.2 !! "alice"
            = Some (@mkUser Demo.toySSH "alice" ["alicelaptop"; "AAAAalice"]
                      ["B"; "C"; "A"] "C")) as Huser by (vm_compute; reflexivity).
    exists (@mkUser Demo.toySSH "alice" ["alicelaptop"; "AAAAalice"] ["B"; "C"; "A"] "C").
    split; [exact Huser|].
    rewrite (Hkf Demo.freshKF (KF.Update Demo.freshKF).1.2 Demo.aliceKeys
               (None, Ok Demo.aliceKeys) (None, Ok Demo.aliceKeys)
               (KF.Update Demo.freshKF).2 "alice" _ eq_refl eq_refl Hup Huser).
    reflexivity.
Defined.

(** * Further properties of the two caches *)

(** ** What [Authenticate] returns *)

Section ProtocolFacts.
Context `{SSH} `{MapRange}.

(** A user found by a scan of a snapshot is in it and holds a key that
    verifies. *)
Lemma scan_range_Some challenge sshSig (users : gmap string User) user :
  scan challenge sshSig (range users) = Some user →
  ∃ name key, users !! name = Some user ∧ key ∈ SSHKeys user
              ∧ Verify key challenge sshSig = None.
Proof.
  intros (name & key & Hin & Hkey & Hv)%scan_Some.
  exists name, key. split; [by apply elem_of_range|done].
Qed.

(** The scan of a snapshot in which one key verifies finds a user. *)
Lemma scan_range_finds challenge sshSig (users : gmap string User) name user key :
  users !! name = Some user → key ∈ SSHKeys user →
  Verify key challenge sshSig = None →
  ∃ found, scan challenge sshSig (range users) = Some found.
Proof.
  intros Hname Hkey Hv.
  destruct (scan challenge sshSig (range users)) as [found|] eqn:Hscan; [eauto|].
  apply scan_range_None in Hscan. by destruct (Hscan name user key).
Qed.

End ProtocolFacts.

Section LDAPFailure.
Context `{SSH} `{MapRange} {S : Type} `{LDAP.LDAPImplementation S}.
Import LDAP.

(** [Update] of the LDAP cache assigns no user unless it returns [nil]. *)
Lemma ldap_Update_users (luc luc' : ldapUserCache S) r evs :
  Update luc = (r, luc', evs) → r ≠ Done None → users luc' = users luc.
Proof.
  destruct (enableServerRoles luc) eqn:Hen.
  - destruct (Search (server luc) (groupSearchRequest luc)) as [[gres|err1] s1] eqn:Hg.
    + destruct (Search s1 (searchRequest luc)) as [[res|err2] s2] eqn:Hu.
      * rewrite (Update_with_roles _ _ _ _ _ Hen Hg Hu). by intros [= <- _ _].
      * rewrite (Update_user_search_fails _ _ _ _ _ Hen Hg Hu). by intros [= _ <- _].
    + rewrite (Update_group_search_fails _ _ _ Hen Hg). by intros [= _ <- _].
  - destruct (Search (server luc) (searchRequest luc)) as [[res|err2] s1] eqn:Hu.
    + rewrite (Update_without_roles _ _ _ Hen Hu). by intros [= <- _ _].
    + rewrite (Update_without_roles_fails _ _ _ Hen Hu). by intros [= _ <- _].
Qed.

End LDAPFailure.

(** X1.  For both caches: a user returned by [Authenticate] comes without an
    error, is in the snapshot the call leaves behind, and holds a key under
    which the signature over the challenge verifies. *)
Theorem authenticate_returns_key_holder
    `{SSH} `{MapRange} {S : Type} `{LDAP.LDAPImplementation S}
    {K : Type} `{KF.KeysFile K} :
  (∀ (luc luc' : LDAP.ldapUserCache S) username challenge sshSig user err evs,
     LDAP.Authenticate username challenge sshSig luc = (Done (Some user, err), luc', evs) →
     err = None
     ∧ ∃ name key, LDAP.Users luc' !! name = Some user ∧ key ∈ SSHKeys user
                   ∧ Verify key challenge sshSig = None)
  ∧ (∀ (kfuc kfuc' : KF.keysFileUserCache K) username challenge sshSig user err evs,
     KF.Authenticate username challenge sshSig kfuc = (Done (Some user, err), kfuc', evs) →
     err = None
     ∧ ∃ name key, KF.Users kfuc' !! name = Some user ∧ key ∈ SSHKeys user
                   ∧ Verify key challenge sshSig = None).
Proof.
  split.
  - intros luc luc' username challenge sshSig user err evs Hrun.
    destruct (scan challenge sshSig (range (LDAP.users luc))) as [found|] eqn:Hscan.
    + rewrite (ldap_Authenticate_hit _ _ _ _ _ Hscan) in Hrun. simplify_eq.
      split; [done|]. by apply scan_range_Some.
    + rewrite (ldap_Authenticate_miss _ _ _ _ Hscan) in Hrun.
      destruct (LDAP.Update luc) as [[[[err0|]|why] luc0] evs0]; simplify_eq.
      split; [done|]. by apply scan_range_Some.
  - intros kfuc kfuc' username challenge sshSig user err evs Hrun.
    destruct (scan challenge sshSig (range (KF.users kfuc))) as [found|] eqn:Hscan.
    + rewrite (kf_Authenticate_hit _ _ _ _ _ Hscan) in Hrun. simplify_eq.
      split; [done|]. by apply scan_range_Some.
    + rewrite (kf_Authenticate_miss _ _ _ _ Hscan) in Hrun.
      destruct (KF.Update kfuc) as [[[[err0|]|why] kfuc0] evs0]; simplify_eq.
      split; [done|]. by apply scan_range_Some.
Qed.

(** X1 at the concrete directory: alice, found after the refresh. *)
Lemma authenticate_returns_key_holder_witness :
  ∃ name key,
    LDAP.Users (LDAP.Authenticate "alice" Demo.challenge Demo.aliceSig Demo.freshLDAP).1.2
      !! name
    = Some (mkUser "alice" ["AAAAalice"; "alicelaptop"] ["A"; "B"; "B"; "C"] "arn:default")
    ∧ key ∈ ["AAAAalice"; "alicelaptop"]
    ∧ Verify key Demo.challenge Demo.aliceSig = None.
Proof.
  assert (LDAP.Authenticate "alice" Demo.challenge Demo.aliceSig Demo.freshLDAP
          = (Done (Some (mkUser "alice" ["AAAAalice"; "alicelaptop"]
                           ["A"; "B"; "B"; "C"] "arn:default"), None),
             (LDAP.Authenticate "alice" Demo.challenge Demo.aliceSig Demo.freshLDAP).1.2,
             (LDAP.Authenticate "alice" Demo.challenge Demo.aliceSig Demo.freshLDAP).2))
    as Hrun by (apply run_eta; vm_compute; reflexivity).
  exact (proj2 (proj1 (@authenticate_returns_key_holder
    Demo.toySSH Demo.forwardRange _ Demo.scriptedLDAP _ Demo.fixedKeysFile)
    _ _ _ _ _ _ _ _ Hrun)).
Defined.

(** X2.  For both caches: when a key of the snapshot verifies the
    signature, [Authenticate] returns a user holding such a key without
    calling [Update] and leaves the cache as it is; when all the keys that
    verify belong to one user, that user is returned, whatever the order in
    which the map is visited. *)
Theorem authenticate_finds_key_in_snapshot
    `{SSH} `{MapRange} {S : Type} `{LDAP.LDAPImplementation S}
    {K : Type} `{KF.KeysFile K} :
  (∀ (luc : LDAP.ldapUserCache S) username challenge sshSig name user key,
     LDAP.Users luc !! name = Some user → key ∈ SSHKeys user →
     Verify key challenge sshSig = None →
     ∃ found,
       LDAP.Authenticate username challenge sshSig luc
       = (Done (Some found, None), luc, [Call "_verify"])
       ∧ (∃ key', key' ∈ SSHKeys found ∧ Verify key' challenge sshSig = None)
       ∧ ((∀ name' user' key', LDAP.Users luc !! name' = Some user' →
             key' ∈ SSHKeys user' → Verify key' challenge sshSig = None → user' = user) →
          found = user))
  ∧ (∀ (kfuc : KF.keysFileUserCache K) username challenge sshSig name user key,
     KF.Users kfuc !! name = Some user → key ∈ SSHKeys user →
     Verify key challenge sshSig = None →
     ∃ found,
       KF.Authenticate username challenge sshSig kfuc
       = (Done (Some found, None), kfuc, [Call "verify"])
       ∧ (∃ key', key' ∈ SSHKeys found ∧ Verify key' challenge sshSig = None)
       ∧ ((∀ name' user' key', KF.Users kfuc !! name' = Some user' →
             key' ∈ SSHKeys user' → Verify key' challenge sshSig = None → user' = user) →
          found = user)).
Proof.
  split.
  - intros luc username challenge sshSig name user key Hname Hkey Hv.
    destruct (scan_range_finds _ _ _ _ _ _ Hname Hkey Hv) as [found Hscan].
    exists found. split; [by apply ldap_Authenticate_hit|].
    apply scan_range_Some in Hscan as (name' & key' & Hname' & Hkey' & Hv').
    split; [eauto|]. intros Hsole. by eapply Hsole.
  - intros kfuc username challenge sshSig name user key Hname Hkey Hv.
    destruct (scan_range_finds _ _ _ _ _ _ Hname Hkey Hv) as [found Hscan].
    exists found. split; [by apply kf_Authenticate_hit|].
    apply scan_range_Some in Hscan as (name' & key' & Hname' & Hkey' & Hv').
    split; [eauto|]. intros Hsole. by eapply Hsole.
Qed.

(** X2 at a cache that holds bob: his signature is accepted under any
    username, with no search. *)
Lemma authenticate_finds_key_in_snapshot_witness :
  ∃ found,
    LDAP.Authenticate "mallory" Demo.challenge ("AAAAbob", Demo.challenge) Demo.downLDAP
    = (Done (Some found, None), Demo.downLDAP, [Call "_verify"])
    ∧ ∃ key', key' ∈ SSHKeys found
              ∧ Verify key' Demo.challenge ("AAAAbob", Demo.challenge) = None.
Proof.
  destruct (proj1 (@authenticate_finds_key_in_snapshot
    Demo.toySSH Demo.forwardRange _ Demo.scriptedLDAP _ Demo.fixedKeysFile)
    Demo.downLDAP "mallory" Demo.challenge ("AAAAbob", Demo.challenge)
    "bob" Demo.bob "AAAAbob") as (found & Hrun & Hkey & _).
  - vm_compute. reflexivity.
  - apply elem_of_cons. by left.
  - vm_compute. reflexivity.
  - exists found. split; [exact Hrun|exact Hkey].
Defined.

(** X3.  For both caches: when [Authenticate] returns an error, the
    snapshot is the one the cache held before the call. *)
Theorem authenticate_error_keeps_snapshot
    `{SSH} `{MapRange} {S : Type} `{LDAP.LDAPImplementation S}
    {K : Type} `{KF.KeysFile K} :
  (∀ (luc luc' : LDAP.ldapUserCache S) username challenge sshSig retUser err evs,
     LDAP.Authenticate username challenge sshSig luc
     = (Done (retUser, Some err), luc', evs) →
     LDAP.Users luc' = LDAP.Users luc)
  ∧ (∀ (kfuc kfuc' : KF.keysFileUserCache K) username challenge sshSig user err evs,
     KF.Authenticate username challenge sshSig kfuc
     = (Done (user, Some err), kfuc', evs) →
     KF.Users kfuc' = KF.Users kfuc).
Proof.
  split.
  - intros luc luc' username challenge sshSig retUser err evs Hrun.
    destruct (scan challenge sshSig (range (LDAP.users luc))) as [found|] eqn:Hscan.
    { by rewrite (ldap_Authenticate_hit _ _ _ _ _ Hscan) in Hrun. }
    rewrite (ldap_Authenticate_miss _ _ _ _ Hscan) in Hrun.
    destruct (LDAP.Update luc) as [[[[err0|]|why] luc0] evs0] eqn:Hup; simplify_eq.
    by eapply ldap_Update_users.
  - intros kfuc kfuc' username challenge sshSig user err evs Hrun.
    destruct (scan challenge sshSig (range (KF.users kfuc))) as [found|] eqn:Hscan.
    { by rewrite (kf_Authenticate_hit _ _ _ _ _ Hscan) in Hrun. }
    rewrite (kf_Authenticate_miss _ _ _ _ Hscan) in Hrun.
    destruct (KF.Update kfuc) as [[[[err0|]|why] kfuc0] evs0] eqn:Hup; simplify_eq.
    by eapply kf_Update_users.
Qed.

(** X3 over a keys file that cannot be read: bob stays. *)
Lemma authenticate_error_keeps_snapshot_witness :
  KF.Users (KF.Authenticate "alice" Demo.challenge Demo.aliceSig Demo.downKF).1.2
  = KF.Users Demo.downKF.
Proof.
  assert (KF.Authenticate "alice" Demo.challenge Demo.aliceSig Demo.downKF
          = (Done (None, Some "open keys.json: no such file"),
             (KF.Authenticate "alice" Demo.challenge Demo.aliceSig Demo.downKF).1.2,
             (KF.Authenticate "alice" Demo.challenge Demo.aliceSig Demo.downKF).2))
    as Hrun by (apply run_eta; vm_compute; reflexivity).
  exact (proj2 (@authenticate_error_keeps_snapshot
    Demo.toySSH Demo.forwardRange _ Demo.scriptedLDAP _ Demo.fixedKeysFile)
    _ _ _ _ _ _ _ _ Hrun).
Defined.

(** X4.  For both caches: once [Authenticate] has returned a user, the same
    challenge and signature presented again to the cache it left, under any
    username and in whatever order the map is visited this time, are
    answered from the snapshot alone: no [Update], no change of the cache,
    and the answer is a user holding a key that verifies, which is the user
    returned before when no other user holds such a key. *)
Theorem authenticate_again_is_a_hit
    `{SSH} {S : Type} `{LDAP.LDAPImplementation S} {K : Type} `{KF.KeysFile K}
    (first again : MapRange) :
  (∀ (luc luc' : LDAP.ldapUserCache S) username challenge sshSig user err evs name,
     @LDAP.Authenticate _ first S _ username challenge sshSig luc
     = (Done (Some user, err), luc', evs) →
     ∃ found,
       @LDAP.Authenticate _ again S _ name challenge sshSig luc'
       = (Done (Some found, None), luc', [Call "_verify"])
       ∧ (∃ key, key ∈ SSHKeys found ∧ Verify key challenge sshSig = None)
       ∧ ((∀ name' user' key', LDAP.Users luc' !! name' = Some user' →
             key' ∈ SSHKeys user' → Verify key' challenge sshSig = None → user' = user) →
          found = user))
  ∧ (∀ (kfuc kfuc' : KF.keysFileUserCache K) username challenge sshSig user err evs name,
     @KF.Authenticate _ first K _ username challenge sshSig kfuc
     = (Done (Some user, err), kfuc', evs) →
     ∃ found,
       @KF.Authenticate _ again K _ name challenge sshSig kfuc'
       = (Done (Some found, None), kfuc', [Call "verify"])
       ∧ (∃ key, key ∈ SSHKeys found ∧ Verify key challenge sshSig = None)
       ∧ ((∀ name' user' key', KF.Users kfuc' !! name' = Some user' →
             key' ∈ SSHKeys user' → Verify key' challenge sshSig = None → user' = user) →
          found = user)).
Proof.
  split.
  - intros luc luc' username challenge sshSig user err evs name Hrun.
    assert (∃ n key, LDAP.users luc' !! n = Some user ∧ key ∈ SSHKeys user
                     ∧ Verify key challenge sshSig = None) as (n & key & Hn & Hkey & Hv).
    { destruct (scan challenge sshSig (@range first _ (LDAP.users luc)))
        as [hit|] eqn:Hscan.
      - rewrite (@ldap_Authenticate_hit _ first _ _ _ _ _ _ _ Hscan) in Hrun.
        simplify_eq. by apply (@scan_range_Some _ first).
      - rewrite (@ldap_Authenticate_miss _ first _ _ _ _ _ _ Hscan) in Hrun.
        destruct (LDAP.Update luc) as [[[[err0|]|why] luc0] evs0];
          simplify_eq. by apply (@scan_range_Some _ first). }
    destruct (@scan_range_finds _ again _ _ _ _ _ _ Hn Hkey Hv) as [found Hscan].
    exists found. split; [by apply ldap_Authenticate_hit|].
    apply scan_range_Some in Hscan as (n' & key' & Hn' & Hkey' & Hv').
    split; [eauto|]. intros Hsole. by eapply Hsole.
  - intros kfuc kfuc' username challenge sshSig user err evs name Hrun.
    assert (∃ n key, KF.users kfuc' !! n = Some user ∧ key ∈ SSHKeys user
                     ∧ Verify key challenge sshSig = None) as (n & key & Hn & Hkey & Hv).
    { destruct (scan challenge sshSig (@range first _ (KF.users kfuc)))
        as [hit|] eqn:Hscan.
      - rewrite (@kf_Authenticate_hit _ first _ _ _ _ _ _ _ Hscan) in Hrun.
        simplify_eq. by apply (@scan_range_Some _ first).
      - rewrite (@kf_Authenticate_miss _ first _ _ _ _ _ _ Hscan) in Hrun.
        destruct (@KF.Update _ first K _ kfuc) as [[[[err0|]|why] kfuc0] evs0];
          simplify_eq. by apply (@scan_range_Some _ first). }
    destruct (@scan_range_finds _ again _ _ _ _ _ _ Hn Hkey Hv) as [found Hscan].
    exists found. split; [by apply kf_Authenticate_hit|].
    apply scan_range_Some in Hscan as (n' & key' & Hn' & Hkey' & Hv').
    split; [eauto|]. intros Hsole. by eapply Hsole.
Qed.

(** X4 at the concrete directory: the first call for alice, which visits
    the map forwards, fetches her; the second call, which visits it
    backwards, finds a holder of a verifying key in the snapshot. *)
Lemma authenticate_again_is_a_hit_witness :
  ∃ found,
    @LDAP.Authenticate _ Demo.backwardRange _ _ "anyone" Demo.challenge Demo.aliceSig
      (@LDAP.Authenticate _ Demo.forwardRange _ _ "alice" Demo.challenge Demo.aliceSig
         Demo.freshLDAP).1.2
    = (Done (Some found, None),
       (@LDAP.Authenticate _ Demo.forwardRange _ _ "alice" Demo.challenge Demo.aliceSig
          Demo.freshLDAP).1.2,
       [Call "_verify"])
    ∧ ∃ key, key ∈ SSHKeys found ∧ Verify key Demo.challenge Demo.aliceSig = None.
Proof.
  assert (@LDAP.Authenticate _ Demo.forwardRange _ _ "alice" Demo.challenge Demo.aliceSig
            Demo.freshLDAP
          = (Done (Some (mkUser "alice" ["AAAAalice"; "alicelaptop"]
                           ["A"; "B"; "B"; "C"] "arn:default"), None),
             (@LDAP.Authenticate _ Demo.forwardRange _ _ "alice" Demo.challenge
                Demo.aliceSig Demo.freshLDAP).1.2,
             (@LDAP.Authenticate _ Demo.forwardRange _ _ "alice" Demo.challenge
                Demo.aliceSig Demo.freshLDAP).2))
    as Hrun by (apply run_eta; vm_compute; reflexivity).
  destruct (proj1 (@authenticate_again_is_a_hit
    Demo.toySSH _ Demo.scriptedLDAP _ Demo.fixedKeysFile
    Demo.forwardRange Demo.backwardRange)
    _ _ _ _ _ _ _ _ "anyone" Hrun) as (found & Hhit & Hkey & _).
  exists found. split; [exact Hhit|exact Hkey].
Defined.

(** ** Maps written entry by entry *)

Section Writes.
Context {X V : Type} (k : X → string) (v : X → V).

Lemma foldl_insert_other (m : gmap string V) l key :
  (∀ x, x ∈ l → k x ≠ key) →
  foldl (λ m x, <[k x := v x]> m) m l !! key = m !! key.
Proof.
  revert m. induction l as [|x l IH]; intros m Hne; [done|].
  simpl. rewrite IH.
  - apply lookup_insert_ne. apply Hne. by left.
  - intros y Hy. apply Hne. by right.
Qed.

Lemma foldl_insert_last (m : gmap string V) pre x post :
  (∀ y, y ∈ post → k y ≠ k x) →
  foldl (λ m x, <[k x := v x]> m) m (pre ++ x :: post) !! k x = Some (v x).
Proof.
  intros Hne. rewrite foldl_app. simpl.
  rewrite foldl_insert_other by done. apply lookup_insert_eq.
Qed.

(** The value written for a key does not depend on the map written over. *)
Lemma foldl_insert_indep (m m' : gmap string V) l key :
  key ∈ k <$> l →
  foldl (λ m x, <[k x := v x]> m) m l !! key
  = foldl (λ m x, <[k x := v x]> m) m' l !! key.
Proof.
  revert m m'. induction l as [|y l IH]; intros m m' Hin.
  - by apply elem_of_nil in Hin.
  - simpl. destruct (decide (key ∈ k <$> l)) as [Htail|Hno]; [by apply IH|].
    apply elem_of_cons in Hin as [->|Hin]; [|done].
    rewrite !foldl_insert_other; [by rewrite !lookup_insert_eq|..];
      intros z Hz Hk; destruct Hno; rewrite <- Hk; by apply list_elem_of_fmap_2.
Qed.

Lemma foldl_insert_idem (m : gmap string V) l :
  foldl (λ m x, <[k x := v x]> m) (foldl (λ m x, <[k x := v x]> m) m l) l
  = foldl (λ m x, <[k x := v x]> m) m l.
Proof.
  apply map_eq. intros key.
  destruct (decide (key ∈ k <$> l)) as [Hin|Hno].
  - by apply foldl_insert_indep.
  - rewrite !foldl_insert_other; [done|..];
      intros x Hx Hk; destruct Hno; rewrite <- Hk; by apply list_elem_of_fmap_2.
Qed.

Lemma foldl_insert_is_Some (m : gmap string V) l key :
  is_Some (foldl (λ m x, <[k x := v x]> m) m l !! key)
  ↔ is_Some (m !! key) ∨ ∃ x, x ∈ l ∧ k x = key.
Proof.
  revert m. induction l as [|x l IH]; intros m; simpl.
  - split; [by left|]. intros [?|(x & Hx & _)]; [done|]. by apply elem_of_nil in Hx.
  - rewrite IH, lookup_insert. case_decide as Hk; split.
    + intros [_|(y & Hy & Hky)]; right; [exists x|exists y]; split; try done;
        [by left|by right].
    + intros _. left. eauto.
    + intros [?|(y & Hy & Hky)]; [by left|]. right. exists y. split; [by right|done].
    + intros [?|(y & [->|Hy]%elem_of_cons & Hky)]; [by left|done|]. right. eauto.
Qed.

End Writes.

(** ** The users the LDAP [Update] writes *)

(** X5.  Without role support, a successful [Update] of the LDAP cache
    issues the user search only (the server is left in the state that search
    left it in), leaves the group map as it is, and gives the user of an
    entry (the last one of its username) no ARNs and the cache-wide default
    role, whatever [memberOf] and default-role attributes the entry
    carries. *)
Theorem ldap_update_without_role_support
    `{SSH} `{MapRange} {S : Type} `{LDAP.LDAPImplementation S}
    (luc : LDAP.ldapUserCache S) res s1 pre entry post :
  LDAP.enableServerRoles luc = false →
  LDAP.Search (LDAP.server luc) (LDAP.searchRequest luc) = (Ok res, s1) →
  LDAP.Entries res = pre ++ entry :: post →
  (∀ e, e ∈ post →
     LDAP.GetAttributeValue e (LDAP.userAttr luc)
     ≠ LDAP.GetAttributeValue entry (LDAP.userAttr luc)) →
  ∃ luc' evs user,
    LDAP.Update luc = (Done None, luc', evs)
    ∧ LDAP.server luc' = s1
    ∧ LDAP.groups luc' = LDAP.groups luc
    ∧ LDAP.Users luc' !! LDAP.GetAttributeValue entry (LDAP.userAttr luc) = Some user
    ∧ ARNs user = []
    ∧ DefaultRole user = LDAP.defaultRole luc.
Proof.
  intros Hen Hu Hentries Hlast.
  rewrite (Update_without_roles _ _ _ Hen Hu).
  eexists _, _, _. split; [reflexivity|].
  unfold LDAP.Users. simpl. rewrite Hentries.
  split; [done|]. split; [done|].
  split; [by apply patch_users_last|].
  unfold entry_user, entry_arns, entry_defaultRole. simpl. by rewrite Hen.
Qed.

(** X5 at the cache without role support: alice's entry lists three groups,
    and she is given no ARNs. *)
Lemma ldap_update_without_role_support_witness :
  ∃ luc' evs user,
    LDAP.Update Demo.staleLDAP = (Done None, luc', evs)
    ∧ LDAP.Users luc' !! "alice" = Some user
    ∧ ARNs user = [] ∧ DefaultRole user = "arn:default".
Proof.
  destruct (@ldap_update_without_role_support
    Demo.toySSH Demo.forwardRange _ Demo.scriptedLDAP Demo.staleLDAP
    (LDAP.mkSearchResult [Demo.aliceEntry]) [] [] Demo.aliceEntry []
    eq_refl eq_refl eq_refl)
    as (luc' & evs & user & Hup & _ & _ & Huser & Harns & Hrole).
  { intros e Hin. by apply elem_of_nil in Hin. }
  exists luc', evs, user. split; [exact Hup|]. split; [exact Huser|].
  split; [exact Harns|exact Hrole].
Defined.

(** X6.  With role support and both searches successful, the default role
    of the user of an entry (the last one of its username) is the first
    value of the entry's default-role attribute when that value is not
    empty, and the cache-wide default role when the entry has no such
    attribute or its first value is empty; further values are ignored. *)
Theorem ldap_default_role_of_entry
    `{SSH} `{MapRange} {S : Type} `{LDAP.LDAPImplementation S}
    (luc : LDAP.ldapUserCache S) gres res s1 s2 pre entry post :
  LDAP.enableServerRoles luc = true →
  LDAP.Search (LDAP.server luc) (LDAP.groupSearchRequest luc) = (Ok gres, s1) →
  LDAP.Search s1 (LDAP.searchRequest luc) = (Ok res, s2) →
  LDAP.Entries res = pre ++ entry :: post →
  (∀ e, e ∈ post →
     LDAP.GetAttributeValue e (LDAP.userAttr luc)
     ≠ LDAP.GetAttributeValue entry (LDAP.userAttr luc)) →
  ∃ luc' evs user,
    LDAP.Update luc = (Done None, luc', evs)
    ∧ LDAP.Users luc' !! LDAP.GetAttributeValue entry (LDAP.userAttr luc) = Some user
    ∧ (LDAP.GetAttributeValues entry (LDAP.defaultRoleAttr luc) = [] →
       DefaultRole user = LDAP.defaultRole luc)
    ∧ (∀ rest, LDAP.GetAttributeValues entry (LDAP.defaultRoleAttr luc) = "" :: rest →
       DefaultRole user = LDAP.defaultRole luc)
    ∧ (∀ role rest,
         LDAP.GetAttributeValues entry (LDAP.defaultRoleAttr luc) = role :: rest →
         role ≠ "" → DefaultRole user = role).
Proof.
  intros Hen Hg Hu Hentries Hlast.
  rewrite (Update_with_roles _ _ _ _ _ Hen Hg Hu).
  eexists _, _, _. split; [reflexivity|].
  unfold LDAP.Users. simpl. rewrite Hentries.
  split; [by apply patch_users_last|].
  unfold entry_user, entry_defaultRole, LDAP.GetAttributeValue. simpl. rewrite Hen.
  split; [by intros ->|]. split; [by intros rest ->|].
  intros role rest -> Hrole. by rewrite decide_False.
Qed.

(** X6 at the concrete directory: carol's entry carries no default role. *)
Lemma ldap_default_role_of_entry_witness :
  ∃ luc' evs user,
    LDAP.Update Demo.freshLDAP = (Done None, luc', evs)
    ∧ LDAP.Users luc' !! "carol" = Some user
    ∧ DefaultRole user = "arn:default".
Proof.
  destruct (@ldap_default_role_of_entry
    Demo.toySSH Demo.forwardRange _ Demo.scriptedLDAP Demo.freshLDAP
    (LDAP.mkSearchResult Demo.groupEntries)
    (LDAP.mkSearchResult [Demo.aliceEntry; Demo.carolEntry])
    [Ok (LDAP.mkSearchResult [Demo.aliceEntry; Demo.carolEntry])] []
    [Demo.aliceEntry] Demo.carolEntry [] eq_refl eq_refl eq_refl eq_refl)
    as (luc' & evs & user & Hup & Huser & Hnone & _).
  { intros e Hin. by apply elem_of_nil in Hin. }
  exists luc', evs, user. split; [exact Hup|]. split; [exact Huser|].
  apply Hnone. reflexivity.
Defined.

(** X7.  An entry that lacks the username attribute raises no error: once
    the user search has succeeded, [Update] stores its user under the empty
    username, with the empty string as [Username] and the keys of its values
    that parse. *)
Theorem ldap_entry_without_username
    `{SSH} `{MapRange} {S : Type} `{LDAP.LDAPImplementation S}
    (luc : LDAP.ldapUserCache S) s res s2 pre entry post :
  before_user_search luc = Some s →
  LDAP.Search s (LDAP.searchRequest luc) = (Ok res, s2) →
  LDAP.Entries res = pre ++ entry :: post →
  LDAP.GetAttributeValues entry (LDAP.userAttr luc) = [] →
  (∀ e, e ∈ post → LDAP.GetAttributeValue e (LDAP.userAttr luc) ≠ "") →
  ∃ luc' evs user,
    LDAP.Update luc = (Done None, luc', evs)
    ∧ LDAP.Users luc' !! "" = Some user
    ∧ Username user = ""
    ∧ SSHKeys user = omap parse_key (LDAP.GetAttributeValues entry "sshPublicKey").
Proof.
  intros Hs Hu Hentries Hnone Hlast.
  destruct (Update_searched _ _ _ _ Hs Hu) as [groupEntries ->].
  assert (entry_username luc entry = "") as Hname.
  { unfold entry_username, LDAP.GetAttributeValue. by rewrite Hnone. }
  eexists _, _, _. split; [reflexivity|].
  unfold LDAP.Users. simpl. rewrite Hentries.
  split; [|split].
  - rewrite <- Hname at 1. apply patch_users_last.
    intros e He. rewrite Hname. by apply Hlast.
  - done.
  - done.
Qed.

(** X7 at a directory that returns an entry without [cn]. *)
Lemma ldap_entry_without_username_witness :
  ∃ luc' evs user,
    LDAP.Update Demo.namelessLDAP = (Done None, luc', evs)
    ∧ LDAP.Users luc' !! "" = Some user
    ∧ Username user = ""
    ∧ SSHKeys user = ["AAAAghost"].
Proof.
  destruct (@ldap_entry_without_username
    Demo.toySSH Demo.forwardRange _ Demo.scriptedLDAP Demo.namelessLDAP
    [Ok (LDAP.mkSearchResult [Demo.aliceEntry; Demo.namelessEntry])]
    (LDAP.mkSearchResult [Demo.aliceEntry; Demo.namelessEntry]) []
    [Demo.aliceEntry] Demo.namelessEntry [] eq_refl eq_refl eq_refl eq_refl)
    as (luc' & evs & user & Hup & Huser & Hname & Hkeys).
  { intros e Hin. by apply elem_of_nil in Hin. }
  exists luc', evs, user. split; [exact Hup|]. split; [exact Huser|].
  split; [exact Hname|]. rewrite Hkeys. vm_compute. reflexivity.
Defined.

(** ** Refreshing twice *)

(** A loop whose body never looks at the receiver does not either. *)
Lemma for_fold_blind {C B L} (l : list B) (acc : L) (body : L → B → M C L) :
  (∀ acc x, ∃ o evs, ∀ c, body acc x c = (o, c, evs)) →
  ∃ o evs, ∀ c, for_fold l acc body c = (o, c, evs).
Proof.
  intros Hbody. revert acc. induction l as [|x l IH]; intros acc.
  - by exists (Done acc), [].
  - destruct (Hbody acc x) as (o & e1 & Hx). destruct o as [acc1|why].
    + destruct (IH acc1) as (o2 & e2 & Hl). exists o2, (e1 ++ e2).
      intros c. mrun. by rewrite Hx, Hl.
    + exists (Panicked why), e1. intros c. mrun. by rewrite Hx.
Qed.

Section KFBlind.
Context `{SSH} `{MapRange} {K : Type} `{KF.KeysFile K}.
Import KF.

Lemma add_role_blind username acc r :
  ∃ o evs, ∀ c : keysFileUserCache K, add_role username acc r c = (o, c, evs).
Proof.
  destruct acc as [user seenRoles]. unfold add_role.
  destruct r as [|role|l|tag]; try (eexists _, _; intros c; mrun; reflexivity).
  destruct (seen seenRoles username role) eqn:Hseen;
    eexists _, _; intros c; mrun; rewrite Hseen; reflexivity.
Qed.

(** The body of the record loop never looks at the cache. *)
Lemma record_key_blind (kfuc : keysFileUserCache K) acc kv :
  ∃ o evs, ∀ c, record_key kfuc acc kv c = (o, c, evs).
Proof.
  destruct acc as [users seenRoles], kv as [key userData]. unfold record_key.
  destruct (index userData (userAttr kfuc)) as [|u| |] eqn:Hu;
    try (eexists _, _; intros c; mrun; reflexivity).
  destruct (parse_key key) as [sshKey|] eqn:Hparse;
    [|eexists _, _; intros c; mrun; reflexivity].
  destruct (enableServerRoles kfuc) eqn:Hen;
    [|eexists _, _; intros c; mrun; reflexivity].
  destruct (index userData (roleAttr kfuc)) as [| |roles|] eqn:Hroles;
    try (eexists _, _; intros c; mrun; reflexivity).
  destruct (for_fold_blind roles
              (add_SSHKey sshKey
                 match users !! u with
                 | Some user => user
                 | None => mkUser u [] [] (record_defaultRole kfuc userData)
                 end, seenRoles)
              (add_role (K:=K) u) (add_role_blind u)) as (o & evs & Hloop).
  destruct o as [[user' seen']|why];
    eexists _, _; intros c; mrun; rewrite Hloop; reflexivity.
Qed.

End KFBlind.

Section LDAPUpdated.
Context `{SSH} {S : Type}.
Import LDAP.

Lemma users_updated (luc : ldapUserCache S) s groupEntries entries :
  users (updated luc s groupEntries entries)
  = patch_users luc (patch_groups luc groupEntries (groups luc)) entries (users luc).
Proof. reflexivity. Qed.

Lemma groups_updated (luc : ldapUserCache S) s groupEntries entries :
  groups (updated luc s groupEntries entries)
  = patch_groups luc groupEntries (groups luc).
Proof. reflexivity. Qed.

(** The loops of a later [Update] run under the same configuration. *)
Lemma patch_groups_updated (luc : ldapUserCache S) s groupEntries entries l g :
  patch_groups (updated luc s groupEntries entries) l g = patch_groups luc l g.
Proof. reflexivity. Qed.

Lemma patch_users_updated (luc : ldapUserCache S) s groupEntries entries g l m :
  patch_users (updated luc s groupEntries entries) g l m = patch_users luc g l m.
Proof. reflexivity. Qed.

End LDAPUpdated.

(** X8.  Two [Update]s in a row over a directory that answers both alike
    leave the same snapshot: for the LDAP cache with role support (the group
    map is the same as well), for the LDAP cache without, and for the
    keys-file cache over a file whose records are visited in the same
    order. *)
Theorem update_twice_same_snapshot
    `{SSH} `{MapRange} {S : Type} `{LDAP.LDAPImplementation S}
    {K : Type} `{KF.KeysFile K} :
  (∀ (luc : LDAP.ldapUserCache S) gres res s1 s2 s3 s4,
     LDAP.enableServerRoles luc = true →
     LDAP.Search (LDAP.server luc) (LDAP.groupSearchRequest luc) = (Ok gres, s1) →
     LDAP.Search s1 (LDAP.searchRequest luc) = (Ok res, s2) →
     LDAP.Search s2 (LDAP.groupSearchRequest luc) = (Ok gres, s3) →
     LDAP.Search s3 (LDAP.searchRequest luc) = (Ok res, s4) →
     ∃ luc1 evs1 luc2 evs2,
       LDAP.Update luc = (Done None, luc1, evs1)
       ∧ LDAP.Update luc1 = (Done None, luc2, evs2)
       ∧ LDAP.Users luc2 = LDAP.Users luc1
       ∧ LDAP.groups luc2 = LDAP.groups luc1)
  ∧ (∀ (luc : LDAP.ldapUserCache S) res s1 s2,
     LDAP.enableServerRoles luc = false →
     LDAP.Search (LDAP.server luc) (LDAP.searchRequest luc) = (Ok res, s1) →
     LDAP.Search s1 (LDAP.searchRequest luc) = (Ok res, s2) →
     ∃ luc1 evs1 luc2 evs2,
       LDAP.Update luc = (Done None, luc1, evs1)
       ∧ LDAP.Update luc1 = (Done None, luc2, evs2)
       ∧ LDAP.Users luc2 = LDAP.Users luc1)
  ∧ (∀ (kfuc kfuc1 : KF.keysFileUserCache K) (keys : KF.KeysMap) k1 k2 k3 k4 evs1,
     KF.Load (KF.keysFile kfuc) = (None, k1) → KF.Keys k1 = (Ok keys, k2) →
     KF.Load k2 = (None, k3) → KF.Keys k3 = (Ok keys, k4) →
     KF.Update kfuc = (Done None, kfuc1, evs1) →
     ∃ kfuc2 evs2,
       KF.Update kfuc1 = (Done None, kfuc2, evs2)
       ∧ KF.Users kfuc2 = KF.Users kfuc1).
Proof.
  split; [|split].
  - intros luc gres res s1 s2 s3 s4 Hen Hg Hu Hg2 Hu2.
    rewrite (Update_with_roles _ _ _ _ _ Hen Hg Hu).
    eexists _, _, _, _. split; [reflexivity|].
    rewrite (Update_with_roles (updated luc s2 (LDAP.Entries gres) (LDAP.Entries res))
               gres res s3 s4 Hen Hg2 Hu2).
    split; [reflexivity|].
    unfold LDAP.Users. rewrite !users_updated, !groups_updated.
    rewrite !patch_groups_updated, !patch_users_updated.
    assert (patch_groups luc (LDAP.Entries gres)
              (patch_groups luc (LDAP.Entries gres) (LDAP.groups luc))
            = patch_groups luc (LDAP.Entries gres) (LDAP.groups luc)) as ->
      by apply foldl_insert_idem.
    split; [|done]. apply foldl_insert_idem.
  - intros luc res s1 s2 Hen Hu Hu2.
    rewrite (Update_without_roles _ _ _ Hen Hu).
    eexists _, _, _, _. split; [reflexivity|].
    rewrite (Update_without_roles (updated luc s1 [] (LDAP.Entries res)) res s2 Hen Hu2).
    split; [reflexivity|].
    unfold LDAP.Users. rewrite !users_updated, !groups_updated.
    rewrite !patch_groups_updated, !patch_users_updated.
    apply foldl_insert_idem.
  - intros kfuc kfuc1 keys k1 k2 k3 k4 evs1 Hl Hk Hl2 Hk2 Hup.
    rewrite (Update_loaded _ _ _ _ Hl Hk) in Hup.
    destruct (for_fold_blind (range keys) (∅, ∅) (KF.record_key kfuc)
                (record_key_blind kfuc)) as (o & evs & Hloop).
    rewrite Hloop in Hup. destruct o as [acc|why]; [|done].
    injection Hup as <- _.
    rewrite (Update_loaded (KF.set_users acc.1 (KF.set_keysFile k2 kfuc)) keys k3 k4 Hl2 Hk2).
    change (KF.record_key (KF.set_users acc.1 (KF.set_keysFile k2 kfuc)))
      with (KF.record_key kfuc).
    rewrite Hloop. eexists _, _. split; [reflexivity|done].
Qed.

(** X8 at the concrete directory, searched twice. *)
Lemma update_twice_same_snapshot_witness :
  ∃ luc1 evs1 luc2 evs2,
    LDAP.Update Demo.steadyLDAP = (Done None, luc1, evs1)
    ∧ LDAP.Update luc1 = (Done None, luc2, evs2)
    ∧ LDAP.Users luc2 = LDAP.Users luc1.
Proof.
  destruct (proj1 (@update_twice_same_snapshot
    Demo.toySSH Demo.forwardRange _ Demo.scriptedLDAP _ Demo.fixedKeysFile)
    Demo.steadyLDAP (LDAP.mkSearchResult Demo.groupEntries)
    (LDAP.mkSearchResult [Demo.aliceEntry; Demo.carolEntry])
    [Ok (LDAP.mkSearchResult [Demo.aliceEntry; Demo.carolEntry]);
     Ok (LDAP.mkSearchResult Demo.groupEntries);
     Ok (LDAP.mkSearchResult [Demo.aliceEntry; Demo.carolEntry])]
    [Ok (LDAP.mkSearchResult Demo.groupEntries);
     Ok (LDAP.mkSearchResult [Demo.aliceEntry; Demo.carolEntry])]
    [Ok (LDAP.mkSearchResult [Demo.aliceEntry; Demo.carolEntry])] []
    eq_refl eq_refl eq_refl eq_refl eq_refl)
    as (luc1 & evs1 & luc2 & evs2 & Hup1 & Hup2 & Husers & _).
  exists luc1, evs1, luc2, evs2. split; [exact Hup1|]. split; [exact Hup2|exact Husers].
Defined.

(** ** Invariants of the snapshot *)

Section LDAPInvariants.
Context `{SSH} `{MapRange} {S : Type} `{LDAP.LDAPImplementation S}.
Import LDAP.

(** The users a successful [Update] leaves: those of some entries, written
    over the users held before. *)
Lemma ldap_Update_writes (luc luc' : ldapUserCache S) evs :
  Update luc = (Done None, luc', evs) →
  ∃ g entries, users luc' = patch_users luc g entries (users luc).
Proof.
  destruct (enableServerRoles luc) eqn:Hen.
  - destruct (Search (server luc) (groupSearchRequest luc)) as [[gres|err1] s1] eqn:Hg.
    + destruct (Search s1 (searchRequest luc)) as [[res|err2] s2] eqn:Hu.
      * rewrite (Update_with_roles _ _ _ _ _ Hen Hg Hu). intros [= <- _]. eauto.
      * by rewrite (Update_user_search_fails _ _ _ _ _ Hen Hg Hu).
    + by rewrite (Update_group_search_fails _ _ _ Hen Hg).
  - destruct (Search (server luc) (searchRequest luc)) as [[res|err2] s1] eqn:Hu.
    + rewrite (Update_without_roles _ _ _ Hen Hu). intros [= <- _]. eauto.
    + by rewrite (Update_without_roles_fails _ _ _ Hen Hu).
Qed.

(** A property of the users that every written user has and the users held
    before had holds of the users after any [Update]. *)
Lemma ldap_Update_users_ind (P : string → User → Prop) (luc luc' : ldapUserCache S) r evs :
  (∀ g entry, P (entry_username luc entry) (entry_user luc g entry)) →
  (∀ name user, users luc !! name = Some user → P name user) →
  Update luc = (r, luc', evs) →
  ∀ name user, users luc' !! name = Some user → P name user.
Proof.
  intros Hnew Hold Hup.
  destruct r as [[err|]|why];
    [by rewrite (ldap_Update_users _ _ _ _ Hup)| |by rewrite (ldap_Update_users _ _ _ _ Hup)].
  apply ldap_Update_writes in Hup as (g & entries & ->).
  revert Hold. generalize (users luc).
  induction entries as [|e entries IH]; intros m Hm name user; [apply Hm|].
  simpl. apply IH. intros n u. rewrite lookup_insert. case_decide as Hn.
  - intros [= <-]. rewrite <- Hn. apply Hnew.
  - apply Hm.
Qed.

(** [Authenticate] leaves the cache as it was or as its one [Update] left
    it. *)
Lemma ldap_Authenticate_cache username challenge sshSig (luc luc' : ldapUserCache S) r evs :
  Authenticate username challenge sshSig luc = (r, luc', evs) →
  luc' = luc ∨ ∃ r0 evs0, Update luc = (r0, luc', evs0).
Proof.
  destruct (scan challenge sshSig (range (users luc))) as [found|] eqn:Hscan.
  - rewrite (ldap_Authenticate_hit _ _ _ _ _ Hscan). intros [= _ <- _]. by left.
  - rewrite (ldap_Authenticate_miss _ _ _ _ Hscan).
    destruct (Update luc) as [[[[err0|]|why] luc0] evs0]; intros [= _ <- _]; right; eauto.
Qed.

End LDAPInvariants.

Section KFInvariants.
Context `{SSH} `{MapRange} {K : Type} `{KF.KeysFile K}.
Import KF.

(** The users a successful [Update] leaves are those built from the records
    of some keys map. *)
Lemma kf_Update_builds (kfuc kfuc' : keysFileUserCache K) evs :
  Update kfuc = (Done None, kfuc', evs) →
  ∃ keys : KeysMap, ∀ u, users kfuc' !! u = user_from kfuc u (range keys).
Proof.
  intros Hup.
  destruct (Load (keysFile kfuc)) as [[err|] k1] eqn:Hl.
  { by rewrite (Update_load_fails _ _ _ Hl) in Hup. }
  destruct (Keys k1) as [[keys|err] k2] eqn:Hk.
  - exists keys. by apply (kf_Update_snapshot _ _ _ _ _ _ Hl Hk Hup).
  - by rewrite (Update_keys_fails _ _ _ _ Hl Hk) in Hup.
Qed.

Lemma kf_Update_users_ind (P : string → User → Prop) (kfuc kfuc' : keysFileUserCache K) r evs :
  (∀ u recs user, user_from kfuc u recs = Some user → P u user) →
  (∀ name user, users kfuc !! name = Some user → P name user) →
  Update kfuc = (r, kfuc', evs) →
  ∀ name user, users kfuc' !! name = Some user → P name user.
Proof.
  intros Hnew Hold Hup.
  destruct r as [[err|]|why];
    [by rewrite (kf_Update_users _ _ _ _ Hup)| |by rewrite (kf_Update_users _ _ _ _ Hup)].
  apply kf_Update_builds in Hup as (keys & Husers).
  intros name user. rewrite Husers. apply Hnew.
Qed.

Lemma kf_Authenticate_cache username challenge sshSig (kfuc kfuc' : keysFileUserCache K) r evs :
  Authenticate username challenge sshSig kfuc = (r, kfuc', evs) →
  kfuc' = kfuc ∨ ∃ r0 evs0, Update kfuc = (r0, kfuc', evs0).
Proof.
  destruct (scan challenge sshSig (range (users kfuc))) as [found|] eqn:Hscan.
  - rewrite (kf_Authenticate_hit _ _ _ _ _ Hscan). intros [= _ <- _]. by left.
  - rewrite (kf_Authenticate_miss _ _ _ _ Hscan).
    destruct (Update kfuc) as [[[[err0|]|why] kfuc0] evs0]; intros [= _ <- _]; right; eauto.
Qed.

Lemma record_defaultRole_set (kfuc : keysFileUserCache K) userData :
  defaultRole kfuc ≠ "" → record_defaultRole kfuc userData ≠ "".
Proof.
  intros Hdef. unfold record_defaultRole, string_ok.
  destruct (index userData (defaultRoleAttr kfuc)) as [|s| |]; simpl; try done.
  case_bool_decide; done.
Qed.

End KFInvariants.

(** X9.  In both caches, a snapshot in which every user is stored under its
    own username stays so across [Update] and [Authenticate], whatever they
    return; and a user returned by [Authenticate] on such a cache is the
    snapshot's entry for the user's own username. *)
Theorem snapshot_keyed_by_username
    `{SSH} `{MapRange} {S : Type} `{LDAP.LDAPImplementation S}
    {K : Type} `{KF.KeysFile K} :
  (∀ (luc luc' : LDAP.ldapUserCache S) r evs,
     keyed_by_username (LDAP.Users luc) → LDAP.Update luc = (r, luc', evs) →
     keyed_by_username (LDAP.Users luc'))
  ∧ (∀ (luc luc' : LDAP.ldapUserCache S) username challenge sshSig r evs,
     keyed_by_username (LDAP.Users luc) →
     LDAP.Authenticate username challenge sshSig luc = (r, luc', evs) →
     keyed_by_username (LDAP.Users luc')
     ∧ ∀ user err, r = Done (Some user, err) →
         LDAP.Users luc' !! Username user = Some user)
  ∧ (∀ (kfuc kfuc' : KF.keysFileUserCache K) r evs,
     keyed_by_username (KF.Users kfuc) → KF.Update kfuc = (r, kfuc', evs) →
     keyed_by_username (KF.Users kfuc'))
  ∧ (∀ (kfuc kfuc' : KF.keysFileUserCache K) username challenge sshSig r evs,
     keyed_by_username (KF.Users kfuc) →
     KF.Authenticate username challenge sshSig kfuc = (r, kfuc', evs) →
     keyed_by_username (KF.Users kfuc')
     ∧ ∀ user err, r = Done (Some user, err) →
         KF.Users kfuc' !! Username user = Some user).
Proof.
  assert (∀ (luc luc' : LDAP.ldapUserCache S) r evs,
     keyed_by_username (LDAP.Users luc) → LDAP.Update luc = (r, luc', evs) →
     keyed_by_username (LDAP.Users luc')) as Hldap.
  { intros luc luc' r evs Hkeyed Hup.
    exact (ldap_Update_users_ind (λ name user, Username user = name) _ _ _ _
             (λ _ _, eq_refl) Hkeyed Hup). }
  assert (∀ (kfuc kfuc' : KF.keysFileUserCache K) r evs,
     keyed_by_username (KF.Users kfuc) → KF.Update kfuc = (r, kfuc', evs) →
     keyed_by_username (KF.Users kfuc')) as Hkf.
  { intros kfuc kfuc' r evs Hkeyed Hup.
    exact (kf_Update_users_ind (λ name user, Username user = name) _ _ _ _
             (user_from_Username kfuc) Hkeyed Hup). }
  split; [exact Hldap|]. split; [|split; [exact Hkf|]].
  - intros luc luc' username challenge sshSig r evs Hkeyed Hrun.
    assert (keyed_by_username (LDAP.Users luc')) as Hkeyed'.
    { destruct (ldap_Authenticate_cache _ _ _ _ _ _ _ Hrun) as [->|(r0 & evs0 & Hup)];
        [done|by eapply Hldap]. }
    split; [done|]. intros user err ->.
    destruct (scan challenge sshSig (range (LDAP.users luc))) as [found|] eqn:Hscan.
    + rewrite (ldap_Authenticate_hit _ _ _ _ _ Hscan) in Hrun. simplify_eq.
      apply scan_range_Some in Hscan as (name & key & Hname & _).
      by rewrite (Hkeyed' _ _ Hname).
    + rewrite (ldap_Authenticate_miss _ _ _ _ Hscan) in Hrun.
      destruct (LDAP.Update luc) as [[[[err0|]|why] luc0] evs0]; simplify_eq.
      match goal with Hs : scan _ _ _ = Some _ |- _ =>
        apply scan_range_Some in Hs as (name & key & Hname & _) end.
      by rewrite (Hkeyed' _ _ Hname).
  - intros kfuc kfuc' username challenge sshSig r evs Hkeyed Hrun.
    assert (keyed_by_username (KF.Users kfuc')) as Hkeyed'.
    { destruct (kf_Authenticate_cache _ _ _ _ _ _ _ Hrun) as [->|(r0 & evs0 & Hup)];
        [done|by eapply Hkf]. }
    split; [done|]. intros user err ->.
    destruct (scan challenge sshSig (range (KF.users kfuc))) as [found|] eqn:Hscan.
    + rewrite (kf_Authenticate_hit _ _ _ _ _ Hscan) in Hrun. simplify_eq.
      apply scan_range_Some in Hscan as (name & key & Hname & _).
      by rewrite (Hkeyed' _ _ Hname).
    + rewrite (kf_Authenticate_miss _ _ _ _ Hscan) in Hrun.
      destruct (KF.Update kfuc) as [[[[err0|]|why] kfuc0] evs0]; simplify_eq.
      match goal with Hs : scan _ _ _ = Some _ |- _ =>
        apply scan_range_Some in Hs as (name & key & Hname & _) end.
      by rewrite (Hkeyed' _ _ Hname).
Qed.

(** X9 at the concrete directory: alice, returned after the refresh of an
    empty cache, is the snapshot's entry for [alice]. *)
Lemma snapshot_keyed_by_username_witness :
  LDAP.Users (LDAP.Authenticate "bob" Demo.challenge Demo.aliceSig Demo.freshLDAP).1.2
    !! "alice"
  = Some (mkUser "alice" ["AAAAalice"; "alicelaptop"] ["A"; "B"; "B"; "C"] "arn:default").
Proof.
  assert (keyed_by_username (LDAP.Users Demo.freshLDAP)) as Hkeyed.
  { intros name user Hname. change ((∅ : gmap string User) !! name = Some user) in Hname.
    by rewrite lookup_empty in Hname. }
  exact (proj2 (proj1 (proj2 (@snapshot_keyed_by_username
    Demo.toySSH Demo.forwardRange _ Demo.scriptedLDAP _ Demo.fixedKeysFile))
    Demo.freshLDAP _ "bob" Demo.challenge Demo.aliceSig _ _ Hkeyed
    (run_eta (LDAP.Authenticate "bob" Demo.challenge Demo.aliceSig Demo.freshLDAP) _ eq_refl))
    (mkUser "alice" ["AAAAalice"; "alicelaptop"] ["A"; "B"; "B"; "C"] "arn:default")
    None ltac:(vm_compute; reflexivity)).
Defined.

(** X10.  In both caches, when the cache-wide default role is not empty, a
    snapshot without empty default roles stays so across [Update], whatever
    it returns: no user is ever written with an empty default role. *)
Theorem default_roles_stay_set
    `{SSH} `{MapRange} {S : Type} `{LDAP.LDAPImplementation S}
    {K : Type} `{KF.KeysFile K} :
  (∀ (luc luc' : LDAP.ldapUserCache S) r evs,
     LDAP.defaultRole luc ≠ "" →
     default_roles_set (LDAP.Users luc) → LDAP.Update luc = (r, luc', evs) →
     default_roles_set (LDAP.Users luc'))
  ∧ (∀ (kfuc kfuc' : KF.keysFileUserCache K) r evs,
     KF.defaultRole kfuc ≠ "" →
     default_roles_set (KF.Users kfuc) → KF.Update kfuc = (r, kfuc', evs) →
     default_roles_set (KF.Users kfuc')).
Proof.
  split.
  - intros luc luc' r evs Hdef Hset Hup.
    refine (ldap_Update_users_ind (λ _ user, DefaultRole user ≠ "") _ _ _ _ _ Hset Hup).
    intros g entry. unfold entry_user, entry_defaultRole. simpl.
    destruct (LDAP.enableServerRoles luc); [|done]. by case_decide.
  - intros kfuc kfuc' r evs Hdef Hset Hup.
    refine (kf_Update_users_ind (λ _ user, DefaultRole user ≠ "") _ _ _ _ _ Hset Hup).
    intros u recs user. unfold user_from.
    destruct (filter (usable kfuc u) recs) as [|[k0 d0] good]; [done|].
    intros [= <-]. simpl. by apply record_defaultRole_set.
Qed.

(** X10 at the concrete keys file: every user of the refreshed snapshot has
    a default role. *)
Lemma default_roles_stay_set_witness :
  default_roles_set (KF.Users (KF.Update Demo.freshKF).1.2).
Proof.
  apply (proj2 (@default_roles_stay_set
    Demo.toySSH Demo.forwardRange _ Demo.scriptedLDAP _ Demo.fixedKeysFile)
    Demo.freshKF _ (KF.Update Demo.freshKF).1.1 (KF.Update Demo.freshKF).2).
  - discriminate.
  - intros name user Hname. change ((∅ : gmap string User) !! name = Some user) in Hname.
    by rewrite lookup_empty in Hname.
  - by destruct (KF.Update Demo.freshKF) as [[r c] evs].
Defined.

(** ** The users and the panics of the keys-file [Update] *)

Section KFUsers.
Context `{SSH} `{MapRange} {K : Type} `{KF.KeysFile K}.
Import KF.

Lemma usable_keys_length (kfuc : keysFileUserCache K) u
    (recs : list (string * gmap string iface)) :
  List.length (omap (λ kv : string * gmap string iface, parse_key kv.1)
            (filter (usable kfuc u) recs))
  = List.length (filter (usable kfuc u) recs).
Proof.
  induction recs as [|[key userData] recs IH]; [done|].
  destruct (decide (usable kfuc u (key, userData))) as [Hyes|Hno].
  - rewrite (filter_cons_True _ _ _ Hyes). destruct Hyes as [_ [sshKey Hparse]].
    change (omap (λ kv : string * gmap string iface, parse_key kv.1)
              ((key, userData) :: filter (usable kfuc u) recs))
      with (match parse_key (key, userData).1 with
            | Some y => y :: omap (λ kv : string * gmap string iface, parse_key kv.1)
                               (filter (usable kfuc u) recs)
            | None => omap (λ kv : string * gmap string iface, parse_key kv.1)
                        (filter (usable kfuc u) recs)
            end).
    rewrite Hparse. cbn [List.length]. by rewrite IH.
  - by rewrite (filter_cons_False _ _ _ Hno).
Qed.

(** The role loop ends without a panic exactly on strings. *)
Lemma add_roles_returns username roles acc (c : keysFileUserCache K) :
  (∃ acc' evs, for_fold roles acc (add_role username) c = (Done acc', c, evs))
  ↔ ∀ r, r ∈ roles → ∃ role, r = IString role.
Proof.
  revert acc. induction roles as [|v roles IH]; intros acc.
  - split; [by intros _ r ?%elem_of_nil|]. intros _. by exists acc, [].
  - destruct acc as [user seenRoles]. split.
    + intros (acc' & evs & Hrun) r Hin. mrun_in Hrun.
      destruct v as [|role|l|tag]; mrun_in Hrun; try discriminate.
      apply elem_of_cons in Hin as [->|Hin]; [eauto|].
      destruct (seen seenRoles username role); mrun_in Hrun;
        match type of Hrun with
        | context [for_fold roles ?a _ c] =>
            destruct (for_fold roles a (add_role username) c)
              as [[[acc1|why] c1] e1] eqn:Hrest; [|discriminate];
            pose proof (inert_for_fold roles a (add_role (K:=K) username)
                          (inert_add_role username) c) as [Hc _];
            rewrite Hrest in Hc; simpl in Hc; subst c1;
            apply (proj1 (IH a)); eauto
        end.
    + intros Hall. destruct (Hall v) as [role ->]; [by left|].
      mrun. destruct (seen seenRoles username role); mrun;
        match goal with
        | |- context [for_fold roles ?a _ c] =>
            destruct (proj2 (IH a)) as (acc' & evs & ->);
              [intros r Hr; apply Hall; by right|]; eauto
        end.
Qed.

(** The body of the record loop returns exactly on the records on which its
    type assertions hold. *)
Lemma record_key_returns (kfuc : keysFileUserCache K) acc key userData c :
  (∃ acc' evs, record_key kfuc acc (key, userData) c = (Done acc', c, evs))
  ↔ well_typed kfuc key userData.
Proof.
  destruct acc as [users seenRoles]. unfold well_typed, record_key. split.
  - intros (acc' & evs & Hrun). mrun_in Hrun.
    destruct (index userData (userAttr kfuc)) as [|u| |] eqn:Hu;
      mrun_in Hrun; try discriminate.
    split; [eauto|]. intros Hen [sshKey Hparse].
    rewrite Hparse, Hen in Hrun. mrun_in Hrun.
    destruct (index userData (roleAttr kfuc)) as [| |roles|] eqn:Hroles;
      mrun_in Hrun; try discriminate.
    exists roles. split; [done|].
    match type of Hrun with
    | context [for_fold roles ?a _ c] =>
        destruct (for_fold roles a (add_role u) c) as [[[acc1|why] c1] e1] eqn:Hloop;
          [|discriminate];
        pose proof (inert_for_fold roles a (add_role (K:=K) u) (inert_add_role u) c)
          as [Hc _];
        rewrite Hloop in Hc; simpl in Hc; subst c1;
        apply (proj1 (add_roles_returns u roles a c)); eauto
    end.
  - intros [[u Hu] Hroles]. mrun. rewrite Hu. mrun.
    destruct (parse_key key) as [sshKey|] eqn:Hparse; mrun; [|eauto].
    destruct (enableServerRoles kfuc) eqn:Hen; mrun; [|eauto].
    destruct Hroles as (roles & -> & Hstrings); [done|eauto|]. mrun.
    match goal with
    | |- context [for_fold roles ?a _ c] =>
        destruct (proj2 (add_roles_returns u roles a c) Hstrings) as (acc' & evs & ->)
    end.
    destruct acc' as [user' seen']. simpl. eauto.
Qed.

(** The record loop returns exactly when the type assertions hold on every
    record. *)
Lemma record_keys_return (kfuc : keysFileUserCache K) recs acc c :
  (∃ acc' evs, for_fold recs acc (record_key kfuc) c = (Done acc', c, evs))
  ↔ ∀ key userData, (key, userData) ∈ recs → well_typed kfuc key userData.
Proof.
  revert acc. induction recs as [|[k d] recs IH]; intros acc.
  - split; [by intros _ ?? ?%elem_of_nil|]. intros _. by exists acc, [].
  - split.
    + intros (acc' & evs & Hrun) key userData Hin. mrun_in Hrun.
      destruct (record_key kfuc acc (k, d) c) as [[[acc1|why] c1] e1] eqn:Hstep;
        [|discriminate].
      pose proof (inert_record_key kfuc acc (k, d) c) as [Hc _].
      rewrite Hstep in Hc. simpl in Hc. subst c1.
      destruct (for_fold recs acc1 (record_key kfuc) c) as [[[acc2|why] c2] e2] eqn:Hrest;
        [|discriminate].
      pose proof (inert_for_fold recs acc1 (record_key kfuc) (inert_record_key kfuc) c)
        as [Hc _].
      rewrite Hrest in Hc. simpl in Hc. subst c2.
      apply elem_of_cons in Hin as [[= -> ->]|Hin].
      * apply (record_key_returns kfuc acc k d c). eauto.
      * apply (proj1 (IH acc1)); eauto.
    + intros Hall.
      destruct (proj2 (record_key_returns kfuc acc k d c)) as (acc1 & e1 & Hstep);
        [apply Hall; by left|].
      destruct (proj2 (IH acc1)) as (acc2 & e2 & Hrest);
        [intros key userData Hin; apply Hall; by right|].
      exists acc2, (e1 ++ e2). mrun. by rewrite Hstep, Hrest.
Qed.

End KFUsers.

(** X11.  After a successful [Update] of the keys-file cache, whatever the
    cache held before, the snapshot holds a username exactly when some
    record carries it with a key string that parses, and every user of the
    snapshot holds one key per such record, hence at least one. *)
Theorem kf_snapshot_users_have_keys
    `{SSH} `{MapRange} {K : Type} `{KF.KeysFile K}
    (kfuc kfuc' : KF.keysFileUserCache K) (keys : KF.KeysMap) k1 k2 evs :
  KF.Load (KF.keysFile kfuc) = (None, k1) → KF.Keys k1 = (Ok keys, k2) →
  KF.Update kfuc = (Done None, kfuc', evs) →
  (∀ u, is_Some (KF.Users kfuc' !! u) ↔
        ∃ key userData,
          keys !! key = Some userData
          ∧ KF.index userData (KF.userAttr kfuc) = IString u
          ∧ is_Some (parse_key key))
  ∧ (∀ u user, KF.Users kfuc' !! u = Some user →
       SSHKeys user ≠ []
       ∧ List.length (SSHKeys user) = List.length (filter (usable kfuc u) (range keys))).
Proof.
  intros Hl Hk Hup.
  pose proof (kf_Update_snapshot _ _ _ _ _ _ Hl Hk Hup) as Husers. split.
  - intros u. rewrite Husers. unfold user_from.
    destruct (filter (usable kfuc u) (range keys)) as [|[k0 d0] good] eqn:Hgood.
    + split; [by intros []|]. intros (key & userData & Hin).
      apply elem_of_usable in Hin. rewrite Hgood in Hin. by apply elem_of_nil in Hin.
    + split; [|eauto]. intros _. exists k0, d0. apply elem_of_usable.
      rewrite Hgood. by left.
  - intros u user Huser. rewrite Husers in Huser. unfold user_from in Huser.
    pose proof (usable_keys_length kfuc u (range keys)) as Hlen.
    assert (SSHKeys user
            = omap (λ kv : string * gmap string iface, parse_key kv.1)
                (filter (usable kfuc u) (range keys))) as Hkeys.
    { destruct (filter (usable kfuc u) (range keys)) as [|[k0 d0] good]; [done|].
      by injection Huser as <-. }
    rewrite <- Hkeys in Hlen. split; [|done].
    intros Hnil. rewrite Hnil in Hlen.
    by destruct (filter (usable kfuc u) (range keys)).
Qed.

(** X11 at the concrete keys file, read into a cache that held bob: bob is
    gone, and alice holds the keys of her two records that parse. *)
Lemma kf_snapshot_users_have_keys_witness :
  ¬ is_Some (KF.Users (KF.Update (Demo.keysCache {["bob" := Demo.bob]}
                                    (None, Ok Demo.aliceKeys))).1.2 !! "bob")
  ∧ ∀ user,
      KF.Users (KF.Update (Demo.keysCache {["bob" := Demo.bob]}
                             (None, Ok Demo.aliceKeys))).1.2 !! "alice" = Some user →
      SSHKeys user ≠ [].
Proof.
  assert (KF.Update (Demo.keysCache {["bob" := Demo.bob]} (None, Ok Demo.aliceKeys))
          = (Done None,
             (KF.Update (Demo.keysCache {["bob" := Demo.bob]}
                           (None, Ok Demo.aliceKeys))).1.2,
             (KF.Update (Demo.keysCache {["bob" := Demo.bob]}
                           (None, Ok Demo.aliceKeys))).2))
    as Hup by (apply run_eta; vm_compute; reflexivity).
  destruct (@kf_snapshot_users_have_keys Demo.toySSH Demo.forwardRange _ Demo.fixedKeysFile
    (Demo.keysCache {["bob" := Demo.bob]} (None, Ok Demo.aliceKeys)) _ Demo.aliceKeys
    (None, Ok Demo.aliceKeys) (None, Ok Demo.aliceKeys) _ eq_refl eq_refl Hup)
    as [Hdom Hkeys].
  split.
  - intros (key & userData & Hkey & Hname & _)%Hdom.
    assert (forallb (λ kv : string * gmap string iface,
                       match KF.index kv.2 "username" with
                       | IString s => negb (String.eqb s "bob")
                       | _ => true
                       end) (map_to_list Demo.aliceKeys) = true) as Hall
      by (vm_compute; reflexivity).
    apply elem_of_map_to_list, list_elem_of_In in Hkey.
    pose proof (proj1 (forallb_forall _ _) Hall (key, userData) Hkey) as Hone.
    cbv beta in Hone.
    change (KF.index userData "username" = IString "bob") in Hname.
    change ((key, userData).2) with userData in Hone.
    rewrite Hname in Hone. discriminate.
  - intros user Huser. exact (proj1 (Hkeys "alice" user Huser)).
Defined.

(** X12.  Once the file is loaded and its records are at hand, [Update] of
    the keys-file cache returns [nil] exactly when the type assertions hold
    on every record (a string username; with role support, a slice of
    strings as roles wherever the key string parses), and panics otherwise,
    leaving the snapshot as it was. *)
Theorem kf_update_returns_iff_well_typed
    `{SSH} `{MapRange} {K : Type} `{KF.KeysFile K}
    (kfuc : KF.keysFileUserCache K) (keys : KF.KeysMap) k1 k2 :
  KF.Load (KF.keysFile kfuc) = (None, k1) → KF.Keys k1 = (Ok keys, k2) →
  ((∃ kfuc' evs, KF.Update kfuc = (Done None, kfuc', evs))
   ↔ ∀ key userData, keys !! key = Some userData → well_typed kfuc key userData)
  ∧ ((∃ why kfuc' evs,
        KF.Update kfuc = (Panicked why, kfuc', evs) ∧ KF.Users kfuc' = KF.Users kfuc)
     ↔ ¬ ∀ key userData, keys !! key = Some userData → well_typed kfuc key userData).
Proof.
  intros Hl Hk. rewrite (Update_loaded _ _ _ _ Hl Hk).
  pose proof (record_keys_return kfuc (range keys) (∅, ∅) (KF.set_keysFile k2 kfuc))
    as Hiff.
  pose proof (inert_for_fold (range keys) (∅, ∅) (KF.record_key kfuc)
                (inert_record_key kfuc) (KF.set_keysFile k2 kfuc)) as [Hc _].
  assert ((∀ key userData, (key, userData) ∈ range keys → well_typed kfuc key userData)
          ↔ ∀ key userData, keys !! key = Some userData → well_typed kfuc key userData)
    as Hrange.
  { split; intros Hall key userData Hin; apply Hall; by apply elem_of_range. }
  rewrite Hrange in Hiff. clear Hrange.
  destruct (for_fold (range keys) (∅, ∅) (KF.record_key kfuc) (KF.set_keysFile k2 kfuc))
    as [[[acc|why] c1] e1]; simpl in Hc; subst c1.
  - split.
    + split; [|eauto]. intros _. apply Hiff. eauto.
    + split; [by intros (? & ? & ? & ? & _)|]. intros Hnot. destruct Hnot.
      apply Hiff. eauto.
  - split.
    + split; [by intros (? & ? & ?)|]. intros Hall.
      apply Hiff in Hall as (? & ? & ?). discriminate.
    + split; [|eauto]. intros _ Hall. apply Hiff in Hall as (? & ? & ?). discriminate.
Qed.

(** X12 at a keys file whose record lists a role that is not a string:
    [Update] panics. *)
Lemma kf_update_returns_iff_well_typed_witness :
  ∃ why kfuc' evs,
    KF.Update (Demo.keysCache ∅ (None, Ok Demo.badRoleKeys)) = (Panicked why, kfuc', evs)
    ∧ KF.Users kfuc' = ∅.
Proof.
  apply (proj2 (proj2 (@kf_update_returns_iff_well_typed
    Demo.toySSH Demo.forwardRange _ Demo.fixedKeysFile
    (Demo.keysCache ∅ (None, Ok Demo.badRoleKeys)) Demo.badRoleKeys
    (None, Ok Demo.badRoleKeys) (None, Ok Demo.badRoleKeys) eq_refl eq_refl))).
  intros Hall.
  destruct (Hall "AAAAalice" _ eq_refl) as [_ Hroles].
  destruct Hroles as (roles & Hroles & Hstrings); [reflexivity|by eexists|].
  vm_compute in Hroles. injection Hroles as <-.
  destruct (Hstrings (IOther "float64")) as [role Hrole]; [|discriminate].
  apply elem_of_cons. right. apply elem_of_cons. by left.
Defined.

(** ** The constructors *)

Section LDAPConstructor.
Context `{SSH} `{MapRange} {S : Type} `{LDAP.LDAPImplementation S}.
Import LDAP.

(** No field of the configuration is ever assigned by [Update]. *)
Lemma ldap_Update_config (luc luc' : ldapUserCache S) r evs :
  Update luc = (r, luc', evs) →
  userAttr luc' = userAttr luc ∧ baseDN luc' = baseDN luc
  ∧ enableServerRoles luc' = enableServerRoles luc
  ∧ roleAttribute luc' = roleAttribute luc
  ∧ defaultRole luc' = defaultRole luc ∧ defaultRoleAttr luc' = defaultRoleAttr luc.
Proof.
  destruct (enableServerRoles luc) eqn:Hen.
  - destruct (Search (server luc) (groupSearchRequest luc)) as [[gres|err1] s1] eqn:Hg.
    + destruct (Search s1 (searchRequest luc)) as [[res|err2] s2] eqn:Hu.
      * rewrite (Update_with_roles _ _ _ _ _ Hen Hg Hu). by intros [= _ <- _].
      * rewrite (Update_user_search_fails _ _ _ _ _ Hen Hg Hu). by intros [= _ <- _].
    + rewrite (Update_group_search_fails _ _ _ Hen Hg). by intros [= _ <- _].
  - destruct (Search (server luc) (searchRequest luc)) as [[res|err2] s1] eqn:Hu.
    + rewrite (Update_without_roles _ _ _ Hen Hu). by intros [= _ <- _].
    + rewrite (Update_without_roles_fails _ _ _ Hen Hu). by intros [= _ <- _].
Qed.

(** A successful [Update] got as far as the user search, and the users it
    leaves are those held before and those of the entries found. *)
Lemma ldap_Update_domain (luc luc' : ldapUserCache S) evs :
  Update luc = (Done None, luc', evs) →
  ∃ s res,
    before_user_search luc = Some s
    ∧ Search s (searchRequest luc) = (Ok res, server luc')
    ∧ ∀ u, is_Some (users luc' !! u)
           ↔ is_Some (users luc !! u)
             ∨ ∃ entry, entry ∈ Entries res ∧ GetAttributeValue entry (userAttr luc) = u.
Proof.
  unfold before_user_search.
  destruct (enableServerRoles luc) eqn:Hen.
  - destruct (Search (server luc) (groupSearchRequest luc)) as [[gres|err1] s1] eqn:Hg.
    + destruct (Search s1 (searchRequest luc)) as [[res|err2] s2] eqn:Hu.
      * rewrite (Update_with_roles _ _ _ _ _ Hen Hg Hu). intros [= <- _].
        exists s1, res. split; [done|]. split; [done|]. intros u.
        apply (foldl_insert_is_Some (entry_username luc) (entry_user luc _)).
      * by rewrite (Update_user_search_fails _ _ _ _ _ Hen Hg Hu).
    + by rewrite (Update_group_search_fails _ _ _ Hen Hg).
  - destruct (Search (server luc) (searchRequest luc)) as [[res|err2] s1] eqn:Hu.
    + rewrite (Update_without_roles _ _ _ Hen Hu). intros [= <- _].
      exists (server luc), res. split; [done|]. split; [done|]. intros u.
      apply (foldl_insert_is_Some (entry_username luc) (entry_user luc _)).
    + by rewrite (Update_without_roles_fails _ _ _ Hen Hu).
Qed.

End LDAPConstructor.

(** X13.  [NewLDAPUserCache] never panics and always returns a cache, also
    next to an error.  The cache is configured as asked and has run
    [Update] once.  Next to an error its snapshot is empty; next to [nil]
    the user search was answered, and the snapshot holds exactly the
    usernames of the entries of that answer. *)
Theorem new_ldap_cache_holds_search_results
    `{SSH} `{MapRange} {S : Type} `{LDAP.LDAPImplementation S}
    (server : S) (userAttr baseDN : string) (enableServerRoles : bool)
    (roleAttribute defaultRole defaultRoleAttr : string) :
  ∃ err luc evs,
    LDAP.NewLDAPUserCache server userAttr baseDN enableServerRoles roleAttribute
      defaultRole defaultRoleAttr = (Done err, luc, evs)
    ∧ n_calls "Update" evs = 1
    ∧ (LDAP.userAttr luc = userAttr ∧ LDAP.baseDN luc = baseDN
       ∧ LDAP.enableServerRoles luc = enableServerRoles
       ∧ LDAP.roleAttribute luc = roleAttribute
       ∧ LDAP.defaultRole luc = defaultRole
       ∧ LDAP.defaultRoleAttr luc = defaultRoleAttr)
    ∧ (err ≠ None → LDAP.Users luc = ∅)
    ∧ (err = None →
       ∃ s res,
         before_user_search
           (LDAP.mkLUC ∅ ∅ server userAttr baseDN enableServerRoles roleAttribute
              defaultRole defaultRoleAttr) = Some s
         ∧ LDAP.Search s (LDAP.searchRequest luc) = (Ok res, LDAP.server luc)
         ∧ ∀ u, is_Some (LDAP.Users luc !! u)
                ↔ ∃ entry, entry ∈ LDAP.Entries res
                           ∧ LDAP.GetAttributeValue entry userAttr = u).
Proof.
  unfold LDAP.NewLDAPUserCache.
  set (luc0 := LDAP.mkLUC ∅ ∅ server userAttr baseDN enableServerRoles roleAttribute
                 defaultRole defaultRoleAttr).
  destruct (ldap_Update_returns luc0) as (err & luc & evs & Hup).
  exists err, luc, evs. split; [done|].
  split.
  { pose proof (ldap_Update_calls "Update" luc0) as Hcalls.
    by rewrite Hup in Hcalls. }
  pose proof (ldap_Update_config _ _ _ _ Hup) as Hconfig.
  split; [exact Hconfig|].
  split.
  - intros Herr. unfold LDAP.Users.
    rewrite (ldap_Update_users _ _ _ _ Hup); [done|]. intros [= ->]. by apply Herr.
  - intros ->. destruct (ldap_Update_domain _ _ _ Hup) as (s & res & Hs & Hsearch & Hdom).
    exists s, res. split; [done|]. split.
    + rewrite <- Hsearch. f_equal. unfold LDAP.searchRequest.
      destruct Hconfig as (-> & -> & _ & _ & _ & ->). done.
    + intros u. unfold LDAP.Users. rewrite Hdom. simpl. split.
      * intros [Hold|Hnew]; [|done]. rewrite lookup_empty in Hold. by destruct Hold.
      * intros Hnew. by right.
Qed.

Section KFConstructor.
Context `{SSH} `{MapRange} {K : Type} `{KF.KeysFile K}.
Import KF.

(** No field of the configuration is ever assigned by [Update]. *)
Lemma kf_Update_config (kfuc kfuc' : keysFileUserCache K) r evs :
  Update kfuc = (r, kfuc', evs) →
  userAttr kfuc' = userAttr kfuc ∧ enableServerRoles kfuc' = enableServerRoles kfuc
  ∧ roleAttr kfuc' = roleAttr kfuc ∧ defaultRole kfuc' = defaultRole kfuc
  ∧ defaultRoleAttr kfuc' = defaultRoleAttr kfuc.
Proof.
  destruct (Load (keysFile kfuc)) as [[err|] k1] eqn:Hl.
  - rewrite (Update_load_fails _ _ _ Hl). by intros [= _ <- _].
  - destruct (Keys k1) as [[keys|err] k2] eqn:Hk.
    + rewrite (Update_loaded _ _ _ _ Hl Hk).
      destruct (for_fold (range keys) (∅, ∅) (record_key kfuc) (set_keysFile k2 kfuc))
        as [[[acc|why] c1] e1]; by intros [= _ <- _].
    + rewrite (Update_keys_fails _ _ _ _ Hl Hk). by intros [= _ <- _].
Qed.

(** The file is loaded, then its records are read, in that order and once
    each, unless loading fails. *)
Lemma kf_Update_reads (kfuc kfuc' : keysFileUserCache K) r evs :
  Update kfuc = (r, kfuc', evs) →
  match Load (keysFile kfuc) with
  | (Some err, k1) => r = Done (Some err) ∧ keysFile kfuc' = k1
  | (None, k1) =>
      match Keys k1 with
      | (Err err, k2) => r = Done (Some err) ∧ keysFile kfuc' = k2
      | (Ok keys, k2) => keysFile kfuc' = k2
      end
  end.
Proof.
  destruct (Load (keysFile kfuc)) as [[err|] k1] eqn:Hl.
  - rewrite (Update_load_fails _ _ _ Hl). by intros [= <- <- _].
  - destruct (Keys k1) as [[keys|err] k2] eqn:Hk.
    + rewrite (Update_loaded _ _ _ _ Hl Hk).
      destruct (for_fold (range keys) (∅, ∅) (record_key kfuc) (set_keysFile k2 kfuc))
        as [[[acc|why] c1] e1]; by intros [= _ <- _].
    + rewrite (Update_keys_fails _ _ _ _ Hl Hk). by intros [= <- <- _].
Qed.

End KFConstructor.

(** X14.  [NewKeysFileUserCache] returns a cache configured as asked that has
    run [Update] once: the error of [Load], else the error of [Keys], comes
    back next to a cache with an empty snapshot, a panic of the record loop
    leaves the snapshot empty as well, and [nil] comes back next to the
    snapshot built from the records that [Keys] returned after [Load]. *)
Theorem new_keys_file_cache_holds_records
    `{SSH} `{MapRange} {K : Type} `{KF.KeysFile K}
    (keysFile : K) (enableServerRoles : bool)
    (userAttr roleAttr defaultRole defaultRoleAttr : string) :
  ∃ r kfuc evs,
    KF.NewKeysFileUserCache keysFile enableServerRoles userAttr roleAttr defaultRole
      defaultRoleAttr = (r, kfuc, evs)
    ∧ n_calls "Update" evs = 1
    ∧ (KF.userAttr kfuc = userAttr ∧ KF.enableServerRoles kfuc = enableServerRoles
       ∧ KF.roleAttr kfuc = roleAttr ∧ KF.defaultRole kfuc = defaultRole
       ∧ KF.defaultRoleAttr kfuc = defaultRoleAttr)
    ∧ (r ≠ Done None → KF.Users kfuc = ∅)
    ∧ (∀ err k1, KF.Load keysFile = (Some err, k1) → r = Done (Some err))
    ∧ (∀ k1 err k2, KF.Load keysFile = (None, k1) → KF.Keys k1 = (Err err, k2) →
       r = Done (Some err))
    ∧ (r = Done None →
       ∃ k1 keys k2,
         KF.Load keysFile = (None, k1) ∧ KF.Keys k1 = (Ok keys, k2)
         ∧ ∀ u, KF.Users kfuc !! u = user_from kfuc u (range keys)).
Proof.
  unfold KF.NewKeysFileUserCache.
  set (kfuc0 := KF.mkKFUC ∅ keysFile userAttr enableServerRoles roleAttr defaultRole
                  defaultRoleAttr).
  destruct (KF.Update kfuc0) as [[r kfuc] evs] eqn:Hup.
  exists r, kfuc, evs. split; [done|].
  split.
  { pose proof (kf_Update_calls "Update" kfuc0) as Hcalls.
    by rewrite Hup in Hcalls. }
  pose proof (kf_Update_config _ _ _ _ Hup) as Hconfig.
  split; [exact Hconfig|].
  split.
  { intros Hr. unfold KF.Users. by rewrite (kf_Update_users _ _ _ _ Hup). }
  pose proof (kf_Update_reads _ _ _ _ Hup) as Hreads. simpl in Hreads.
  split; [|split].
  - intros err k1 Hl. rewrite Hl in Hreads. apply Hreads.
  - intros k1 err k2 Hl Hk. rewrite Hl, Hk in Hreads. apply Hreads.
  - intros ->.
    destruct (KF.Load keysFile) as [[err|] k1] eqn:Hl; [by destruct Hreads|].
    destruct (KF.Keys k1) as [[keys|err] k2] eqn:Hk; [|by destruct Hreads].
    exists k1, keys, k2. split; [done|]. split; [done|]. intros u.
    rewrite (kf_Update_snapshot kfuc0 kfuc keys k1 k2 evs Hl Hk Hup u).
    clear Hup Hreads. destruct kfuc as [us kf ua en ra dr dra]. simpl in Hconfig.
    destruct Hconfig as (-> & -> & -> & -> & ->). reflexivity.
Qed.

(** ** Metrics *)

Lemma n_timings_app bucket (tr1 tr2 : list event) :
  n_timings bucket (tr1 ++ tr2) = n_timings bucket tr1 + n_timings bucket tr2.
Proof.
  induction tr1 as [|e tr1 IH]; simpl; [done|].
  destruct e; simpl; rewrite IH; lia.
Qed.

Lemma n_counters_app bucket (tr1 tr2 : list event) :
  n_counters bucket (tr1 ++ tr2) = n_counters bucket tr1 + n_counters bucket tr2.
Proof.
  induction tr1 as [|e tr1 IH]; simpl; [done|].
  destruct e; simpl; rewrite IH; lia.
Qed.

(** Log lines carry no metric. *)
Lemma n_timings_logs bucket (tr : list event) :
  Forall is_log tr → n_timings bucket tr = 0.
Proof. induction 1 as [|e tr He _ IH]; [done|]. by destruct e. Qed.

Lemma n_counters_logs bucket (tr : list event) :
  Forall is_log tr → n_counters bucket tr = 0.
Proof. induction 1 as [|e tr He _ IH]; [done|]. by destruct e. Qed.

Lemma logs_only_ret {C A} (a : A) : logs_only (mret a : M C A).
Proof. intros c. constructor. Qed.

Lemma logs_only_panic {C A} why : logs_only (panic why : M C A).
Proof. intros c. constructor. Qed.

Lemma logs_only_log {C} lvl fmt args : logs_only (emit (Log lvl fmt args) : M C unit).
Proof. intros c. by repeat constructor. Qed.

Lemma logs_only_bind {C A B} (m : M C A) (k : A → M C B) :
  logs_only m → (∀ a, logs_only (k a)) → logs_only (m ≫= k).
Proof.
  intros Hm Hk c. unfold mbind, M_bind. specialize (Hm c).
  destruct (m c) as [[[a|why] c1] e1]; simpl in *; [|done].
  specialize (Hk a c1). destruct (k a c1) as [[r c2] e2]; simpl in *.
  by apply Forall_app.
Qed.

Lemma logs_only_for_fold {C B L} (l : list B) (acc : L) (body : L → B → M C L) :
  (∀ acc x, logs_only (body acc x)) → logs_only (for_fold l acc body).
Proof.
  intros Hb. revert acc. induction l as [|x l IH]; intros acc; simpl.
  - apply logs_only_ret.
  - apply logs_only_bind; [apply Hb|]. intros acc'. apply IH.
Qed.

Section LDAPMetrics.
Context `{SSH} `{MapRange} {S : Type} `{LDAP.LDAPImplementation S}.
Import LDAP.

Lemma group_events_logs (luc : ldapUserCache S) entries :
  Forall is_log (group_events luc entries).
Proof. unfold group_events. apply Forall_fmap, Forall_forall. by intros. Qed.

Lemma entry_events_logs (luc : ldapUserCache S) entries :
  Forall is_log (flat_map (entry_events luc) entries).
Proof.
  induction entries as [|entry entries IH]; [constructor|].
  simpl. apply Forall_app. split; [|done].
  unfold entry_events. repeat apply Forall_app_2.
  - unfold key_warnings.
    induction (GetAttributeValues entry "sshPublicKey") as [|k ks IHk]; [constructor|].
    simpl. apply Forall_app. split; [|done].
    destruct (parse_key k); by repeat constructor.
  - destruct (enableServerRoles luc); [|constructor].
    apply Forall_fmap, Forall_forall. by intros.
  - by repeat constructor.
Qed.

(** The metrics of one [Update] of the LDAP cache. *)
Lemma ldap_Update_metrics (luc : ldapUserCache S) bucket :
  n_timings bucket (Update luc).2
  = (if decide ("ldapCacheUpdate" = bucket)
     then match (Update luc).1.1 with Done None => 1 | _ => 0 end
     else 0)
  ∧ n_counters bucket (Update luc).2 = 0.
Proof.
  pose proof group_events_logs as Hg. pose proof entry_events_logs as He.
  destruct (enableServerRoles luc) eqn:Hen.
  - destruct (Search (server luc) (groupSearchRequest luc)) as [[gres|err] s1] eqn:Hgs.
    + destruct (Search s1 (searchRequest luc)) as [[res|err] s2] eqn:Hus.
      * rewrite (Update_with_roles _ _ _ _ _ Hen Hgs Hus). cbn [fst snd].
        change (Call "Update" :: ?l) with ([Call "Update"] ++ l).
        rewrite !n_timings_app, !n_counters_app.
        rewrite ?(n_timings_logs _ _ (Hg _ _)), ?(n_counters_logs _ _ (Hg _ _)),
          ?(n_timings_logs _ _ (He _ _)), ?(n_counters_logs _ _ (He _ _)).
        simpl. by case_decide.
      * rewrite (Update_user_search_fails _ _ _ _ _ Hen Hgs Hus). cbn [fst snd].
        change (Call "Update" :: ?l) with ([Call "Update"] ++ l).
        rewrite !n_timings_app, !n_counters_app.
        rewrite ?(n_timings_logs _ _ (Hg _ _)), ?(n_counters_logs _ _ (Hg _ _)),
          ?(n_timings_logs _ _ (He _ _)), ?(n_counters_logs _ _ (He _ _)).
        simpl. by case_decide.
    + rewrite (Update_group_search_fails _ _ _ Hen Hgs). simpl. by case_decide.
  - destruct (Search (server luc) (searchRequest luc)) as [[res|err] s1] eqn:Hus.
    + rewrite (Update_without_roles _ _ _ Hen Hus). cbn [fst snd].
      change (Call "Update" :: ?l) with ([Call "Update"] ++ l).
      rewrite !n_timings_app, !n_counters_app.
      rewrite ?(n_timings_logs _ _ (He _ _)), ?(n_counters_logs _ _ (He _ _)).
      simpl. by case_decide.
    + rewrite (Update_without_roles_fails _ _ _ Hen Hus). simpl. by case_decide.
Qed.

End LDAPMetrics.

Section KFMetrics.
Context `{SSH} `{MapRange} {K : Type} `{KF.KeysFile K}.
Import KF.

Lemma logs_only_assert_string (v : iface) :
  logs_only (assert_string v : M (keysFileUserCache K) string).
Proof. destruct v; intros c; constructor. Qed.

Lemma logs_only_assert_slice (v : iface) :
  logs_only (assert_slice v : M (keysFileUserCache K) (list iface)).
Proof. destruct v; intros c; constructor. Qed.

Lemma logs_only_add_role username acc r : logs_only (add_role (K:=K) username acc r).
Proof.
  destruct acc as [user seenRoles]. unfold add_role.
  apply logs_only_bind; [apply logs_only_assert_string|]. intros role.
  destruct (seen _ _ _); apply logs_only_ret.
Qed.

Lemma logs_only_record_key (kfuc : keysFileUserCache K) acc kv :
  logs_only (record_key kfuc acc kv).
Proof.
  destruct acc as [users seenRoles], kv as [key userData]. unfold record_key.
  apply logs_only_bind; [apply logs_only_assert_string|]. intros username.
  destruct (parse_key key) as [sshKey|].
  - apply logs_only_bind.
    + destruct (enableServerRoles kfuc); [|apply logs_only_ret].
      apply logs_only_bind; [apply logs_only_assert_slice|]. intros roles.
      apply logs_only_for_fold. intros. apply logs_only_add_role.
    + intros [user' seen']. apply logs_only_ret.
  - apply logs_only_bind; [apply logs_only_log|]. intros _. apply logs_only_ret.
Qed.

(** The metrics of one [Update] of the keys-file cache. *)
Lemma kf_Update_metrics (kfuc : keysFileUserCache K) bucket :
  n_timings bucket (Update kfuc).2
  = (if decide ("keysFileCacheUpdate" = bucket)
     then match (Update kfuc).1.1 with Done None => 1 | _ => 0 end
     else 0)
  ∧ n_counters bucket (Update kfuc).2 = 0.
Proof.
  destruct (Load (keysFile kfuc)) as [[err|] k1] eqn:Hl.
  { rewrite (Update_load_fails _ _ _ Hl). simpl. by case_decide. }
  destruct (Keys k1) as [[keys|err] k2] eqn:Hk.
  - rewrite (Update_loaded _ _ _ _ Hl Hk).
    pose proof (logs_only_for_fold (range keys) (∅, ∅) (record_key kfuc)
                  (logs_only_record_key kfuc) (set_keysFile k2 kfuc)) as Hlogs.
    destruct (for_fold (range keys) (∅, ∅) (record_key kfuc) (set_keysFile k2 kfuc))
      as [[[acc|why] c1] e1]; simpl in Hlogs; cbn [fst snd];
      change (Call "Update" :: ?l) with ([Call "Update"] ++ l);
      rewrite ?n_timings_app, ?n_counters_app;
      rewrite ?(n_timings_logs _ _ Hlogs), ?(n_counters_logs _ _ Hlogs);
      simpl; by case_decide.
  - rewrite (Update_keys_fails _ _ _ _ Hl Hk). simpl. by case_decide.
Qed.

End KFMetrics.

(** X15.  The metrics of both caches.  [Update] reports its timing (bucket
    [ldapCacheUpdate], [keysFileCacheUpdate]) once when it returns [nil] and
    not at all when it returns an error or panics, and it increments no
    counter.  [Authenticate] increments the miss counter (bucket
    [ldapCacheMiss], [keysFileCacheMiss]) once when no key of the snapshot
    verifies and not at all on a hit; its timings are those of the [Update]
    of a miss, and a hit reports none.  No other bucket is ever written. *)
Theorem metrics_follow_outcome
    `{SSH} `{MapRange} {S : Type} `{LDAP.LDAPImplementation S}
    {K : Type} `{KF.KeysFile K} (bucket : string) :
  (∀ luc : LDAP.ldapUserCache S,
     n_timings bucket (LDAP.Update luc).2
     = (if decide ("ldapCacheUpdate" = bucket)
        then match (LDAP.Update luc).1.1 with Done None => 1 | _ => 0 end
        else 0)
     ∧ n_counters bucket (LDAP.Update luc).2 = 0)
  ∧ (∀ username challenge sshSig (luc : LDAP.ldapUserCache S),
       match scan challenge sshSig (range (LDAP.Users luc)) with
       | Some _ =>
           n_counters bucket (LDAP.Authenticate username challenge sshSig luc).2 = 0
           ∧ n_timings bucket (LDAP.Authenticate username challenge sshSig luc).2 = 0
       | None =>
           n_counters bucket (LDAP.Authenticate username challenge sshSig luc).2
           = (if decide ("ldapCacheMiss" = bucket) then 1 else 0)
           ∧ n_timings bucket (LDAP.Authenticate username challenge sshSig luc).2
             = n_timings bucket (LDAP.Update luc).2
       end)
  ∧ (∀ kfuc : KF.keysFileUserCache K,
       n_timings bucket (KF.Update kfuc).2
       = (if decide ("keysFileCacheUpdate" = bucket)
          then match (KF.Update kfuc).1.1 with Done None => 1 | _ => 0 end
          else 0)
       ∧ n_counters bucket (KF.Update kfuc).2 = 0)
  ∧ (∀ username challenge sshSig (kfuc : KF.keysFileUserCache K),
       match scan challenge sshSig (range (KF.Users kfuc)) with
       | Some _ =>
           n_counters bucket (KF.Authenticate username challenge sshSig kfuc).2 = 0
           ∧ n_timings bucket (KF.Authenticate username challenge sshSig kfuc).2 = 0
       | None =>
           n_counters bucket (KF.Authenticate username challenge sshSig kfuc).2
           = (if decide ("keysFileCacheMiss" = bucket) then 1 else 0)
           ∧ n_timings bucket (KF.Authenticate username challenge sshSig kfuc).2
             = n_timings bucket (KF.Update kfuc).2
       end).
Proof.
  split; [intros luc; apply ldap_Update_metrics|].
  split.
  { intros username challenge sshSig luc. unfold LDAP.Users.
    destruct (scan challenge sshSig (range (LDAP.users luc))) as [user|] eqn:Hscan.
    - by rewrite (ldap_Authenticate_hit _ _ _ _ _ Hscan).
    - rewrite (ldap_Authenticate_miss _ _ _ _ Hscan).
      pose proof (ldap_Update_metrics luc bucket) as [_ Hcount].
      destruct (LDAP.Update luc) as [[[[err|]|why] luc'] evs]; cbn [fst snd] in *;
        rewrite ?n_timings_app, ?n_counters_app, ?Hcount; simpl;
        case_decide; lia. }
  split; [intros kfuc; apply kf_Update_metrics|].
  intros username challenge sshSig kfuc. unfold KF.Users.
  destruct (scan challenge sshSig (range (KF.users kfuc))) as [user|] eqn:Hscan.
  - by rewrite (kf_Authenticate_hit _ _ _ _ _ Hscan).
  - rewrite (kf_Authenticate_miss _ _ _ _ Hscan).
    pose proof (kf_Update_metrics kfuc bucket) as [_ Hcount].
    destruct (KF.Update kfuc) as [[[[err|]|why] kfuc'] evs]; cbn [fst snd] in *;
      rewrite ?n_timings_app, ?n_counters_app, ?Hcount; simpl;
      case_decide; lia.
Qed.

(** ** The visiting order of the keys file's records *)

Section KFOrders.
Context `{SSH} {K : Type}.
Import KF.

(** The user built from the records does not depend on the order in which
    they are visited, up to the order of its keys and of its ARNs (and its
    default role, which is that of the first record visited). *)
Lemma user_from_Permutation (kfuc : keysFileUserCache K) u recs1 recs2 :
  recs1 ≡ₚ recs2 →
  match user_from kfuc u recs1, user_from kfuc u recs2 with
  | Some a, Some b =>
      Username a = Username b ∧ SSHKeys a ≡ₚ SSHKeys b ∧ ARNs a ≡ₚ ARNs b
  | None, None => True
  | _, _ => False
  end.
Proof.
  intros Hperm.
  assert (filter (usable kfuc u) recs1 ≡ₚ filter (usable kfuc u) recs2) as Hgood
    by (by rewrite Hperm).
  unfold user_from.
  destruct (filter (usable kfuc u) recs1) as [|[k1 d1] good1],
           (filter (usable kfuc u) recs2) as [|[k2 d2] good2].
  - done.
  - by apply Permutation_nil_cons in Hgood.
  - symmetry in Hgood. by apply Permutation_nil_cons in Hgood.
  - cbn [Username SSHKeys ARNs]. split; [done|]. split.
    + by rewrite Hgood.
    + apply NoDup_Permutation.
      * apply NoDup_merge_roles, NoDup_nil_2.
      * apply NoDup_merge_roles, NoDup_nil_2.
      * intros r. rewrite !elem_of_merge_roles.
        by rewrite (Permutation_flat_map (λ kv, rec_roles kfuc kv.2) Hgood).
Qed.

End KFOrders.

Section KFReturns.
Context `{SSH} `{MapRange} {K : Type} `{KF.KeysFile K}.
Import KF.

(** Whether [Update] returns [nil] is decided by the records, not by the
    order in which they are visited. *)
Lemma kf_Update_returns_iff (kfuc : keysFileUserCache K) (keys : KeysMap) k1 k2 :
  Load (keysFile kfuc) = (None, k1) → Keys k1 = (Ok keys, k2) →
  (∃ kfuc' evs, Update kfuc = (Done None, kfuc', evs))
  ↔ ∀ key userData, keys !! key = Some userData → well_typed kfuc key userData.
Proof.
  intros Hl Hk. rewrite (Update_loaded _ _ _ _ Hl Hk).
  pose proof (record_keys_return kfuc (range keys) (∅, ∅) (set_keysFile k2 kfuc)) as Hiff.
  pose proof (inert_for_fold (range keys) (∅, ∅) (record_key kfuc)
                (inert_record_key kfuc) (set_keysFile k2 kfuc)) as [Hc _].
  assert ((∀ key userData, (key, userData) ∈ range keys → well_typed kfuc key userData)
          ↔ ∀ key userData, keys !! key = Some userData → well_typed kfuc key userData)
    as Hrange.
  { split; intros Hall key userData Hin; apply Hall; by apply elem_of_range. }
  rewrite Hrange in Hiff. clear Hrange.
  destruct (for_fold (range keys) (∅, ∅) (record_key kfuc) (set_keysFile k2 kfuc))
    as [[[acc|why] c1] e1]; simpl in Hc; subst c1.
  - split; [|eauto]. intros _. apply Hiff. eauto.
  - split; [by intros (? & ? & ?)|]. intros Hall.
    apply Hiff in Hall as (? & ? & ?). discriminate.
Qed.

End KFReturns.

(** X16.  Go visits the records of the keys file in an order of its own
    choosing.  Whatever two orders are taken, when [Update] of the keys-file
    cache returns [nil] under one it returns [nil] under the other, and the
    two snapshots hold the same usernames, each with the same keys and the
    same ARNs up to their order in the lists. *)
Theorem kf_snapshot_up_to_visiting_order
    `{SSH} {K : Type} `{KF.KeysFile K} (order1 order2 : MapRange)
    (kfuc kfuc1 : KF.keysFileUserCache K) evs1 :
  @KF.Update _ order1 K _ kfuc = (Done None, kfuc1, evs1) →
  ∃ kfuc2 evs2,
    @KF.Update _ order2 K _ kfuc = (Done None, kfuc2, evs2)
    ∧ ∀ u, match KF.Users kfuc1 !! u, KF.Users kfuc2 !! u with
           | Some a, Some b =>
               Username a = Username b ∧ SSHKeys a ≡ₚ SSHKeys b ∧ ARNs a ≡ₚ ARNs b
           | None, None => True
           | _, _ => False
           end.
Proof.
  intros Hup1.
  destruct (KF.Load (KF.keysFile kfuc)) as [[err|] k1] eqn:Hl.
  { by rewrite (@Update_load_fails _ order1 _ _ _ _ _ Hl) in Hup1. }
  destruct (KF.Keys k1) as [[keys|err] k2] eqn:Hk.
  2: { by rewrite (@Update_keys_fails _ order1 _ _ _ _ _ _ Hl Hk) in Hup1. }
  assert (∃ kfuc2 evs2, @KF.Update _ order2 K _ kfuc = (Done None, kfuc2, evs2))
    as (kfuc2 & evs2 & Hup2).
  { apply (@kf_Update_returns_iff _ order2 _ _ kfuc keys k1 k2 Hl Hk).
    apply (@kf_Update_returns_iff _ order1 _ _ kfuc keys k1 k2 Hl Hk). eauto. }
  exists kfuc2, evs2. split; [done|]. intros u.
  rewrite (@kf_Update_snapshot _ order1 _ _ _ _ _ _ _ _ Hl Hk Hup1 u).
  rewrite (@kf_Update_snapshot _ order2 _ _ _ _ _ _ _ _ Hl Hk Hup2 u).
  apply user_from_Permutation.
  by rewrite (@range_perm order1), (@range_perm order2).
Qed.

(** X16 at the concrete keys file, visited forwards and backwards. *)
Lemma kf_snapshot_up_to_visiting_order_witness :
  ∃ kfuc2 evs2,
    @KF.Update _ Demo.backwardRange _ _ Demo.freshKF = (Done None, kfuc2, evs2)
    ∧ ∀ u, match KF.Users (@KF.Update _ Demo.forwardRange _ _ Demo.freshKF).1.2 !! u,
                 KF.Users kfuc2 !! u with
           | Some a, Some b =>
               Username a = Username b ∧ SSHKeys a ≡ₚ SSHKeys b ∧ ARNs a ≡ₚ ARNs b
           | None, None => True
           | _, _ => False
           end.
Proof.
  assert (@KF.Update _ Demo.forwardRange _ _ Demo.freshKF
          = (Done None,
             (@KF.Update _ Demo.forwardRange _ _ Demo.freshKF).1.2,
             (@KF.Update _ Demo.forwardRange _ _ Demo.freshKF).2))
    as Hup by (apply run_eta; vm_compute; reflexivity).
  exact (@kf_snapshot_up_to_visiting_order Demo.toySSH _ Demo.fixedKeysFile
           Demo.forwardRange Demo.backwardRange Demo.freshKF
           (@KF.Update _ Demo.forwardRange _ _ Demo.freshKF).1.2
           (@KF.Update _ Demo.forwardRange _ _ Demo.freshKF).2 Hup).
Defined.
